(** * Lab1.go: bigram profiles, similarity, bounded top-K selection,
      chunked ingestion.

    A shallow embedding of [src/Lab1.go] and the properties of its
    functions.  Integers are [Z] with the wrap-around of their Go type
    written out, [float64] is the IEEE-754 binary64 format of
    [SpecFloat], strings are byte strings, slices are lists.  A run-time
    panic is [None], or [Panicked] where a call can also block. *)

From Stdlib Require Import ZArith List String Ascii Lia Bool Zify ZifyNat Sorted.
From Stdlib Require Import Floats.SpecFloat.
From stdpp Require Import base option list list_numbers.

Local Open Scope Z_scope.

(** ** float64 *)

Module F64.

Definition prec : Z := 53.
Definition emax : Z := 1024.

Definition float64 := spec_float.

(** [float64(n)] for an unsigned integer [n]: round to nearest even. *)
Definition of_uint64 (n : Z) : float64 := binary_normalize prec emax n 0 false.

(** [x / y] *)
Definition div (x y : float64) : float64 := SFdiv prec emax x y.

(** [-x] *)
Definition neg (x : float64) : float64 := SFopp x.

(** [x > y], [x <= y] and [x == y] *)
Definition gt (x y : float64) : bool := SFltb y x.
Definition le (x y : float64) : bool := SFleb x y.
Definition eq (x y : float64) : bool := SFeqb x y.

Definition zero : float64 := S754_zero false.
Definition one : float64 := S754_finite false 4503599627370496 (-52).
Definition nan : float64 := S754_nan.

Definition is_nan (x : float64) : bool :=
  match x with S754_nan => true | _ => false end.

End F64.

Import F64.

(** ** Machine integers *)

Definition wrap8 (z : Z) : Z := z mod 2 ^ 8.
Definition wrap32 (z : Z) : Z := z mod 2 ^ 32.
Definition wrap64 (z : Z) : Z := z mod 2 ^ 64.

(** ** Data model *)

(** [type ProteinProfile struct { Profile [676]uint32; Sum uint64 }] *)
Record ProteinProfile : Type := mkProfile {
  Profile : list Z;
  Sum : Z
}.

(** [type ProteinSimilarity struct { similarity float64; name string }] *)
Record ProteinSimilarity : Type := mkSimilarity {
  similarity : float64;
  name : string
}.

(** The values the Go types admit: an array of 676 [uint32] and a
    [uint64]. *)
Definition wf_profile (p : ProteinProfile) : Prop :=
  length (Profile p) = 676%nat /\
  Forall (fun c => 0 <= c < 2 ^ 32) (Profile p) /\
  0 <= Sum p < 2 ^ 64.

Definition sumZ (l : list Z) : Z := fold_right Z.add 0 l.

(** The invariant of the data model: the total is the sum of the counts. *)
Definition profile_inv (p : ProteinProfile) : Prop :=
  Sum p = sumZ (Profile p).

(** [var profile [676]uint32]: the zero value of the array. *)
Definition zero_counts : list Z := replicate 676 0.

Definition zero_profile : ProteinProfile := mkProfile zero_counts 0.

(** ** Strings as byte sequences *)

Definition bytes_of (s : string) : list Z :=
  map (fun c => Z.of_N (N_of_ascii c)) (list_ascii_of_string s).

(** 'A' .. 'Z' *)
Definition is_upper (c : Z) : Prop := 65 <= c <= 90.
Definition uppercase (s : string) : Prop := Forall is_upper (bytes_of s).

(** ** buildProfile *)

(** [(int(c1-'A') * 26) + int(c2-'A')]; the subtractions are on [byte]. *)
Definition bigram_index (c1 c2 : Z) : Z :=
  wrap8 (c1 - 65) * 26 + wrap8 (c2 - 65).

(** One iteration of the loop of [buildProfile] at position [i]; [None]
    is the index-out-of-range panic of [profile[index]++]. *)
Definition buildProfile_body (bs : list Z) (st : list Z * Z) (i : nat)
  : option (list Z * Z) :=
  let '(profile, sum) := st in
  c1 ← bs !! i;
  c2 ← bs !! S i;
  let index := Z.to_nat (bigram_index c1 c2) in
  cnt ← profile !! index;
  Some (<[index := wrap32 (cnt + 1)]> profile, wrap64 (sum + 1)).

(** [for i := lo; i < lo + n; i++ { body }] over a state, stopping at a
    panic. *)
Fixpoint for_range {St : Type} (body : St -> nat -> option St)
  (lo n : nat) (st : St) : option St :=
  match n with
  | O => Some st
  | S n' =>
    match body st lo with
    | Some st' => for_range body (S lo) n' st'
    | None => None
    end
  end.

(** [for i := 0; i+1 < len(sequence); i++]: [len(sequence) - 1]
    iterations, none on the empty string. *)
Definition buildProfile (sequence : string) : option ProteinProfile :=
  let bs := bytes_of sequence in
  match for_range (buildProfile_body bs) 0 (length bs - 1) (zero_counts, 0) with
  | Some (profile, sum) => Some (mkProfile profile sum)
  | None => None
  end.

(** ** calculateSimilarity *)

(** The body of [for i := 0; i < 676; i++], on [uint64]. *)
Definition minsum_body (X Y : ProteinProfile) (sumMin : Z) (i : nat) : Z :=
  let x := nth i (Profile X) 0 in
  let y := nth i (Profile Y) 0 in
  if x <? y then wrap64 (sumMin + x) else wrap64 (sumMin + y).

Definition sumMin_of (X Y : ProteinProfile) : Z :=
  fold_left (minsum_body X Y) (seq 0 676) 0.

Definition sumMax_of (X Y : ProteinProfile) : Z :=
  wrap64 (wrap64 (Sum X + Sum Y) - sumMin_of X Y).

Definition calculateSimilarity (X Y : ProteinProfile) : float64 :=
  div (of_uint64 (sumMin_of X Y)) (of_uint64 (sumMax_of X Y)).

(** ** container/heap

    The functions of Go's [container/heap] used by [findTop100Similar],
    over a slice whose [Less(i, j)] compares the elements at [i] and [j]
    with [less].  Indices are [int] in Go; they never leave
    [0 .. len(h)], so they are [nat] here, and [(j - 1) / 2] is [0] at
    [j = 0] in both. The loops of [up] and [down] run on fuel. *)

Section Heap.
Context {A : Type}.
Variable less : A -> A -> bool.

Definition Less (h : list A) (i j : nat) : bool :=
  match h !! i, h !! j with
  | Some a, Some b => less a b
  | _, _ => false
  end.

Definition Swap (h : list A) (i j : nat) : list A :=
  match h !! i, h !! j with
  | Some a, Some b => <[i:=b]> (<[j:=a]> h)
  | _, _ => h
  end.

Fixpoint up (fuel : nat) (h : list A) (j : nat) : list A :=
  match fuel with
  | O => h
  | S fuel' =>
    let i := ((j - 1) / 2)%nat in
    if (i =? j)%nat || negb (Less h j i) then h
    else up fuel' (Swap h i j) i
  end.

Fixpoint down (fuel : nat) (h : list A) (i n : nat) : list A :=
  match fuel with
  | O => h
  | S fuel' =>
    let j1 := (2 * i + 1)%nat in
    if (n <=? j1)%nat then h
    else
      let j := if (j1 + 1 <? n)%nat && Less h (j1 + 1) j1 then (j1 + 1)%nat else j1 in
      if negb (Less h j i) then h
      else down fuel' (Swap h i j) j n
  end.

(** [heap.Init]: [for i := n/2 - 1; i >= 0; i-- { down(h, i, n) }] *)
Definition heap_Init (h : list A) : list A :=
  let n := length h in
  fold_left (fun h i => down n h i n) (rev (seq 0 (n / 2))) h.

(** [heap.Push]: [h.Push(x); up(h, h.Len()-1)] *)
Definition heap_Push (h : list A) (x : A) : list A :=
  let h' := h ++ [x] in
  up (length h') h' (length h' - 1).

(** [heap.Pop]: [n := h.Len() - 1; h.Swap(0, n); down(h, 0, n);
    return h.Pop()]; on an empty heap [Swap(0, -1)] panics. *)
Definition heap_Pop (h : list A) : option (A * list A) :=
  match length h with
  | O => None
  | S n =>
    let h' := down n (Swap h 0 n) 0 n in
    x ← h' !! n;
    Some (x, take n h')
  end.

End Heap.

(** ** MaxHeap *)

(** [type MaxHeap []ProteinSimilarity]; [Len] is [length], [Push]
    appends, [Pop] removes the last element, [Swap] exchanges two
    elements, and
    [Less(i, j) = h[i].similarity > h[j].similarity]. *)
Abbreviation MaxHeap := (list ProteinSimilarity).

Definition MaxHeap_less (a b : ProteinSimilarity) : bool :=
  gt (similarity a) (similarity b).

(** ** findTop100Similar *)

(** [item.similarity = -item.similarity] *)
Definition negated (item : ProteinSimilarity) : ProteinSimilarity :=
  mkSimilarity (neg (similarity item)) (name item).

(** The scoring loop from index [i] on; [names[i]] panics when [names]
    is shorter than [profiles]. *)
Fixpoint top_loop (newProfile : ProteinProfile) (profiles : list ProteinProfile)
  (names : list string) (i : nat) (topN : Z) (minHeap : MaxHeap) : option MaxHeap :=
  match profiles with
  | [] => Some minHeap
  | profile :: rest =>
    let sim := calculateSimilarity newProfile profile in
    nm ← names !! i;
    let h1 := heap_Push MaxHeap_less minHeap (mkSimilarity (neg sim) nm) in
    h2 ← (if topN <? Z.of_nat (length h1)
          then snd <$> heap_Pop MaxHeap_less h1
          else Some h1);
    top_loop newProfile rest names (S i) topN h2
  end.

(** [for minHeap.Len() > 0 { item := heap.Pop(&minHeap); ...;
    result = append(result, item) }] *)
Fixpoint drain (fuel : nat) (minHeap : MaxHeap) (result : list ProteinSimilarity)
  : option (list ProteinSimilarity) :=
  match fuel with
  | O => Some result
  | S fuel' =>
    if (0 <? length minHeap)%nat then
      match heap_Pop MaxHeap_less minHeap with
      | Some (item, h') => drain fuel' h' (result ++ [negated item])
      | None => None
      end
    else Some result
  end.

Definition findTop100Similar (newProteinSequence : string)
  (profiles : list ProteinProfile) (names : list string) (topN : Z)
  : option (list ProteinSimilarity) :=
  newProfile ← buildProfile newProteinSequence;
  let minHeap := heap_Init MaxHeap_less [] in
  h ← top_loop newProfile profiles names 0 topN minHeap;
  drain (length h) h [].

(** ** Outcomes of a call *)

(** A call returns, the process dies by a panic, or the call blocks for
    ever (the Go runtime reports a deadlock); [Diverged] is the model
    running out of fuel. *)
Inductive outcome (A : Type) : Type :=
| Returned (a : A)
| Panicked
| Deadlocked
| Diverged.
Arguments Returned {A} a.
Arguments Panicked {A}.
Arguments Deadlocked {A}.
Arguments Diverged {A}.

Definition obind {A B : Type} (m : outcome A) (k : A -> outcome B) : outcome B :=
  match m with
  | Returned a => k a
  | Panicked => Panicked
  | Deadlocked => Deadlocked
  | Diverged => Diverged
  end.

Definition of_option {A : Type} (m : option A) : outcome A :=
  match m with
  | Some a => Returned a
  | None => Panicked
  end.

(** ** buildProfilesParallel

    The goroutines of one call as an interleaving of atomic steps.  The
    main goroutine runs [wg.Add(1)], [semaphore <- struct{}{}] and
    [go func(...)] for each sequence, then [wg.Wait()].  Goroutine [i]
    runs [profiles[i] = buildProfile(sequence)], [<-semaphore] and the
    deferred [wg.Done()].  When [buildProfile] panics, the goroutine
    skips the write and the receive; the deferred [wg.Done()] runs while
    the panic unwinds, and then the panic, which nothing recovers, ends
    the process.  Until it does, the other goroutines go on. *)

Module Par.

(** The next step of a goroutine: the call of [buildProfile] with the
    write of its slot, the receive on the channel, [wg.Done()]; [GExit]
    once it has ended.  After a panic of [buildProfile]: [GUnwind], the
    deferred [wg.Done()], then [GCrash], the end of the process. *)
Inductive gphase : Type := GRun | GRelease | GDone | GExit | GUnwind | GCrash.

(** The next step of the main goroutine: [wg.Add(1)], the send on the
    channel and the [go] statement for the sequence at hand, then
    [wg.Wait()]; [MReturned] once the call has returned. *)
Inductive mphase : Type := MAdd | MSend | MGo | MWait | MReturned.

(** [gs] lists the goroutines started so far, in the order of their
    index; [sem] is the number of elements in the channel, [wg] the
    counter of the WaitGroup, [out] the slice [profiles]. *)
Record pstate : Type := mkP {
  main : mphase;
  gs : list gphase;
  sem : nat;
  wg : nat;
  out : list ProteinProfile
}.

(** [Panic]: the process has died by a panic. *)
Inductive config : Type :=
| Run (st : pstate)
| Panic.

Section Machine.
Variable sequences : list string.
Variable maxGoroutines : Z.

(** The test of [for i, seq := range sequences]. *)
Definition loop_head (next : nat) : mphase :=
  if (next <? length sequences)%nat then MAdd else MWait.

(** [profiles := make([]ProteinProfile, len(sequences))] *)
Definition init : pstate :=
  mkP (loop_head 0) [] 0 0 (replicate (length sequences) zero_profile).

Inductive step : pstate -> config -> Prop :=
| step_add st :
    main st = MAdd ->
    step st (Run (mkP MSend (gs st) (sem st) (S (wg st)) (out st)))
| step_send st :
    main st = MSend -> Z.of_nat (sem st) < maxGoroutines ->
    step st (Run (mkP MGo (gs st) (S (sem st)) (wg st) (out st)))
| step_go st :
    main st = MGo ->
    step st (Run (mkP (loop_head (S (length (gs st)))) (gs st ++ [GRun])
                      (sem st) (wg st) (out st)))
| step_wait st :
    main st = MWait -> wg st = O ->
    step st (Run (mkP MReturned (gs st) (sem st) (wg st) (out st)))
| step_run st i s p :
    gs st !! i = Some GRun -> sequences !! i = Some s -> buildProfile s = Some p ->
    step st (Run (mkP (main st) (<[i:=GRelease]> (gs st)) (sem st) (wg st)
                      (<[i:=p]> (out st))))
| step_run_panic st i s :
    gs st !! i = Some GRun -> sequences !! i = Some s -> buildProfile s = None ->
    step st (Run (mkP (main st) (<[i:=GUnwind]> (gs st)) (sem st) (wg st) (out st)))
| step_release st i n :
    gs st !! i = Some GRelease -> sem st = S n ->
    step st (Run (mkP (main st) (<[i:=GDone]> (gs st)) n (wg st) (out st)))
| step_done st i n :
    gs st !! i = Some GDone -> wg st = S n ->
    step st (Run (mkP (main st) (<[i:=GExit]> (gs st)) (sem st) n (out st)))
| step_done_panic st i :
    gs st !! i = Some GDone -> wg st = O ->
    step st Panic
| step_unwind st i n :
    gs st !! i = Some GUnwind -> wg st = S n ->
    step st (Run (mkP (main st) (<[i:=GCrash]> (gs st)) (sem st) n (out st)))
| step_unwind_panic st i :
    gs st !! i = Some GUnwind -> wg st = O ->
    step st Panic
| step_crash st i :
    gs st !! i = Some GCrash ->
    step st Panic.

Inductive reach : pstate -> Prop :=
| reach_init : reach init
| reach_step st st' : reach st -> step st (Run st') -> reach st'.

(** The first goroutine that has not exited, with its index. *)
Fixpoint first_live (i : nat) (l : list gphase) : option (nat * gphase) :=
  match l with
  | [] => None
  | GExit :: l' => first_live (S i) l'
  | ph :: _ => Some (i, ph)
  end.

(** One schedule: a started goroutine runs to its end before the main
    goroutine goes on. *)
Definition sched (st : pstate) : option config :=
  match first_live 0 (gs st) with
  | Some (i, GRun) =>
    match sequences !! i with
    | Some s =>
      match buildProfile s with
      | Some p => Some (Run (mkP (main st) (<[i:=GRelease]> (gs st)) (sem st) (wg st)
                                 (<[i:=p]> (out st))))
      | None => Some (Run (mkP (main st) (<[i:=GUnwind]> (gs st)) (sem st) (wg st)
                               (out st)))
      end
    | None => None
    end
  | Some (i, GRelease) =>
    match sem st with
    | S n => Some (Run (mkP (main st) (<[i:=GDone]> (gs st)) n (wg st) (out st)))
    | O => None
    end
  | Some (i, GDone) =>
    match wg st with
    | S n => Some (Run (mkP (main st) (<[i:=GExit]> (gs st)) (sem st) n (out st)))
    | O => Some Panic
    end
  | Some (i, GUnwind) =>
    match wg st with
    | S n => Some (Run (mkP (main st) (<[i:=GCrash]> (gs st)) (sem st) n (out st)))
    | O => Some Panic
    end
  | Some (_, GCrash) => Some Panic
  | Some (_, GExit) => None
  | None =>
    match main st with
    | MAdd => Some (Run (mkP MSend (gs st) (sem st) (S (wg st)) (out st)))
    | MSend =>
      if Z.of_nat (sem st) <? maxGoroutines
      then Some (Run (mkP MGo (gs st) (S (sem st)) (wg st) (out st)))
      else None
    | MGo => Some (Run (mkP (loop_head (S (length (gs st)))) (gs st ++ [GRun])
                            (sem st) (wg st) (out st)))
    | MWait =>
      match wg st with
      | O => Some (Run (mkP MReturned (gs st) (sem st) (wg st) (out st)))
      | S _ => None
      end
    | MReturned => None
    end
  end.

Fixpoint run (fuel : nat) (st : pstate) : outcome (list ProteinProfile) :=
  match main st with
  | MReturned => Returned (out st)
  | _ =>
    match fuel with
    | O => Diverged
    | S fuel' =>
      match sched st with
      | Some (Run st') => run fuel' st'
      | Some Panic => Panicked
      | None => Deadlocked
      end
    end
  end.

(** The steps that remain. *)
Definition gweight (ph : gphase) : nat :=
  match ph with
  | GRun => 3 | GRelease => 2 | GDone => 1 | GExit => 0
  | GUnwind => 2 | GCrash => 1
  end.

Definition mweight (m : mphase) : nat :=
  match m with MAdd => 3 | MSend => 2 | MGo => 1 | MWait => 1 | MReturned => 0 end.

Definition measure (st : pstate) : nat :=
  (6 * (length sequences - length (gs st)) + sum_list_with gweight (gs st)
   + mweight (main st))%nat.

End Machine.

End Par.

(** [make(chan struct{}, maxGoroutines)] panics on a negative size;
    [startIndex] is not used.  The outcome is that of the schedule
    [Par.sched]; the interleavings are those of [Par.step]. *)
Definition buildProfilesParallel (sequences : list string) (maxGoroutines : Z)
  (startIndex : Z) : outcome (list ProteinProfile) :=
  if maxGoroutines <? 0 then Panicked
  else Par.run sequences maxGoroutines
         (Par.measure sequences (Par.init sequences))
         (Par.init sequences).

(** ** processFileInChunks

    The file is the list of the lines that [bufio.Scanner] yields; the
    failure of [os.Open] and the error of the scanner, which the
    function hands back, are not part of the model.  [lineCount] is
    only counted up and is left out. *)

Record scan_state : Type := mkScan {
  allNames : list string;
  allProfiles : list ProteinProfile;
  currentChunkNames : list string;
  currentChunkSequences : list string;
  currentName : string;
  currentSequence : string;
  totalProcessed : Z
}.

Definition scan_init : scan_state := mkScan [] [] [] [] EmptyString EmptyString 0.

(** [int] arithmetic wraps around. *)
Definition wrap_int (z : Z) : Z := (z + 2 ^ 63) mod 2 ^ 64 - 2 ^ 63.

(** [strings.HasPrefix(line, ">")] *)
Definition is_marker (line : string) : bool := String.prefix ">" line.

(** [currentName] is not the empty string. *)
Definition has_name (st : scan_state) : bool := negb (String.eqb (currentName st) EmptyString).

(** Appends the record in progress to the current chunk. *)
Definition push_record (st : scan_state) : scan_state :=
  mkScan (allNames st) (allProfiles st)
    (currentChunkNames st ++ [currentName st])
    (currentChunkSequences st ++ [currentSequence st])
    (currentName st) (currentSequence st) (totalProcessed st).

(** The [if strings.HasPrefix(line, ">") { ... } else { ... }] of the
    loop body. *)
Definition scan_line (st : scan_state) (line : string) : scan_state :=
  if is_marker line then
    if has_name st then
      let st1 := push_record st in
      mkScan (allNames st1) (allProfiles st1) (currentChunkNames st1)
        (currentChunkSequences st1) line EmptyString (totalProcessed st1)
    else
      mkScan (allNames st) (allProfiles st) (currentChunkNames st)
        (currentChunkSequences st) line (currentSequence st) (totalProcessed st)
  else
    mkScan (allNames st) (allProfiles st) (currentChunkNames st)
      (currentChunkSequences st) (currentName st)
      (currentSequence st ++ line) (totalProcessed st).

(** The [if len(currentChunkSequences) >= chunkSize { ... }] of the loop
    body. *)
Definition flush_chunk (maxGoroutines : Z) (st : scan_state) : outcome scan_state :=
  obind (buildProfilesParallel (currentChunkSequences st) maxGoroutines (totalProcessed st))
    (fun profiles =>
       Returned (mkScan (allNames st ++ currentChunkNames st)
                   (allProfiles st ++ profiles) [] []
                   (currentName st) (currentSequence st)
                   (wrap_int (totalProcessed st
                              + Z.of_nat (length (currentChunkSequences st)))))).

Fixpoint scan_loop (chunkSize maxGoroutines : Z) (lines : list string)
  (st : scan_state) : outcome scan_state :=
  match lines with
  | [] => Returned st
  | line :: rest =>
    let st1 := scan_line st line in
    obind (if chunkSize <=? Z.of_nat (length (currentChunkSequences st1))
           then flush_chunk maxGoroutines st1
           else Returned st1)
      (scan_loop chunkSize maxGoroutines rest)
  end.

(** The code after the loop. *)
Definition scan_finish (maxGoroutines : Z) (st : scan_state)
  : outcome (list string * list ProteinProfile) :=
  let st1 := if has_name st then push_record st else st in
  if (0 <? length (currentChunkSequences st1))%nat then
    obind (buildProfilesParallel (currentChunkSequences st1) maxGoroutines (totalProcessed st1))
      (fun profiles =>
         Returned (allNames st1 ++ currentChunkNames st1, allProfiles st1 ++ profiles))
  else Returned (allNames st1, allProfiles st1).

Definition processFileInChunks (lines : list string) (chunkSize maxGoroutines : Z)
  : outcome (list string * list ProteinProfile) :=
  obind (scan_loop chunkSize maxGoroutines lines scan_init) (scan_finish maxGoroutines).

(** ** The records of an input *)

(** The records that the scanning loop forms from [lines], starting with
    the name [cn] and the text [cs] in progress. *)
Fixpoint scan_records (lines : list string) (cn cs : string) : list (string * string) :=
  match lines with
  | [] => if negb (String.eqb cn EmptyString) then [(cn, cs)] else []
  | line :: rest =>
    if is_marker line then
      if negb (String.eqb cn EmptyString) then (cn, cs) :: scan_records rest line EmptyString
      else scan_records rest line cs
    else scan_records rest cn (cs ++ line)
  end.

Definition records_code (lines : list string) : list (string * string) :=
  scan_records lines EmptyString EmptyString.

(** The records as the specification words them: the i-th marker line,
    with the non-marker lines strictly between it and the next marker. *)
Fixpoint text_until_marker (lines : list string) : string :=
  match lines with
  | [] => EmptyString
  | line :: rest => if is_marker line then EmptyString else line ++ text_until_marker rest
  end.

Fixpoint records_spec (lines : list string) : list (string * string) :=
  match lines with
  | [] => []
  | line :: rest =>
    if is_marker line then (line, text_until_marker rest) :: records_spec rest
    else records_spec rest
  end.

(** ** A long sequence *)

(** [n] copies of the byte [c]. *)
Fixpoint string_rep (c : ascii) (n : nat) : string :=
  match n with
  | O => EmptyString
  | S n' => String c (string_rep c n')
  end.

(** 2^32 + 1 times the letter A: the bigram AA occurs 2^32 times. *)
Definition long_A : string := string_rep "A"%char (S (Z.to_nat (2 ^ 32))).

(** * Definitions of the specification *)

(** ** Profiles *)

(** The state of the loop of [buildProfile] after [k] of [n]
    iterations. *)
Definition loop_inv (n k : nat) (st : list Z * Z) : Prop :=
  length (fst st) = 676%nat /\
  Forall (fun c => 0 <= c < 2 ^ 32) (fst st) /\
  snd st = wrap64 (Z.of_nat k) /\
  (Z.of_nat n < 2 ^ 32 -> sumZ (fst st) = Z.of_nat k).

(** The sum of the pointwise minima of two count arrays. *)
Definition min_sum (l1 l2 : list Z) : Z := sumZ (zip_with Z.min l1 l2).

(** A decidable form of [uppercase]. *)
Definition is_upperb (c : Z) : bool := (65 <=? c) && (c <=? 90).
Definition uppercaseb (s : string) : bool := forallb is_upperb (bytes_of s).

(** ** Binary heaps in a slice *)

Definition parent (j : nat) : nat := ((j - 1) / 2)%nat.

Section HeapSpec.
Context {A : Type}.
Variable less : A -> A -> bool.
Variable ok : A -> Prop.

(** The element at [k] does not precede its parent. *)
Definition edge_ok (h : list A) (k : nat) : Prop :=
  forall x y, h !! k = Some x -> h !! parent k = Some y -> less x y = false.

Definition heap_upto (h : list A) (n : nat) : Prop :=
  forall k, (k < n)%nat -> edge_ok h k.

Definition is_heap (h : list A) : Prop := forall k, edge_ok h k.

(** All edges hold but the one above [j], and the children of [j] are
    in order with the parent of [j]. *)
Definition up_inv (h : list A) (j : nat) : Prop :=
  (forall k, k <> j -> edge_ok h k) /\
  (forall k x z, parent k = j -> k <> j -> parent j <> j ->
     h !! k = Some x -> h !! parent j = Some z -> less x z = false).

(** Below [n] all edges hold but those under [i], and the children of
    [i] are in order with the parent of [i]. *)
Definition down_inv (h : list A) (i n : nat) : Prop :=
  (forall k, (k < n)%nat -> parent k <> i -> edge_ok h k) /\
  (forall k x z, (k < n)%nat -> parent k = i -> (0 < i)%nat ->
     h !! k = Some x -> h !! parent i = Some z -> less x z = false).

(** The heap [h] holds the [K] entries kept so far, [D] the entries
    dropped: no kept entry precedes a dropped one. *)
Definition keep_inv (K : Z) (h D : list A) : Prop :=
  is_heap h /\ Forall ok h /\ Forall ok D /\
  (forall x d, x ∈ h -> d ∈ D -> less x d = false) /\
  Z.of_nat (length h) = Z.min K (Z.of_nat (length h + length D)).

End HeapSpec.

(** ** Top-K selection *)

(** A stored score that is a number. *)
Definition score_ok (s : ProteinSimilarity) : Prop := is_nan (similarity s) = false.

(** The entries that the loop pushes, and the scored table. *)
Definition stored (q : ProteinProfile) (profiles : list ProteinProfile)
  (names : list string) : list ProteinSimilarity :=
  zip_with (fun p nm => mkSimilarity (neg (calculateSimilarity q p)) nm) profiles names.

Definition scored (q : ProteinProfile) (profiles : list ProteinProfile)
  (names : list string) : list ProteinSimilarity :=
  zip_with (fun p nm => mkSimilarity (calculateSimilarity q p) nm) profiles names.

(** No score of the table against [q] is NaN. *)
Definition no_nan (q : ProteinProfile) (profiles : list ProteinProfile) : Prop :=
  Forall (fun p => is_nan (calculateSimilarity q p) = false) profiles.

(** Scores in non-decreasing and in non-increasing order. *)
Definition sorted_asc (R : list ProteinSimilarity) : Prop :=
  StronglySorted (fun a b => le (similarity a) (similarity b) = true) R.

Definition sorted_desc (R : list ProteinSimilarity) : Prop :=
  StronglySorted (fun a b => le (similarity b) (similarity a) = true) R.

(** ** Invariants of the goroutines *)

Module ParSpec.
Import Par.

(** The goroutine has not yet run its [wg.Done()]. *)
Definition live (ph : gphase) : nat :=
  match ph with GExit | GCrash => 0 | _ => 1 end.

(** The goroutine is started and has not received from the channel. *)
Definition holding (ph : gphase) : nat :=
  match ph with GRun | GRelease | GUnwind | GCrash => 1 | _ => 0 end.

(** [wg.Add(1)] is done for a goroutine that is not yet started. *)
Definition pending (m : mphase) : nat :=
  match m with MSend | MGo => 1 | _ => 0 end.

(** The main goroutine has sent on the channel for a goroutine that
    is not yet started. *)
Definition sending (m : mphase) : nat :=
  match m with MGo => 1 | _ => 0 end.

(** The slot of a goroutine: written once [buildProfile] has returned,
    and as [make] left it before that and after a panic. *)
Definition slot (sequences : list string) (st : pstate) (i : nat) (ph : gphase) : Prop :=
  match ph with
  | GRun => out st !! i = Some zero_profile
  | GRelease | GDone | GExit =>
    exists s p, sequences !! i = Some s /\ buildProfile s = Some p /\ out st !! i = Some p
  | GUnwind | GCrash =>
    exists s, sequences !! i = Some s /\ buildProfile s = None /\
              out st !! i = Some zero_profile
  end.

Definition written (sequences : list string) (st : pstate) : Prop :=
  forall i ph, gs st !! i = Some ph -> slot sequences st i ph.

(** The slots of the goroutines that are not yet started. *)
Definition fresh (sequences : list string) (st : pstate) : Prop :=
  forall i, (length (gs st) <= i < length sequences)%nat -> out st !! i = Some zero_profile.

Record inv (sequences : list string) (st : pstate) : Prop := mkInv {
  inv_out : length (out st) = length sequences;
  inv_next : match main st with
             | MAdd | MSend | MGo => (length (gs st) < length sequences)%nat
             | MWait | MReturned => length (gs st) = length sequences
             end;
  inv_wg : wg st = (sum_list_with live (gs st) + pending (main st))%nat;
  inv_sem : sem st = (sum_list_with holding (gs st) + sending (main st))%nat;
  inv_written : written sequences st;
  inv_fresh : fresh sequences st;
  inv_returned : main st = MReturned -> wg st = 0%nat
}.

(** What [buildProfilesParallel] leaves in the slot of a sequence. *)
Definition slot_of (s : string) : ProteinProfile :=
  match buildProfile s with
  | Some p => p
  | None => zero_profile
  end.

End ParSpec.

(** ** Tables *)

(** A call of [buildProfilesParallel] that is made only for a chunk
    that is not empty. *)
Definition batch (maxGoroutines : Z) (l : list string) : outcome (list ProteinProfile) :=
  match l with
  | [] => Returned []
  | _ => buildProfilesParallel l maxGoroutines 0
  end.

(** The table of a list of records. *)
Definition table_of (maxGoroutines : Z) (recs : list (string * string))
  : outcome (list string * list ProteinProfile) :=
  obind (batch maxGoroutines (map snd recs)) (fun ps => Returned (map fst recs, ps)).

(** The profiles of the sequences "AA" and "AB". *)
Definition profile_AA : ProteinProfile := mkProfile (<[0%nat:=1]> zero_counts) 1.
Definition profile_AB : ProteinProfile := mkProfile (<[1%nat:=1]> zero_counts) 1.

(** Two heaps of stored scores, the greatest at the root. *)
Definition heap_two : MaxHeap :=
  [mkSimilarity zero ">a"%string; mkSimilarity (neg one) ">b"%string].

Definition heap_four : MaxHeap :=
  [mkSimilarity one ">a"%string; mkSimilarity zero ">b"%string;
   mkSimilarity (neg one) ">c"%string; mkSimilarity (neg one) ">d"%string].

(** ** Occurrences of a bigram *)

(** The cell of the bigram at position [i] of a byte sequence. *)
Definition index_at (bs : list Z) (i : nat) : option nat :=
  c1 ← bs !! i;
  c2 ← bs !! S i;
  Some (Z.to_nat (bigram_index c1 c2)).

(** The number of positions below [n] whose bigram falls in cell [k]. *)
Fixpoint occurrences (bs : list Z) (k n : nat) : nat :=
  match n with
  | O => O
  | S n' => (occurrences bs k n' + if decide (index_at bs n' = Some k) then 1 else 0)%nat
  end.

(** Every bigram of the sequence falls in one of the 676 cells. *)
Definition in_range (bs : list Z) : Prop :=
  forall i c1 c2, bs !! i = Some c1 -> bs !! S i = Some c2 -> bigram_index c1 c2 < 676.

(** Two count arrays without a common bigram. *)
Definition disjoint_counts (X Y : ProteinProfile) : Prop :=
  forall i, nth i (Profile X) 0 = 0 \/ nth i (Profile Y) 0 = 0.

(** ** The report of main *)

(** The arguments of one [fmt.Sprintf] of the report: the rank, the
    name and the score; the text that [%.4f] makes of the score is not
    part of the model. *)
Definition report_line : Type := (Z * string * float64)%type.

(** [for i := len(topSimilarities) - 1; i >= 0; i-- { ... }] with [n]
    iterations left, the next one at [i = n - 1]. *)
Fixpoint report_loop (topSimilarities : list ProteinSimilarity) (n : nat)
  : option (list report_line) :=
  match n with
  | O => Some []
  | S i =>
    item ← topSimilarities !! i;
    rest ← report_loop topSimilarities i;
    Some ((Z.of_nat (length topSimilarities) - Z.of_nat i, name item, similarity item) :: rest)
  end.

(** [main] on the lines of the data file and the line read for the
    query: the number of proteins that it prints and the lines of the
    report.  The output file [output.txt] is taken to be created; what a
    run that panics has printed before is not part of the model. *)
Definition main (lines : list string) (newProteinSequence : string)
  : outcome (Z * list report_line) :=
  obind (processFileInChunks lines 10000 6) (fun table =>
    let names := fst table in
    let profiles := snd table in
    let topN := 100 in
    obind (of_option (findTop100Similar newProteinSequence profiles names topN))
      (fun topSimilarities =>
         obind (of_option (report_loop topSimilarities (length topSimilarities)))
           (fun report => Returned (Z.of_nat (length names), report)))).

(** The lines of a report whose entries are [R], best first. *)
Definition ranked (R : list ProteinSimilarity) : list report_line :=
  imap (fun j item => (Z.of_nat j + 1, name item, similarity item)) R.

(** * Properties *)

Ltac divlia := zify; Z.div_mod_to_equations; lia.

(** One more step of an interleaving of [Par.step]. *)
Ltac par_step H tac := eapply Par.reach_step in H; [|tac]; cbn in H.

(** ** float64 *)

Module F64Facts.

Ltac pos_compare :=
  repeat match goal with
  | |- context [PosDef.Pos.compare_cont Eq ?a ?b] =>
    change (PosDef.Pos.compare_cont Eq a b) with (Pos.compare a b)
  end.

Lemma digits2_pos_bounds (p : positive) :
  2 ^ (Z.pos (digits2_pos p) - 1) <= Z.pos p < 2 ^ Z.pos (digits2_pos p).
Proof.
  induction p as [p IH|p IH|]; cbn [digits2_pos].
  - rewrite Pos2Z.inj_succ, Z.pow_succ_r by lia.
    replace (Z.succ (Z.pos (digits2_pos p)) - 1) with (Z.succ (Z.pos (digits2_pos p) - 1)) by lia.
    rewrite Z.pow_succ_r by lia. lia.
  - rewrite Pos2Z.inj_succ, Z.pow_succ_r by lia.
    replace (Z.succ (Z.pos (digits2_pos p)) - 1) with (Z.succ (Z.pos (digits2_pos p) - 1)) by lia.
    rewrite Z.pow_succ_r by lia. lia.
  - simpl. lia.
Qed.

Lemma digits2_pos_unique (p : positive) (k : Z) :
  2 ^ (k - 1) <= Z.pos p < 2 ^ k -> Z.pos (digits2_pos p) = k.
Proof.
  intros [Hlo Hhi]. pose proof (digits2_pos_bounds p) as [Dlo Dhi].
  set (d := Z.pos (digits2_pos p)) in *.
  assert (0 < d) by (subst d; lia).
  destruct (Z.lt_trichotomy d k) as [Hlt|[->|Hgt]]; [exfalso| reflexivity | exfalso].
  - assert (2 ^ d <= 2 ^ (k - 1)) by (apply Z.pow_le_mono_r; lia). lia.
  - assert (k < 0 \/ 0 <= k) as [Hk|Hk] by lia.
    + rewrite (Z.pow_neg_r 2 k) in Hhi by lia. lia.
    + assert (2 ^ k <= 2 ^ (d - 1)) by (apply Z.pow_le_mono_r; lia). lia.
Qed.

Lemma iter_xO_value (p d : positive) :
  Z.pos (Pos.iter xO p d) = Z.pos p * 2 ^ Z.pos d.
Proof.
  revert p. induction d as [|d IH] using Pos.peano_ind; intros p.
  - simpl. lia.
  - rewrite Pos.iter_succ, Pos2Z.inj_succ, Z.pow_succ_r by lia.
    rewrite Pos2Z.inj_xO, IH. lia.
Qed.

Lemma loc_of_shr_record_of_loc (m : Z) (l : location) :
  loc_of_shr_record (shr_record_of_loc m l) = l.
Proof. destruct l as [|[]]; reflexivity. Qed.

Lemma shr_m_record_of_loc (m : Z) (l : location) :
  shr_m (shr_record_of_loc m l) = m.
Proof. destruct l as [|[]]; reflexivity. Qed.

(** No shift for a mantissa of exactly 53 bits within the exponent range. *)
Lemma shr_fexp_53 (m : positive) (e : Z) (l : location) :
  Z.pos (digits2_pos m) = 53 -> -1074 <= e ->
  shr_fexp prec emax (Z.pos m) e l = (shr_record_of_loc (Z.pos m) l, e).
Proof.
  intros Hd He. unfold shr_fexp, fexp, emin, prec, emax. cbn [Zdigits2].
  rewrite Hd. replace (Z.max (53 + e - 53) (3 - 1024 - 53) - e) with 0 by lia.
  reflexivity.
Qed.

(** One shift for a mantissa of 54 bits. *)
Lemma shr_fexp_54 (m : positive) (e : Z) (l : location) :
  Z.pos (digits2_pos m) = 54 -> -1074 <= e ->
  shr_fexp prec emax (Z.pos m) e l = (shr_1 (shr_record_of_loc (Z.pos m) l), e + 1).
Proof.
  intros Hd He. unfold shr_fexp, fexp, emin, prec, emax. cbn [Zdigits2].
  rewrite Hd. replace (Z.max (54 + e - 53) (3 - 1024 - 53) - e) with 1 by lia.
  reflexivity.
Qed.

(** The second half of [binary_round_aux]: a rounded mantissa in
    [2^52, 2^53] is kept, or renormalised when it reached [2^53]. *)
Lemma round_finish (s : bool) (m : Z) (e : Z) :
  2 ^ 52 <= m <= 2 ^ 53 -> -1074 <= e <= 969 ->
  exists m' e',
    (let '(mrs, e'') := shr_fexp prec emax m e loc_Exact in
     match shr_m mrs with
     | Z0 => S754_zero s
     | Zpos m0 => if e'' <=? emax - prec then S754_finite s m0 e'' else S754_infinity s
     | Zneg _ => S754_nan
     end) = S754_finite s m' e' /\
    Z.pos (digits2_pos m') = 53 /\
    ((e' = e /\ Z.pos m' = m) \/ (e' = e + 1 /\ m' = 4503599627370496%positive /\ m = 2 ^ 53)).
Proof.
  intros Hm He. destruct m as [|m|m]; try lia.
  destruct (Z.eq_dec (Z.pos m) (2 ^ 53)) as [E|NE].
  - injection E as ->. exists 4503599627370496%positive, (e + 1).
    rewrite shr_fexp_54 by (reflexivity || lia). cbn [shr_record_of_loc shr_1 shr_m].
    unfold emax, prec. replace (e + 1 <=? 1024 - 53) with true by (symmetry; apply Z.leb_le; lia).
    split; [reflexivity|]. split; [reflexivity|]. right. auto.
  - assert (Hd : Z.pos (digits2_pos m) = 53) by (apply digits2_pos_unique; lia).
    exists m, e. rewrite shr_fexp_53 by (assumption || lia). cbn [shr_record_of_loc shr_m].
    unfold emax, prec. replace (e <=? 1024 - 53) with true by (symmetry; apply Z.leb_le; lia).
    split; [reflexivity|]. split; [assumption|]. left. auto.
Qed.

Lemma round_nearest_even_range (m : Z) (l : location) :
  round_nearest_even m l = m \/ round_nearest_even m l = m + 1.
Proof. destruct l as [|[]]; simpl; auto. destruct (Z.even m); auto. Qed.

Lemma round_nearest_even_exact (m : Z) : round_nearest_even m loc_Exact = m.
Proof. reflexivity. Qed.

(** [binary_round_aux] on a quotient of 53 bits. *)
Lemma binary_round_aux_53 (s : bool) (q : Z) (e : Z) (l : location) :
  2 ^ 52 <= q < 2 ^ 53 -> -1074 <= e <= 969 ->
  exists m' e',
    binary_round_aux prec emax s q e l = S754_finite s m' e' /\
    Z.pos (digits2_pos m') = 53 /\
    ((e' = e /\ (Z.pos m' = q \/ Z.pos m' = q + 1)) \/
     (e' = e + 1 /\ m' = 4503599627370496%positive)) /\
    (l = loc_Exact -> e' = e /\ Z.pos m' = q).
Proof.
  intros Hq He. destruct q as [|q|q]; try lia.
  assert (Hd : Z.pos (digits2_pos q) = 53) by (apply digits2_pos_unique; lia).
  unfold binary_round_aux. rewrite shr_fexp_53 by (assumption || lia).
  rewrite loc_of_shr_record_of_loc, shr_m_record_of_loc.
  destruct (round_nearest_even_range (Z.pos q) l) as [R|R];
    destruct (round_finish s (round_nearest_even (Z.pos q) l) e) as (m' & e' & Heq & Hd' & Hc);
    try lia.
  - exists m', e'. split; [exact Heq|]. split; [exact Hd'|]. split.
    + destruct Hc as [[-> Hm]|(-> & -> & Hm)]; [left; split; [reflexivity|lia] | right; auto].
    + intros _. destruct Hc as [[-> Hm]|(-> & -> & Hm)]; lia.
  - exists m', e'. split; [exact Heq|]. split; [exact Hd'|]. split.
    + destruct Hc as [[-> Hm]|(-> & -> & Hm)]; [left; split; [reflexivity|lia] | right; auto].
    + intros ->. rewrite round_nearest_even_exact in R. lia.
Qed.

Lemma shr_1_record (q : positive) (l : location) :
  exists l', shr_1 (shr_record_of_loc (Z.pos q) l) = shr_record_of_loc (Z.pos q / 2) l' /\
    (l = loc_Exact -> Z.even (Z.pos q) = true -> l' = loc_Exact).
Proof.
  assert (H2 : forall p, Z.pos p~0 / 2 = Z.pos p).
  { intros p. rewrite Pos2Z.inj_xO, Z.mul_comm. apply Z.div_mul. lia. }
  assert (H3 : forall p, Z.pos p~1 / 2 = Z.pos p).
  { intros p. rewrite Pos2Z.inj_xI. symmetry. apply (Z.div_unique _ _ _ 1); lia. }
  destruct q as [q|q|]; destruct l as [|[]]; cbn [shr_record_of_loc shr_1 orb];
    rewrite ?H2, ?H3;
    first [ exists loc_Exact; split; [reflexivity|auto; fail]
          | exists (loc_Inexact Lt); split; [reflexivity|intros; discriminate]
          | exists (loc_Inexact Eq); split; [reflexivity|intros; discriminate]
          | exists (loc_Inexact Gt); split; [reflexivity|intros; discriminate] ].
Qed.

(** [binary_round_aux] on a quotient of 54 bits. *)
Lemma binary_round_aux_54 (s : bool) (q : Z) (e : Z) (l : location) :
  2 ^ 53 <= q < 2 ^ 54 -> -1074 <= e <= 968 ->
  exists m' e',
    binary_round_aux prec emax s q e l = S754_finite s m' e' /\
    Z.pos (digits2_pos m') = 53 /\
    ((e' = e + 1 /\ (Z.pos m' = q / 2 \/ Z.pos m' = q / 2 + 1)) \/
     (e' = e + 2 /\ m' = 4503599627370496%positive)) /\
    (l = loc_Exact -> Z.even q = true -> e' = e + 1 /\ Z.pos m' = q / 2).
Proof.
  intros Hq He. destruct q as [|q|q]; try lia.
  assert (Hd : Z.pos (digits2_pos q) = 54) by (apply digits2_pos_unique; lia).
  unfold binary_round_aux. rewrite shr_fexp_54 by (assumption || lia).
  destruct (shr_1_record q l) as (l' & -> & Hl').
  rewrite loc_of_shr_record_of_loc, shr_m_record_of_loc.
  assert (Hh : 2 ^ 52 <= Z.pos q / 2 < 2 ^ 53).
  { split; [apply Z.div_le_lower_bound; lia | apply Z.div_lt_upper_bound; lia]. }
  destruct (round_nearest_even_range (Z.pos q / 2) l') as [R|R];
    destruct (round_finish s (round_nearest_even (Z.pos q / 2) l') (e + 1)) as (m' & e' & Heq & Hd' & Hc);
    try lia.
  - exists m', e'. split; [exact Heq|]. split; [exact Hd'|]. split.
    + destruct Hc as [[-> Hm]|(-> & -> & Hm)]; [left; split; [reflexivity|lia] | right; split; [lia|reflexivity]].
    + intros Hl Hev. destruct Hc as [[-> Hm]|(-> & -> & Hm)]; lia.
  - exists m', e'. split; [exact Heq|]. split; [exact Hd'|]. split.
    + destruct Hc as [[-> Hm]|(-> & -> & Hm)]; [left; split; [reflexivity|lia] | right; split; [lia|reflexivity]].
    + intros Hl Hev. rewrite (Hl' Hl Hev), round_nearest_even_exact in R. lia.
Qed.

Lemma of_uint64_0 : of_uint64 0 = zero.
Proof. reflexivity. Qed.

(** Below [2^53] the conversion is exact: the mantissa is the integer
    shifted to 53 bits. *)
Lemma of_uint64_pos (p : positive) :
  Z.pos p < 2 ^ 53 ->
  exists m e,
    of_uint64 (Z.pos p) = S754_finite false m e /\
    Z.pos (digits2_pos m) = 53 /\
    e = Z.pos (digits2_pos p) - 53 /\ -52 <= e <= 0 /\
    Z.pos m = Z.pos p * 2 ^ (- e).
Proof.
  intros Hp. pose proof (digits2_pos_bounds p) as [Dlo Dhi].
  set (d := Z.pos (digits2_pos p)) in *.
  assert (Hd1 : 1 <= d) by (subst d; lia).
  assert (Hd2 : d <= 53).
  { destruct (Z_le_gt_dec d 53) as [|Hgt]; [assumption|exfalso].
    assert (2 ^ 53 <= 2 ^ (d - 1)) by (apply Z.pow_le_mono_r; lia). lia. }
  unfold of_uint64, binary_normalize, binary_round, shl_align, fexp, emin, prec, emax.
  fold d. replace (Z.max (d + 0 - 53) (3 - 1024 - 53)) with (d - 53) by lia.
  destruct (d - 53 - 0) as [|k|k] eqn:Ek; try lia.
  - assert (Hr : 2 ^ 52 <= Z.pos p < 2 ^ 53).
    { replace d with 53 in * by lia. simpl in Dlo. lia. }
    destruct (binary_round_aux_53 false (Z.pos p) 0 loc_Exact Hr ltac:(lia))
      as (m' & e' & Heq & Hd' & _ & Hex).
    destruct (Hex eq_refl) as [-> Hm]. injection Hm as ->.
    exists p, 0. unfold prec, emax in Heq. rewrite Heq.
    repeat split; lia.
  - assert (Hm : Z.pos (Pos.iter xO p k) = Z.pos p * 2 ^ (53 - d)).
    { rewrite iter_xO_value. f_equal. f_equal. lia. }
    assert (Hpow : 2 ^ (d - 1) * 2 ^ (53 - d) = 2 ^ 52).
    { rewrite <- Z.pow_add_r by lia. f_equal. lia. }
    assert (Hpow' : 2 ^ d * 2 ^ (53 - d) = 2 ^ 53).
    { rewrite <- Z.pow_add_r by lia. f_equal. lia. }
    assert (0 < 2 ^ (53 - d)) by (apply Z.pow_pos_nonneg; lia).
    assert (Hr : 2 ^ 52 <= Z.pos (Pos.iter xO p k) < 2 ^ 53) by (rewrite Hm; nia).
    destruct (binary_round_aux_53 false (Z.pos (Pos.iter xO p k)) (d - 53) loc_Exact Hr ltac:(lia))
      as (m' & e' & Heq & Hd' & _ & Hex).
    destruct (Hex eq_refl) as [-> Hm']. injection Hm' as ->.
    exists (Pos.iter xO p k), (d - 53). unfold prec, emax in Heq. rewrite Heq.
    repeat split; try lia. rewrite Hm. f_equal. f_equal. lia.
Qed.

(** The quotient of two 53-bit mantissas. *)
Lemma div_finite (ma mb : positive) (ea eb : Z) :
  Z.pos (digits2_pos ma) = 53 -> Z.pos (digits2_pos mb) = 53 ->
  -52 <= ea <= 0 -> -52 <= eb <= 0 ->
  div (S754_finite false ma ea) (S754_finite false mb eb) =
  binary_round_aux prec emax false (Z.pos ma * 2 ^ 53 / Z.pos mb) (ea - eb - 53)
    (new_location (Z.pos mb) (Z.pos ma * 2 ^ 53 mod Z.pos mb)).
Proof.
  intros Ha Hb Hea Heb. unfold div, SFdiv, SFdiv_core_binary, fexp, emin, prec, emax.
  cbn [Zdigits2 xorb]. rewrite Ha, Hb.
  set (e' := Z.min _ _).
  assert (He' : e' = ea - eb - 53) by (subst e'; lia). clearbody e'. subst e'.
  replace (ea - eb - (ea - eb - 53)) with 53 by lia.
  rewrite Z.shiftl_mul_pow2 by lia.
  unfold Z.div, Z.modulo.
  destruct (Z.div_eucl (Z.pos ma * 2 ^ 53) (Z.pos mb)) as [q r]. reflexivity.
Qed.

Lemma new_location_0 (n : Z) : new_location n 0 = loc_Exact.
Proof. unfold new_location. destruct (Z.even n); reflexivity. Qed.

Lemma div_self (m : positive) (e : Z) :
  Z.pos (digits2_pos m) = 53 -> -52 <= e <= 0 ->
  div (S754_finite false m e) (S754_finite false m e) = one.
Proof.
  intros Hd He. rewrite div_finite by assumption.
  rewrite Z.mul_comm, Z.div_mul, Z.mod_mul, new_location_0 by lia.
  destruct (binary_round_aux_54 false (2 ^ 53) (e - e - 53) loc_Exact)
    as (m' & e' & Heq & _ & _ & Hex); try lia.
  destruct (Hex eq_refl eq_refl) as [-> Hm]. rewrite Heq. unfold one.
  f_equal; [|lia]. change (2 ^ 53 / 2) with (Z.pos 4503599627370496) in Hm. congruence.
Qed.

Lemma le_zero_finite (m : positive) (e : Z) : le zero (S754_finite false m e) = true.
Proof. reflexivity. Qed.

Lemma le_finite_one (m : positive) (e : Z) :
  e < -52 \/ (e = -52 /\ m = 4503599627370496%positive) ->
  le (S754_finite false m e) one = true.
Proof.
  unfold le, SFleb, one, SFcompare. intros [H|[-> ->]].
  - apply Z.compare_lt_iff in H. rewrite H. reflexivity.
  - reflexivity.
Qed.

(** The quotient of two integers [0 < a <= b < 2^53] lies in [0, 1]. *)
Lemma div_of_uint64_le (a b : Z) :
  0 < a <= b -> b < 2 ^ 53 ->
  exists m e, div (of_uint64 a) (of_uint64 b) = S754_finite false m e /\
    (e < -52 \/ (e = -52 /\ m = 4503599627370496%positive)).
Proof.
  intros Ha Hb. destruct a as [|a|a]; try lia. destruct b as [|b|b]; try lia.
  destruct (of_uint64_pos a) as (ma & ea & -> & Hda & Hea & Hra & Hma); [lia|].
  destruct (of_uint64_pos b) as (mb & eb & -> & Hdb & Heb & Hrb & Hmb); [lia|].
  pose proof (digits2_pos_bounds a) as [Alo Ahi].
  pose proof (digits2_pos_bounds b) as [Blo Bhi].
  pose proof (digits2_pos_bounds ma) as [MAlo MAhi]. rewrite Hda in MAlo, MAhi.
  pose proof (digits2_pos_bounds mb) as [MBlo MBhi]. rewrite Hdb in MBlo, MBhi.
  assert (Hee : ea <= eb).
  { destruct (Z_le_gt_dec ea eb) as [|Hgt]; [assumption|exfalso].
    assert (2 ^ Z.pos (digits2_pos b) <= 2 ^ (Z.pos (digits2_pos a) - 1))
      by (apply Z.pow_le_mono_r; lia). lia. }
  assert (Hmm : ea = eb -> Z.pos ma <= Z.pos mb).
  { intros E. rewrite Hma, Hmb, E. apply Z.mul_le_mono_nonneg_r; [apply Z.pow_nonneg|]; lia. }
  destruct (Pos.eq_dec ma mb) as [Em|NEm]; [destruct (Z.eq_dec ea eb) as [Ee|NEe]|].
  { subst mb. rewrite <- Ee, div_self by (assumption || lia).
    eexists _, _. split; [reflexivity|]. right. auto. }
  { subst mb. assert (ea < eb) by lia. clear NEe.
    rewrite div_finite by assumption.
    rewrite (Z.mul_comm (Z.pos ma)), Z.div_mul, Z.mod_mul, new_location_0 by lia.
    destruct (binary_round_aux_54 false (2 ^ 53) (ea - eb - 53) loc_Exact)
      as (m' & e' & Heq & _ & _ & Hex); try lia.
    destruct (Hex eq_refl eq_refl) as [-> Hm]. exists m', (ea - eb - 53 + 1).
    split; [exact Heq|]. left. lia. }
  rewrite div_finite by assumption.
  pose proof (Z.div_mod (Z.pos ma * 2 ^ 53) (Z.pos mb) ltac:(lia)) as Hdm.
  pose proof (Z.mod_pos_bound (Z.pos ma * 2 ^ 53) (Z.pos mb) ltac:(lia)) as Hr.
  set (q := Z.pos ma * 2 ^ 53 / Z.pos mb) in *.
  set (r := Z.pos ma * 2 ^ 53 mod Z.pos mb) in *.
  assert (Hq1 : 2 ^ 52 <= q) by nia.
  assert (Hq2 : q < 2 ^ 54) by nia.
  destruct (Z_lt_ge_dec q (2 ^ 53)) as [Hq|Hq].
  - destruct (binary_round_aux_53 false q (ea - eb - 53) (new_location (Z.pos mb) r))
      as (m' & e' & Heq & _ & Hc & _); try lia.
    exists m', e'. split; [exact Heq|].
    destruct Hc as [[-> _]|[-> ->]]; [left; lia|].
    destruct (Z.eq_dec ea eb); [right; split; [lia|reflexivity] | left; lia].
  - destruct (Z.eq_dec ea eb) as [E|NE].
    + assert (Z.pos ma = Z.pos mb) by (specialize (Hmm E); nia). congruence.
    + destruct (binary_round_aux_54 false q (ea - eb - 53) (new_location (Z.pos mb) r))
        as (m' & e' & Heq & _ & Hc & _); try lia.
      exists m', e'. split; [exact Heq|].
      destruct Hc as [[-> _]|[-> ->]]; [left; lia|].
      destruct (Z.eq_dec (ea - eb - 53 + 2) (-52)); [right; split; [lia|reflexivity] | left; lia].
Qed.

Lemma SFcompare_antisym (x y : float64) (c : comparison) :
  SFcompare x y = Some c -> SFcompare y x = Some (CompOpp c).
Proof.
  destruct x as [[]|[]| |[] mx ex], y as [[]|[]| |[] my ey]; cbn [SFcompare];
    try (intros [= <-]; reflexivity); try discriminate.
  - intros [= <-]. f_equal. rewrite (Z.compare_antisym ex ey). pos_compare.
    rewrite (Pos.compare_antisym mx my).
    destruct (ex ?= ey); cbn [CompOpp]; reflexivity.
  - intros [= <-]. f_equal. rewrite (Z.compare_antisym ex ey). pos_compare.
    rewrite (Pos.compare_antisym mx my).
    destruct (ex ?= ey); cbn [CompOpp]; reflexivity.
Qed.

Lemma SFleb_finite_pos (m1 m2 : positive) (e1 e2 : Z) :
  SFleb (S754_finite false m1 e1) (S754_finite false m2 e2) = true <->
  e1 < e2 \/ (e1 = e2 /\ (m1 <= m2)%positive).
Proof.
  unfold SFleb, SFcompare. pos_compare.
  destruct (Z.compare_spec e1 e2); [destruct (Pos.compare_spec m1 m2)|..];
    split; intros; try lia; try reflexivity; try discriminate.
Qed.

Lemma SFleb_finite_neg (m1 m2 : positive) (e1 e2 : Z) :
  SFleb (S754_finite true m1 e1) (S754_finite true m2 e2) = true <->
  e2 < e1 \/ (e1 = e2 /\ (m2 <= m1)%positive).
Proof.
  unfold SFleb, SFcompare. pos_compare.
  destruct (Z.compare_spec e1 e2); [destruct (Pos.compare_spec m1 m2)|..];
    split; cbn [CompOpp]; intros; try lia; try reflexivity; try discriminate.
Qed.

Lemma le_trans (x y z : float64) :
  le x y = true -> le y z = true -> le x z = true.
Proof.
  unfold le. intros H1 H2.
  destruct x as [[]|[]| |[] mx ex], y as [[]|[]| |[] my ey], z as [[]|[]| |[] mz ez];
    try reflexivity; try (cbv in H1; discriminate H1); try (cbv in H2; discriminate H2).
  - apply SFleb_finite_neg in H1, H2. apply SFleb_finite_neg. lia.
  - apply SFleb_finite_pos in H1, H2. apply SFleb_finite_pos. lia.
Qed.

Lemma le_not_gt (x y : float64) : le x y = true -> gt x y = false.
Proof.
  unfold le, gt, SFleb, SFltb. destruct (SFcompare x y) as [c|] eqn:E; [|discriminate].
  rewrite (SFcompare_antisym _ _ _ E). destruct c; cbn; congruence.
Qed.

Lemma not_gt_le (x y : float64) :
  is_nan x = false -> is_nan y = false -> gt x y = false -> le x y = true.
Proof.
  unfold le, gt, SFleb, SFltb. intros Hx Hy.
  destruct (SFcompare x y) as [c|] eqn:E.
  - rewrite (SFcompare_antisym _ _ _ E). destruct c; cbn; congruence.
  - destruct x as [[]|[]| |[] mx ex], y as [[]|[]| |[] my ey]; discriminate.
Qed.

Lemma gt_asym (x y : float64) : gt x y = true -> gt y x = false.
Proof.
  unfold gt, SFltb. destruct (SFcompare y x) as [c|] eqn:E; [|discriminate].
  rewrite (SFcompare_antisym _ _ _ E). destruct c; cbn; congruence.
Qed.

Lemma gt_negtrans (x y z : float64) :
  is_nan x = false -> is_nan y = false -> is_nan z = false ->
  gt x y = false -> gt y z = false -> gt x z = false.
Proof.
  intros Hx Hy Hz H1 H2. apply le_not_gt.
  apply (le_trans x y z); apply not_gt_le; assumption.
Qed.

Lemma neg_involutive (x : float64) : neg (neg x) = x.
Proof. destruct x as [[]|[]| |[] m e]; reflexivity. Qed.

Lemma is_nan_neg (x : float64) : is_nan (neg x) = is_nan x.
Proof. destruct x as [[]|[]| |[] m e]; reflexivity. Qed.

(** Negation reverses the order. *)
Lemma gt_neg (x y : float64) : gt (neg x) (neg y) = gt y x.
Proof.
  unfold gt, SFltb, neg.
  destruct x as [[]|[]| |[] mx ex], y as [[]|[]| |[] my ey]; try reflexivity;
    cbn [SFopp SFcompare negb].
  - rewrite (Z.compare_antisym ey ex). pos_compare. rewrite (Pos.compare_antisym my mx).
    destruct (ey ?= ex); cbn [CompOpp]; try reflexivity;
      destruct (my ?= mx)%positive; reflexivity.
  - rewrite (Z.compare_antisym ey ex). pos_compare. rewrite (Pos.compare_antisym my mx).
    destruct (ey ?= ex); cbn [CompOpp]; try reflexivity;
      destruct (my ?= mx)%positive; reflexivity.
Qed.

End F64Facts.

Import F64Facts.

(** ** Loops and sums *)

Section Loops.
Context {St : Type}.
Variable body : St -> nat -> option St.
Variable I : nat -> St -> Prop.

Lemma for_range_inv (n lo : nat) (st st' : St) :
  (forall i s s', (lo <= i < lo + n)%nat -> I i s -> body s i = Some s' -> I (S i) s') ->
  I lo st -> for_range body lo n st = Some st' -> I (lo + n)%nat st'.
Proof.
  revert lo st. induction n as [|n IH]; intros lo st Hstep Hst Hrun; cbn [for_range] in Hrun.
  - injection Hrun as <-. rewrite Nat.add_0_r. exact Hst.
  - destruct (body st lo) as [s1|] eqn:Hb; [|discriminate].
    replace (lo + S n)%nat with (S lo + n)%nat by lia.
    apply (IH (S lo) s1); [|apply (Hstep lo st); [lia|assumption..]|assumption].
    intros i s s' Hi. apply Hstep. lia.
Qed.

Lemma for_range_total (n lo : nat) (st : St) :
  (forall i s, (lo <= i < lo + n)%nat -> I i s ->
     exists s', body s i = Some s' /\ I (S i) s') ->
  I lo st -> exists st', for_range body lo n st = Some st' /\ I (lo + n)%nat st'.
Proof.
  revert lo st. induction n as [|n IH]; intros lo st Hstep Hst; cbn [for_range].
  - exists st. rewrite Nat.add_0_r. auto.
  - destruct (Hstep lo st ltac:(lia) Hst) as (s1 & -> & H1).
    replace (lo + S n)%nat with (S lo + n)%nat by lia.
    apply IH; [|assumption]. intros i s Hi. apply Hstep. lia.
Qed.
End Loops.

Section Sums.

Lemma sumZ_cons (x : Z) (l : list Z) : sumZ (x :: l) = x + sumZ l.
Proof. reflexivity. Qed.

Lemma sumZ_app (l1 l2 : list Z) : sumZ (l1 ++ l2) = sumZ l1 + sumZ l2.
Proof.
  induction l1 as [|x l1 IH]; [reflexivity|].
  rewrite <- app_comm_cons, !sumZ_cons, IH. lia.
Qed.

Lemma sumZ_insert (l : list Z) (i : nat) (old v : Z) :
  l !! i = Some old -> sumZ (<[i:=v]> l) = sumZ l - old + v.
Proof.
  revert i. induction l as [|x l IH]; intros [|i] H; try discriminate.
  - injection H as ->. change (<[0%nat:=v]> (old :: l)) with (v :: l).
    rewrite !sumZ_cons. lia.
  - change (<[S i:=v]> (x :: l)) with (x :: <[i:=v]> l).
    change (l !! i = Some old) in H.
    rewrite !sumZ_cons, (IH i H). lia.
Qed.

Lemma sumZ_nonneg (l : list Z) : Forall (fun c => 0 <= c) l -> 0 <= sumZ l.
Proof. induction 1; rewrite ?sumZ_cons; [unfold sumZ; simpl|]; lia. Qed.

Lemma sumZ_elem_le (l : list Z) (i : nat) (c : Z) :
  Forall (fun c => 0 <= c) l -> l !! i = Some c -> c <= sumZ l.
Proof.
  intros Hl. revert i. induction Hl as [|x l Hx Hl IH]; intros [|i] H; try discriminate.
  - injection H as ->. rewrite sumZ_cons. pose proof (sumZ_nonneg l Hl). lia.
  - change (l !! i = Some c) in H. rewrite sumZ_cons. specialize (IH i H). lia.
Qed.

Lemma sumZ_upper (l : list Z) (b : Z) :
  Forall (fun c => 0 <= c < b) l -> 0 <= sumZ l <= Z.of_nat (length l) * (b - 1).
Proof.
  induction 1 as [|x l Hx Hl IH]; [unfold sumZ; simpl; lia|].
  rewrite sumZ_cons. cbn [length]. lia.
Qed.

Lemma sumZ_zero_counts : sumZ zero_counts = 0.
Proof. reflexivity. Qed.

End Sums.

(** ** buildProfile *)

Section BuildProfile.

Lemma wrap32_range (z : Z) : 0 <= wrap32 z < 2 ^ 32.
Proof. unfold wrap32. apply Z.mod_pos_bound. lia. Qed.

Lemma wrap64_range (z : Z) : 0 <= wrap64 z < 2 ^ 64.
Proof. unfold wrap64. apply Z.mod_pos_bound. lia. Qed.

Lemma wrap32_small (z : Z) : 0 <= z < 2 ^ 32 -> wrap32 z = z.
Proof. unfold wrap32. apply Z.mod_small. Qed.

Lemma wrap64_small (z : Z) : 0 <= z < 2 ^ 64 -> wrap64 z = z.
Proof. unfold wrap64. apply Z.mod_small. Qed.

Lemma wrap64_succ (z : Z) : wrap64 (wrap64 z + 1) = wrap64 (z + 1).
Proof. unfold wrap64. apply Zplus_mod_idemp_l. Qed.

Lemma length_zero_counts : length zero_counts = 676%nat.
Proof. reflexivity. Qed.

Lemma Forall_zero_counts (P : Z -> Prop) : P 0 -> Forall P zero_counts.
Proof. intros H. unfold zero_counts. apply Forall_replicate. exact H. Qed.

Lemma bigram_index_upper (c1 c2 : Z) :
  is_upper c1 -> is_upper c2 -> 0 <= bigram_index c1 c2 <= 675.
Proof.
  unfold is_upper, bigram_index, wrap8. intros H1 H2.
  rewrite !Z.mod_small by lia. lia.
Qed.

Lemma bigram_index_nonneg (c1 c2 : Z) : 0 <= bigram_index c1 c2.
Proof.
  unfold bigram_index, wrap8.
  pose proof (Z.mod_pos_bound (c1 - 65) (2 ^ 8) ltac:(lia)).
  pose proof (Z.mod_pos_bound (c2 - 65) (2 ^ 8) ltac:(lia)). lia.
Qed.

Lemma buildProfile_body_Some (bs profile : list Z) (sum : Z) (i : nat) (st' : list Z * Z) :
  buildProfile_body bs (profile, sum) i = Some st' ->
  exists c1 c2 cnt,
    bs !! i = Some c1 /\ bs !! S i = Some c2 /\
    profile !! Z.to_nat (bigram_index c1 c2) = Some cnt /\
    st' = (<[Z.to_nat (bigram_index c1 c2) := wrap32 (cnt + 1)]> profile, wrap64 (sum + 1)).
Proof.
  unfold buildProfile_body. intros H.
  destruct (bs !! i) as [c1|] eqn:E1; [|discriminate].
  destruct (bs !! S i) as [c2|] eqn:E2; [|discriminate]. cbn in H.
  destruct (profile !! Z.to_nat (bigram_index c1 c2)) as [cnt|] eqn:E3; [|discriminate].
  cbn in H. injection H as <-. exists c1, c2, cnt. repeat split; assumption.
Qed.

Lemma loop_inv_init (n : nat) : loop_inv n 0 (zero_counts, 0).
Proof.
  repeat split; cbn [fst snd]; try reflexivity.
  apply Forall_zero_counts. lia.
Qed.

Lemma loop_inv_step (bs : list Z) (n i : nat) (s s' : list Z * Z) :
  (0 <= i < 0 + n)%nat -> loop_inv n i s ->
  buildProfile_body bs s i = Some s' -> loop_inv n (S i) s'.
Proof.
  intros Hi (Hlen & Hall & Hsum & Hinv) Hb. destruct s as [profile sum].
  cbn [fst snd] in *.
  destruct (buildProfile_body_Some _ _ _ _ _ Hb) as (c1 & c2 & cnt & _ & _ & Hcnt & ->).
  unfold loop_inv. cbn [fst snd]. split; [|split; [|split]].
  - rewrite length_insert. exact Hlen.
  - apply Forall_insert; [exact Hall|]. apply wrap32_range.
  - rewrite Hsum, wrap64_succ. f_equal. lia.
  - intros Hn. specialize (Hinv Hn).
    rewrite (sumZ_insert _ _ cnt) by exact Hcnt.
    assert (0 <= cnt) by (eapply (Forall_lookup_1 _ _ _ _ Hall Hcnt)).
    assert (cnt <= sumZ profile).
    { eapply sumZ_elem_le; [|exact Hcnt].
      eapply Forall_impl; [exact Hall|]. cbn. lia. }
    rewrite wrap32_small by lia. lia.
Qed.

Lemma buildProfile_loop_inv (s : string) (p : ProteinProfile) :
  buildProfile s = Some p ->
  loop_inv (length (bytes_of s) - 1) (length (bytes_of s) - 1) (Profile p, Sum p).
Proof.
  unfold buildProfile. intros H.
  destruct (for_range _ _ _ _) as [[profile sum]|] eqn:Hrun; [|discriminate].
  injection H as <-. cbn [Profile Sum].
  apply (for_range_inv _ (loop_inv (length (bytes_of s) - 1)) _ 0 _ _
           (loop_inv_step (bytes_of s) _) (loop_inv_init _) Hrun).
Qed.

Lemma buildProfile_wf (s : string) (p : ProteinProfile) :
  buildProfile s = Some p -> wf_profile p.
Proof.
  intros H. destruct (buildProfile_loop_inv s p H) as (Hlen & Hall & Hsum & _).
  cbn [fst snd] in *. repeat split; try assumption; rewrite Hsum; apply wrap64_range.
Qed.

Lemma buildProfile_Sum (s : string) (p : ProteinProfile) :
  buildProfile s = Some p -> Sum p = wrap64 (Z.of_nat (length (bytes_of s) - 1)).
Proof.
  intros H. destruct (buildProfile_loop_inv s p H) as (_ & _ & Hsum & _). exact Hsum.
Qed.

Lemma buildProfile_inv (s : string) (p : ProteinProfile) :
  buildProfile s = Some p -> Z.of_nat (length (bytes_of s)) <= 2 ^ 32 -> profile_inv p.
Proof.
  intros H Hlen. destruct (buildProfile_loop_inv s p H) as (_ & _ & Hsum & Hinv).
  cbn [fst snd] in *. unfold profile_inv. rewrite Hsum, Hinv by lia.
  apply wrap64_small. lia.
Qed.

Lemma buildProfile_uppercase (s : string) :
  uppercase s -> exists p, buildProfile s = Some p.
Proof.
  intros Hup. unfold buildProfile. set (bs := bytes_of s) in *.
  destruct (for_range_total (buildProfile_body bs)
              (fun _ st => length (fst st) = 676%nat) (length bs - 1) 0 (zero_counts, 0))
    as ([profile sum] & -> & _); [|reflexivity|eauto].
  intros i [profile sum] Hi Hlen. cbn [fst] in Hlen.
  destruct (lookup_lt_is_Some_2 bs i ltac:(lia)) as [c1 H1].
  destruct (lookup_lt_is_Some_2 bs (S i) ltac:(lia)) as [c2 H2].
  pose proof (bigram_index_upper c1 c2
                (Forall_lookup_1 _ _ _ _ Hup H1) (Forall_lookup_1 _ _ _ _ Hup H2)) as Hidx.
  destruct (lookup_lt_is_Some_2 profile (Z.to_nat (bigram_index c1 c2)) ltac:(lia)) as [cnt H3].
  unfold buildProfile_body. rewrite H1, H2. cbn. rewrite H3. cbn.
  eexists. split; [reflexivity|]. cbn [fst]. rewrite length_insert. exact Hlen.
Qed.

Lemma buildProfile_short (s : string) :
  (length (bytes_of s) < 2)%nat -> buildProfile s = Some zero_profile.
Proof.
  intros H. unfold buildProfile.
  replace (length (bytes_of s) - 1)%nat with 0%nat by lia. reflexivity.
Qed.

Lemma length_bytes_of (s : string) : length (bytes_of s) = String.length s.
Proof.
  unfold bytes_of. rewrite length_map. induction s as [|c s IH]; [reflexivity|].
  cbn. f_equal. exact IH.
Qed.

End BuildProfile.

(** ** calculateSimilarity *)

Section Similarity.

Lemma min_sum_le_l (l1 l2 : list Z) :
  length l1 = length l2 -> Forall (fun c => 0 <= c) l2 -> min_sum l1 l2 <= sumZ l1.
Proof.
  unfold min_sum. revert l2. induction l1 as [|x l1 IH]; intros [|y l2] Hlen H2;
    cbn [length] in Hlen; try lia.
  - reflexivity.
  - cbn [zip_with]. rewrite !sumZ_cons. inversion H2; subst.
    specialize (IH l2 ltac:(lia) ltac:(assumption)). lia.
Qed.

Lemma min_sum_comm (l1 l2 : list Z) : min_sum l1 l2 = min_sum l2 l1.
Proof.
  unfold min_sum. revert l2. induction l1 as [|x l1 IH]; intros [|y l2]; try reflexivity.
  cbn [zip_with]. rewrite !sumZ_cons, IH, Z.min_comm. reflexivity.
Qed.

Lemma min_sum_self (l : list Z) : min_sum l l = sumZ l.
Proof.
  unfold min_sum. induction l as [|x l IH]; [reflexivity|].
  cbn [zip_with]. rewrite !sumZ_cons, IH, Z.min_id. reflexivity.
Qed.

Lemma min_sum_nonneg (l1 l2 : list Z) :
  Forall (fun c => 0 <= c) l1 -> Forall (fun c => 0 <= c) l2 -> 0 <= min_sum l1 l2.
Proof.
  unfold min_sum. intros H1. revert l2. induction H1 as [|x l1 Hx H1 IH]; intros l2 H2.
  - reflexivity.
  - destruct H2 as [|y l2 Hy H2]; [reflexivity|].
    cbn [zip_with]. rewrite sumZ_cons. specialize (IH l2 H2). lia.
Qed.

Lemma minsum_body_min (X Y : ProteinProfile) (acc : Z) (i : nat) :
  minsum_body X Y acc i = wrap64 (acc + Z.min (nth i (Profile X) 0) (nth i (Profile Y) 0)).
Proof.
  unfold minsum_body. destruct (Z.ltb_spec (nth i (Profile X) 0) (nth i (Profile Y) 0)).
  - rewrite Z.min_l by lia. reflexivity.
  - rewrite Z.min_r by lia. reflexivity.
Qed.

Lemma nth_lookup_Z (l : list Z) (i : nat) (x : Z) : l !! i = Some x -> nth i l 0 = x.
Proof. revert i. induction l as [|y l IH]; intros [|i] H; try discriminate; cbn in *; [congruence|auto]. Qed.

(** The loop of [calculateSimilarity] after [k] iterations: no
    wrap-around can occur on arrays of [uint32]. *)
Lemma sumMin_loop (X Y : ProteinProfile) (k : nat) :
  Forall (fun c => 0 <= c < 2 ^ 32) (Profile X) ->
  Forall (fun c => 0 <= c < 2 ^ 32) (Profile Y) ->
  (k <= length (Profile X))%nat -> (k <= length (Profile Y))%nat -> (k <= 676)%nat ->
  fold_left (minsum_body X Y) (seq 0 k) 0 = min_sum (take k (Profile X)) (take k (Profile Y)) /\
  0 <= min_sum (take k (Profile X)) (take k (Profile Y)) <= Z.of_nat k * (2 ^ 32 - 1).
Proof.
  intros HX HY. induction k as [|k IH]; intros H1 H2 H3.
  - rewrite !take_0. change (min_sum [] []) with 0. split; [reflexivity|lia].
  - destruct IH as [IH Hb]; [lia..|].
    destruct (lookup_lt_is_Some_2 (Profile X) k ltac:(lia)) as [x Hx].
    destruct (lookup_lt_is_Some_2 (Profile Y) k ltac:(lia)) as [y Hy].
    pose proof (Forall_lookup_1 _ _ _ _ HX Hx) as Rx. cbn in Rx.
    pose proof (Forall_lookup_1 _ _ _ _ HY Hy) as Ry. cbn in Ry.
    rewrite (take_S_r _ _ _ Hx), (take_S_r _ _ _ Hy).
    assert (E : min_sum (take k (Profile X) ++ [x]) (take k (Profile Y) ++ [y]) =
                min_sum (take k (Profile X)) (take k (Profile Y)) + Z.min x y).
    { unfold min_sum. rewrite zip_with_app by (rewrite !length_take; lia).
      rewrite sumZ_app. cbn [zip_with]. rewrite sumZ_cons. change (sumZ []) with 0. lia. }
    rewrite E. split; [|lia].
    rewrite seq_S, fold_left_app. cbn [fold_left Nat.add]. rewrite IH, minsum_body_min.
    rewrite (nth_lookup_Z _ _ _ Hx), (nth_lookup_Z _ _ _ Hy).
    apply wrap64_small. lia.
Qed.

Lemma sumMin_of_spec (X Y : ProteinProfile) :
  wf_profile X -> wf_profile Y -> sumMin_of X Y = min_sum (Profile X) (Profile Y).
Proof.
  intros (LX & HX & _) (LY & HY & _). unfold sumMin_of.
  destruct (sumMin_loop X Y 676 HX HY) as [E _]; [lia..|].
  rewrite E, !take_ge by lia. reflexivity.
Qed.

Lemma wf_nonneg (X : ProteinProfile) : wf_profile X -> Forall (fun c => 0 <= c) (Profile X).
Proof. intros (_ & H & _). eapply Forall_impl; [exact H|]. cbn. lia. Qed.

Lemma wf_inv_Sum_bound (X : ProteinProfile) :
  wf_profile X -> profile_inv X -> 0 <= Sum X <= 676 * (2 ^ 32 - 1).
Proof.
  intros (L & H & _) I. rewrite I. pose proof (sumZ_upper _ _ H) as B. rewrite L in B. lia.
Qed.

Lemma sumMin_bounds (X Y : ProteinProfile) :
  wf_profile X -> wf_profile Y -> profile_inv X -> profile_inv Y ->
  0 <= sumMin_of X Y <= Sum X /\ sumMin_of X Y <= Sum Y.
Proof.
  intros WX WY IX IY. rewrite sumMin_of_spec by assumption.
  pose proof (wf_nonneg X WX). pose proof (wf_nonneg Y WY).
  destruct WX as (LX & _), WY as (LY & _). rewrite IX, IY. repeat split.
  - apply min_sum_nonneg; assumption.
  - apply min_sum_le_l; [lia|assumption].
  - rewrite min_sum_comm. apply min_sum_le_l; [lia|assumption].
Qed.

Lemma sumMax_spec (X Y : ProteinProfile) :
  wf_profile X -> wf_profile Y -> profile_inv X -> profile_inv Y ->
  sumMax_of X Y = Sum X + Sum Y - sumMin_of X Y.
Proof.
  intros WX WY IX IY. unfold sumMax_of.
  pose proof (sumMin_bounds X Y WX WY IX IY).
  pose proof (wf_inv_Sum_bound X WX IX). pose proof (wf_inv_Sum_bound Y WY IY).
  rewrite (wrap64_small (Sum X + Sum Y)) by lia. apply wrap64_small. lia.
Qed.

Lemma similarity_self (X : ProteinProfile) :
  wf_profile X -> profile_inv X -> 0 < Sum X -> calculateSimilarity X X = one.
Proof.
  intros WX IX Hpos. unfold calculateSimilarity.
  rewrite sumMax_spec, sumMin_of_spec, min_sum_self, <- IX by assumption.
  replace (Sum X + Sum X - Sum X) with (Sum X) by lia.
  pose proof (wf_inv_Sum_bound X WX IX).
  destruct (Sum X) as [|p|p] eqn:E; try lia.
  destruct (of_uint64_pos p ltac:(lia)) as (m & e & -> & Hd & _ & He & _).
  apply div_self; assumption.
Qed.

Lemma similarity_bounds (X Y : ProteinProfile) :
  wf_profile X -> wf_profile Y -> profile_inv X -> profile_inv Y ->
  0 < Sum X ->
  le zero (calculateSimilarity X Y) = true /\ le (calculateSimilarity X Y) one = true.
Proof.
  intros WX WY IX IY PX. unfold calculateSimilarity.
  rewrite sumMax_spec by assumption.
  pose proof (sumMin_bounds X Y WX WY IX IY) as (B1 & B2).
  pose proof (wf_inv_Sum_bound X WX IX). pose proof (wf_inv_Sum_bound Y WY IY).
  set (a := sumMin_of X Y) in *. set (b := Sum X + Sum Y - a).
  assert (Hb : 0 < b < 2 ^ 53) by (subst b; lia).
  assert (Hab : a <= b) by (subst b; lia).
  destruct (Z.eq_dec a 0) as [->|Ha].
  - rewrite of_uint64_0. destruct b as [|pb|pb]; try lia.
    destruct (of_uint64_pos pb ltac:(lia)) as (m & e & -> & _). split; reflexivity.
  - destruct (div_of_uint64_le a b ltac:(lia) ltac:(lia)) as (m & e & -> & Hc).
    split; [apply le_zero_finite | apply le_finite_one; exact Hc].
Qed.

Lemma nth_all_zero (l : list Z) (i : nat) : Forall (fun c => c = 0) l -> nth i l 0 = 0.
Proof.
  intros H. revert i. induction H as [|x l Hx H IH]; intros [|i]; cbn; auto.
Qed.

Lemma sumMin_zero (X Y : ProteinProfile) :
  Forall (fun c => c = 0) (Profile X) -> Forall (fun c => c = 0) (Profile Y) ->
  sumMin_of X Y = 0.
Proof.
  intros HX HY. unfold sumMin_of. generalize (seq 0 676). intros l.
  induction l as [|i l IH]; [reflexivity|].
  cbn [fold_left]. unfold minsum_body at 2.
  rewrite (nth_all_zero _ i HX), (nth_all_zero _ i HY). cbn. exact IH.
Qed.

Lemma similarity_degenerate (X Y : ProteinProfile) :
  Sum X = 0 -> Sum Y = 0 ->
  Forall (fun c => c = 0) (Profile X) -> Forall (fun c => c = 0) (Profile Y) ->
  calculateSimilarity X Y = nan.
Proof.
  intros SX SY HX HY. unfold calculateSimilarity, sumMax_of.
  rewrite (sumMin_zero X Y HX HY), SX, SY. reflexivity.
Qed.

Lemma le_not_nan (x y : float64) : le x y = true -> is_nan y = false.
Proof. destruct x as [[]|[]| |[] mx ex], y as [[]|[]| |[] my ey]; try reflexivity; discriminate. Qed.

(** A query with at least one bigram has no NaN score. *)
Lemma no_nan_query (q : ProteinProfile) (profiles : list ProteinProfile) :
  wf_profile q -> profile_inv q -> 0 < Sum q ->
  Forall (fun p => wf_profile p /\ profile_inv p) profiles ->
  Forall (fun p => is_nan (calculateSimilarity q p) = false) profiles.
Proof.
  intros Wq Iq Pq Hall. eapply Forall_impl; [exact Hall|].
  intros p [Wp Ip]. cbn beta.
  apply (le_not_nan zero). apply (similarity_bounds q p); assumption.
Qed.

End Similarity.

(** ** container/heap *)

Local Open Scope nat_scope.

Section HeapFacts.
Context {A : Type}.
Variable less : A -> A -> bool.
Variable ok : A -> Prop.
Hypothesis less_asym : forall x y, less x y = true -> less y x = false.
Hypothesis less_negtrans : forall x y z, ok x -> ok y -> ok z ->
  less x y = false -> less y z = false -> less x z = false.

Local Abbreviation edge_ok := (edge_ok less).
Local Abbreviation heap_upto := (heap_upto less).
Local Abbreviation is_heap := (is_heap less).
Local Abbreviation up_inv := (up_inv less).
Local Abbreviation down_inv := (down_inv less).

Lemma less_irrefl (x : A) : less x x = false.
Proof. destruct (less x x) eqn:E; [|reflexivity]. pose proof (less_asym _ _ E). congruence. Qed.

Lemma less_le_trans (x y z : A) :
  ok x -> ok y -> ok z -> less x y = true -> less z y = false -> less x z = true.
Proof.
  intros Hx Hy Hz H1 H2. destruct (less x z) eqn:E; [reflexivity|].
  pose proof (less_negtrans x z y Hx Hz Hy E H2). congruence.
Qed.

Lemma less_trans (x y z : A) :
  ok x -> ok y -> ok z -> less x y = true -> less y z = true -> less x z = true.
Proof.
  intros Hx Hy Hz H1 H2. apply (less_le_trans x y z); auto.
Qed.

Lemma Swap_lookup (h : list A) (i j k : nat) (a b : A) :
  h !! i = Some a -> h !! j = Some b ->
  Swap h i j !! k =
    if decide (k = i) then Some b else if decide (k = j) then Some a else h !! k.
Proof.
  intros Hi Hj. unfold Swap. rewrite Hi, Hj.
  pose proof (lookup_lt_Some _ _ _ Hi). pose proof (lookup_lt_Some _ _ _ Hj).
  destruct (decide (k = i)) as [->|Hki].
  - apply list_lookup_insert_eq. rewrite length_insert. assumption.
  - rewrite list_lookup_insert_ne by congruence.
    destruct (decide (k = j)) as [->|Hkj].
    + apply list_lookup_insert_eq. assumption.
    + apply list_lookup_insert_ne. congruence.
Qed.

Lemma Swap_length (h : list A) (i j : nat) : length (Swap h i j) = length h.
Proof.
  unfold Swap. destruct (h !! i), (h !! j); try reflexivity.
  rewrite !length_insert. reflexivity.
Qed.

Lemma Swap_perm (h : list A) (i j : nat) : Swap h i j ≡ₚ h.
Proof.
  destruct (h !! i) as [a|] eqn:Hi; [destruct (h !! j) as [b|] eqn:Hj|];
    try (unfold Swap; rewrite Hi, ?Hj; reflexivity).
  apply Permutation_inj. split; [apply Swap_length|].
  exists (fun k => if decide (k = i) then j else if decide (k = j) then i else k). split.
  - intros k1 k2. repeat destruct (decide _); congruence.
  - intros k. rewrite (Swap_lookup h i j k a b Hi Hj).
    repeat destruct (decide _); subst; congruence.
Qed.

Lemma Swap_ok (h : list A) (i j : nat) : Forall ok h -> Forall ok (Swap h i j).
Proof. intros H. rewrite Swap_perm. exact H. Qed.

Lemma lookup_ok (h : list A) (k : nat) (x : A) : Forall ok h -> h !! k = Some x -> ok x.
Proof. intros H Hk. exact (Forall_lookup_1 _ _ _ _ H Hk). Qed.

Lemma Less_lookup (h : list A) (i j : nat) (a b : A) :
  h !! i = Some a -> h !! j = Some b -> Less less h i j = less a b.
Proof. intros Hi Hj. unfold Less. rewrite Hi, Hj. reflexivity. Qed.

(** *** up *)

Lemma up_length (fuel : nat) (h : list A) (j : nat) : length (up less fuel h j) = length h.
Proof.
  revert h j. induction fuel as [|fuel IH]; intros h j; cbn [up]; [reflexivity|].
  destruct (_ || _); [reflexivity|]. rewrite IH. apply Swap_length.
Qed.

Lemma up_perm (fuel : nat) (h : list A) (j : nat) : up less fuel h j ≡ₚ h.
Proof.
  revert h j. induction fuel as [|fuel IH]; intros h j; cbn [up]; [reflexivity|].
  destruct (_ || _); [reflexivity|]. rewrite IH. apply Swap_perm.
Qed.

Lemma up_inv_swap (h : list A) (j : nat) (a b : A) :
  Forall ok h -> up_inv h j -> parent j <> j ->
  h !! j = Some a -> h !! parent j = Some b -> less a b = true ->
  up_inv (Swap h (parent j) j) (parent j).
Proof.
  intros Hok [Hedges Hgrand] Hij Hj Hi Hlt.
  set (i := parent j) in *.
  assert (Hpi : parent i <> j) by (unfold i, parent in *; divlia).
  assert (oka : ok a) by (eapply lookup_ok; eassumption).
  assert (okb : ok b) by (eapply lookup_ok; eassumption).
  split.
  - intros k Hk x y. unfold edge_ok.
    rewrite !(Swap_lookup h i j _ b a Hi Hj).
    destruct (decide (k = i)) as [->|Hki]; [congruence|].
    destruct (decide (k = j)) as [->|Hkj].
    + fold i. destruct (decide (i = i)); [|congruence].
      intros [= <-] [= <-]. apply less_asym. exact Hlt.
    + destruct (decide (parent k = i)) as [Epi|Npi];
        [|destruct (decide (parent k = j)) as [Epj|Npj]].
      * intros Hx [= <-].
        assert (okx : ok x) by (eapply lookup_ok; eassumption).
        assert (Hxb : less x b = false).
        { apply (Hedges k Hkj x b Hx). rewrite Epi. exact Hi. }
        destruct (less x a) eqn:E; [|reflexivity].
        pose proof (less_trans x a b okx oka okb E Hlt). congruence.
      * intros Hx [= <-]. apply (Hgrand k x b Epj Hkj Hij Hx Hi).
      * intros Hx Hy. apply (Hedges k Hkj x y Hx Hy).
  - intros k x z Hpk Hki Hii.
    rewrite !(Swap_lookup h i j _ b a Hi Hj).
    destruct (decide (k = i)) as [->|_]; [congruence|].
    destruct (decide (parent i = i)) as [E0|_]; [congruence|].
    destruct (decide (parent i = j)) as [|_]; [congruence|].
    destruct (decide (k = j)) as [->|Hkj].
    + intros [= <-] Hz. apply (Hedges i ltac:(congruence) b z Hi Hz).
    + intros Hx Hz.
      assert (okx : ok x) by (eapply lookup_ok; eassumption).
      assert (okz : ok z) by (eapply lookup_ok; eassumption).
      apply (less_negtrans x b z okx okb okz).
      * apply (Hedges k Hkj x b Hx). rewrite Hpk. exact Hi.
      * apply (Hedges i ltac:(congruence) b z Hi Hz).
Qed.

Lemma up_heap (fuel : nat) (h : list A) (j : nat) :
  j < fuel -> j < length h -> Forall ok h -> up_inv h j ->
  is_heap (up less fuel h j).
Proof.
  revert h j. induction fuel as [|fuel IH]; intros h j Hfuel Hlen Hok Hinv; [lia|].
  cbn [up]. fold (parent j).
  destruct (lookup_lt_is_Some_2 h j Hlen) as [a Hj].
  destruct (lookup_lt_is_Some_2 h (parent j) ltac:(unfold parent; divlia)) as [b Hi].
  destruct (Nat.eqb_spec (parent j) j) as [E|NE]; cbn [orb].
  - intros k. destruct (decide (k = j)) as [->|Hk]; [|apply Hinv; exact Hk].
    intros x y Hx Hy. rewrite E in Hy. rewrite Hx in Hy. injection Hy as <-.
    apply less_irrefl.
  - rewrite (Less_lookup h j (parent j) a b Hj Hi).
    destruct (less a b) eqn:Hlt; cbn [negb].
    + apply IH.
      * unfold parent in *. divlia.
      * rewrite Swap_length. unfold parent. divlia.
      * apply Swap_ok. exact Hok.
      * apply (up_inv_swap h j a b); assumption.
    + intros k. destruct (decide (k = j)) as [->|Hk]; [|apply Hinv; exact Hk].
      intros x y Hx Hy. congruence.
Qed.

Lemma heap_Push_perm (h : list A) (x : A) : heap_Push less h x ≡ₚ x :: h.
Proof.
  unfold heap_Push. rewrite up_perm. symmetry. apply Permutation_cons_append.
Qed.

Lemma heap_Push_heap (h : list A) (x : A) :
  is_heap h -> Forall ok h -> ok x -> is_heap (heap_Push less h x).
Proof.
  intros Hh Hok Hx. unfold heap_Push. rewrite length_app. cbn [length].
  replace (length h + 1 - 1) with (length h) by lia.
  apply up_heap; [lia|rewrite length_app; cbn; lia| |].
  - apply Forall_app. split; [exact Hok|]. constructor; [exact Hx|constructor].
  - split.
    + intros k Hk a b Ha Hb.
      destruct (decide (k < length h)) as [Hlt|Hge].
      * rewrite lookup_app_l in Ha by lia.
        rewrite lookup_app_l in Hb by (unfold parent; divlia).
        apply (Hh k a b Ha Hb).
      * apply lookup_lt_Some in Ha. rewrite length_app in Ha. cbn in Ha. lia.
    + intros k a z Hpk Hk _ Ha _.
      apply lookup_lt_Some in Ha. rewrite length_app in Ha. cbn in Ha.
      unfold parent in Hpk. divlia.
Qed.

(** *** down *)

Lemma Swap_lookup_ne (h : list A) (i j k : nat) :
  k <> i -> k <> j -> Swap h i j !! k = h !! k.
Proof.
  intros Hi Hj. unfold Swap. destruct (h !! i), (h !! j); try reflexivity.
  rewrite !list_lookup_insert_ne by congruence. reflexivity.
Qed.

Lemma down_length (fuel : nat) (h : list A) (i n : nat) :
  length (down less fuel h i n) = length h.
Proof.
  revert h i. induction fuel as [|fuel IH]; intros h i; cbn [down]; [reflexivity|].
  destruct (n <=? _); [reflexivity|]. destruct (negb _); [reflexivity|].
  rewrite IH. apply Swap_length.
Qed.

Lemma down_perm (fuel : nat) (h : list A) (i n : nat) : down less fuel h i n ≡ₚ h.
Proof.
  revert h i. induction fuel as [|fuel IH]; intros h i; cbn [down]; [reflexivity|].
  destruct (n <=? _); [reflexivity|]. destruct (negb _); [reflexivity|].
  rewrite IH. apply Swap_perm.
Qed.

(** [down(h, i, n)] leaves the slice untouched from [n] on. *)
Lemma down_frame (fuel : nat) (h : list A) (i n k : nat) :
  n <= k -> down less fuel h i n !! k = h !! k.
Proof.
  intros Hk. revert h i. induction fuel as [|fuel IH]; intros h i; cbn [down]; [reflexivity|].
  destruct (Nat.leb_spec n (2 * i + 1)) as [|Hj1]; [reflexivity|].
  destruct (negb _); [reflexivity|]. rewrite IH.
  apply Swap_lookup_ne; [lia|].
  destruct (Nat.ltb_spec (2 * i + 1 + 1) n); cbn [andb]; [destruct (Less _ _ _ _)|]; lia.
Qed.

Lemma down_inv_leaf (h : list A) (i n : nat) :
  n <= 2 * i + 1 -> down_inv h i n -> heap_upto h n.
Proof.
  intros Hn [Hedges _] k Hk.
  destruct (decide (parent k = i)) as [E|NE]; [|apply Hedges; assumption].
  assert (k = 0) by (unfold parent in E; divlia). subst k.
  intros x y Hx Hy. change (parent 0) with 0 in Hy. rewrite Hx in Hy. injection Hy as <-.
  apply less_irrefl.
Qed.

(** The child that [down] selects precedes no other child of [i]. *)
Lemma down_child (h : list A) (i n : nat) :
  2 * i + 1 < n -> n <= length h -> Forall ok h ->
  let j := if (2 * i + 1 + 1 <? n) && Less less h (2 * i + 1 + 1) (2 * i + 1)
           then 2 * i + 1 + 1 else 2 * i + 1 in
  exists a, h !! j = Some a /\ j < n /\ parent j = i /\ i < j /\
    forall k x, k < n -> parent k = i -> k <> i -> h !! k = Some x -> less x a = false.
Proof.
  intros Hj1 Hlen Hok.
  destruct (lookup_lt_is_Some_2 h (2 * i + 1) ltac:(lia)) as [c1 H1].
  assert (ok1 : ok c1) by (eapply lookup_ok; eassumption).
  destruct (Nat.ltb_spec (2 * i + 1 + 1) n) as [Hj2|Hj2]; cbn [andb].
  - destruct (lookup_lt_is_Some_2 h (2 * i + 1 + 1) ltac:(lia)) as [c2 H2].
    rewrite (Less_lookup h _ _ c2 c1 H2 H1).
    destruct (less c2 c1) eqn:E; cbn zeta.
    + exists c2. repeat split; [exact H2|lia|unfold parent; divlia|lia|].
      intros k x Hk Hp Hki Hx.
      assert (k = 2 * i + 1 \/ k = 2 * i + 1 + 1) as [->| ->] by (unfold parent in Hp; divlia).
      * rewrite H1 in Hx. injection Hx as <-. apply less_asym. exact E.
      * rewrite H2 in Hx. injection Hx as <-. apply less_irrefl.
    + exists c1. repeat split; [exact H1|lia|unfold parent; divlia|lia|].
      intros k x Hk Hp Hki Hx.
      assert (k = 2 * i + 1 \/ k = 2 * i + 1 + 1) as [->| ->] by (unfold parent in Hp; divlia).
      * rewrite H1 in Hx. injection Hx as <-. apply less_irrefl.
      * rewrite H2 in Hx. injection Hx as <-. exact E.
  - exists c1. repeat split; [exact H1|lia|unfold parent; divlia|lia|].
    intros k x Hk Hp Hki Hx.
    assert (k = 2 * i + 1) as -> by (unfold parent in Hp; divlia).
    rewrite H1 in Hx. injection Hx as <-. apply less_irrefl.
Qed.

Lemma down_inv_stop (h : list A) (i n j : nat) (a p : A) :
  Forall ok h -> down_inv h i n ->
  h !! j = Some a -> h !! i = Some p -> less a p = false ->
  (forall k x, k < n -> parent k = i -> k <> i -> h !! k = Some x -> less x a = false) ->
  heap_upto h n.
Proof.
  intros Hok [Hedges _] Hj Hi Hap Hbest k Hk.
  destruct (decide (parent k = i)) as [E|NE]; [|apply Hedges; assumption].
  intros x y Hx Hy. rewrite E, Hi in Hy. injection Hy as <-.
  destruct (decide (k = i)) as [->|Hki].
  - rewrite Hi in Hx. injection Hx as <-. apply less_irrefl.
  - apply (less_negtrans x a p); try (eapply lookup_ok; eassumption); [|exact Hap].
    apply (Hbest k x Hk E Hki Hx).
Qed.

Lemma down_inv_swap (h : list A) (i n j : nat) (a p : A) :
  Forall ok h -> down_inv h i n ->
  h !! j = Some a -> h !! i = Some p -> less a p = true ->
  j < n -> parent j = i -> i < j ->
  (forall k x, k < n -> parent k = i -> k <> i -> h !! k = Some x -> less x a = false) ->
  down_inv (Swap h i j) j n.
Proof.
  intros Hok [Hedges Hgrand] Hj Hi Hap Hjn Hpj Hij Hbest. split.
  - intros k Hk Hpk x y. rewrite !(Swap_lookup h i j _ p a Hi Hj).
    destruct (decide (parent k = j)) as [|_]; [congruence|].
    destruct (decide (k = i)) as [->|Hki]; [|destruct (decide (k = j)) as [->|Hkj]].
    + intros [= <-]. destruct (decide (parent i = i)) as [E0|N0].
      * intros [= <-]. apply less_irrefl.
      * intros Hy. apply (Hgrand j a y Hjn Hpj ltac:(unfold parent in N0; divlia) Hj Hy).
    + intros [= <-]. destruct (decide (parent j = i)); [|congruence].
      intros [= <-]. apply less_asym. exact Hap.
    + destruct (decide (parent k = i)) as [Epi|Npi].
      * intros Hx [= <-]. apply (Hbest k x Hk Epi Hki Hx).
      * intros Hx Hy. apply (Hedges k Hk Npi x y Hx Hy).
  - intros k x z Hk Hpk Hj0. rewrite !(Swap_lookup h i j _ p a Hi Hj).
    destruct (decide (k = i)) as [->|Hki]; [unfold parent in Hpk; divlia|].
    destruct (decide (k = j)) as [->|Hkj]; [unfold parent in Hpk; divlia|].
    destruct (decide (parent j = i)); [|congruence].
    intros Hx [= <-]. apply (Hedges k Hk ltac:(lia) x a Hx). rewrite Hpk. exact Hj.
Qed.

Lemma down_heap (fuel : nat) (h : list A) (i n : nat) :
  n <= fuel + i -> n <= length h -> Forall ok h -> down_inv h i n ->
  heap_upto (down less fuel h i n) n.
Proof.
  revert h i. induction fuel as [|fuel IH]; intros h i Hfuel Hlen Hok Hinv; cbn [down].
  - apply (down_inv_leaf h i n); [lia|exact Hinv].
  - destruct (Nat.leb_spec n (2 * i + 1)) as [Hleaf|Hj1].
    + apply (down_inv_leaf h i n); assumption.
    + pose proof (down_child h i n Hj1 Hlen Hok) as Hc. cbv zeta in Hc.
      match type of Hc with
      | exists a, h !! ?c = Some a /\ _ => set (j := c) in *
      end.
      destruct Hc as (a & Hj & Hjn & Hpj & Hij & Hbest).
      destruct (lookup_lt_is_Some_2 h i ltac:(lia)) as [p Hi].
      rewrite (Less_lookup h j i a p Hj Hi).
      destruct (less a p) eqn:Hap; cbn [negb].
      * apply IH; [lia|rewrite Swap_length; exact Hlen|apply Swap_ok; exact Hok|].
        apply (down_inv_swap h i n j a p); assumption.
      * apply (down_inv_stop h i n j a p); assumption.
Qed.

(** *** The root of a heap *)

Lemma heap_root_top (h : list A) (r : A) :
  is_heap h -> Forall ok h -> h !! 0 = Some r ->
  forall k y, h !! k = Some y -> less y r = false.
Proof.
  intros Hh Hok Hr k. induction k as [k IH] using lt_wf_ind. intros y Hy.
  destruct (decide (k = 0)) as [->|Hk].
  - rewrite Hr in Hy. injection Hy as <-. apply less_irrefl.
  - destruct (lookup_lt_is_Some_2 h (parent k)) as [z Hz].
    { apply lookup_lt_Some in Hy. unfold parent. divlia. }
    apply (less_negtrans y z r); try (eapply lookup_ok; eassumption).
    + apply (Hh k y z Hy Hz).
    + apply (IH (parent k) ltac:(unfold parent; divlia) z Hz).
Qed.

(** *** heap.Pop *)

Lemma heap_Pop_spec (h : list A) :
  is_heap h -> Forall ok h -> h <> [] ->
  exists r h',
    heap_Pop less h = Some (r, h') /\
    is_heap h' /\ h ≡ₚ r :: h' /\
    forall y, y ∈ h -> less y r = false.
Proof.
  intros Hh Hok Hne. unfold heap_Pop.
  destruct (length h) as [|n] eqn:Hlen; [destruct h; [congruence|discriminate]|].
  destruct (lookup_lt_is_Some_2 h 0 ltac:(lia)) as [r Hr].
  destruct (lookup_lt_is_Some_2 h n ltac:(lia)) as [b Hb].
  set (h1 := Swap h 0 n). set (h2 := down less n h1 0 n).
  assert (H2n : h2 !! n = Some r).
  { unfold h2. rewrite down_frame by lia. unfold h1.
    rewrite (Swap_lookup h 0 n n r b Hr Hb).
    destruct (decide (n = 0)) as [->|_]; [congruence|].
    destruct (decide (n = n)); congruence. }
  assert (Hlen2 : length h2 = S n).
  { unfold h2, h1. rewrite down_length, Swap_length. exact Hlen. }
  assert (Hsplit : h2 = take n h2 ++ [r]).
  { rewrite <- (take_S_r h2 n r H2n). symmetry. apply take_ge. lia. }
  exists r, (take n h2). rewrite H2n. cbn. split; [reflexivity|]. split; [|split].
  - assert (Hup : heap_upto h2 n).
    { apply down_heap; [lia|unfold h1; rewrite Swap_length; lia|apply Swap_ok; exact Hok|].
      split.
      - intros k Hk Hpk x y. unfold h1.
        rewrite !Swap_lookup_ne by (unfold parent in *; divlia). apply Hh.
      - intros; lia. }
    intros k x y Hx Hy.
    destruct (decide (k < n)) as [Hk|Hk].
    + rewrite lookup_take_lt in Hx by lia.
      rewrite lookup_take_lt in Hy by (unfold parent; divlia).
      apply (Hup k Hk x y Hx Hy).
    + rewrite lookup_take_ge in Hx by lia. discriminate.
  - transitivity h2.
    + unfold h2, h1. rewrite down_perm, Swap_perm. reflexivity.
    + rewrite Hsplit at 1. symmetry. apply Permutation_cons_append.
  - intros y Hy. apply list_elem_of_lookup_1 in Hy as [k Hk].
    apply (heap_root_top h r Hh Hok Hr k y Hk).
Qed.

Lemma is_heap_nil : is_heap [].
Proof. intros k x y Hx. rewrite lookup_nil in Hx. discriminate. Qed.

End HeapFacts.

Local Open Scope Z_scope.

(** ** findTop100Similar *)

Section Bounded.
Context {A : Type}.
Variable less : A -> A -> bool.
Variable ok : A -> Prop.
Hypothesis less_asym : forall x y, less x y = true -> less y x = false.
Hypothesis less_negtrans : forall x y z, ok x -> ok y -> ok z ->
  less x y = false -> less y z = false -> less x z = false.

Local Abbreviation keep_inv := (keep_inv less ok).

Lemma keep_inv_nil (K : Z) : 0 <= K -> keep_inv K [] [].
Proof.
  intros HK. repeat split; try constructor.
  - apply is_heap_nil.
  - intros x d Hx. inversion Hx.
  - cbn. lia.
Qed.

(** One round of the selection loop: push, then pop when the heap
    exceeds [K]. *)
Lemma keep_inv_step (K : Z) (h D : list A) (x : A) :
  0 <= K -> keep_inv K h D -> ok x ->
  exists h' D',
    (if K <? Z.of_nat (length (heap_Push less h x))
     then snd <$> heap_Pop less (heap_Push less h x)
     else Some (heap_Push less h x)) = Some h' /\
    keep_inv K h' D' /\ h' ++ D' ≡ₚ x :: h ++ D.
Proof.
  intros HK (Hh & Hokh & HokD & Hord & Hlen) Hx.
  pose proof (heap_Push_perm less h x) as Hperm.
  pose proof (heap_Push_heap less ok less_asym less_negtrans h x Hh Hokh Hx) as Hheap.
  set (h1 := heap_Push less h x) in *.
  assert (Hok1 : Forall ok h1) by (rewrite Hperm; constructor; assumption).
  assert (Hlen1 : length h1 = S (length h)) by (rewrite Hperm; reflexivity).
  destruct (Z.ltb_spec K (Z.of_nat (length h1))) as [Hfull|Hroom].
  - destruct (heap_Pop_spec less ok less_asym less_negtrans h1 Hheap Hok1)
      as (r & h' & -> & Hheap' & Hperm' & Htop).
    { intros E. rewrite E in Hlen1. discriminate. }
    assert (Hlen' : length h' = length h).
    { apply Permutation_length in Hperm'. cbn in Hperm'. lia. }
    assert (Hok' : Forall ok (r :: h')) by (rewrite <- Hperm'; exact Hok1).
    apply Forall_cons in Hok' as [Hr Hok'].
    exists h', (r :: D). split; [reflexivity|]. split.
    + split; [exact Hheap'|]. split; [exact Hok'|]. split; [constructor; assumption|]. split.
      * intros y d Hy Hd.
        assert (Hy1 : y ∈ h1) by (rewrite Hperm'; right; exact Hy).
        apply elem_of_cons in Hd as [->|Hd]; [apply Htop; exact Hy1|].
        assert (Hr1 : r ∈ x :: h) by (rewrite <- Hperm, Hperm'; left).
        apply elem_of_cons in Hr1 as [->|Hrh].
        -- assert (h' ≡ₚ h).
           { apply (Permutation_cons_inv (a := x)). rewrite <- Hperm', Hperm. reflexivity. }
           apply Hord; [|exact Hd]. rewrite <- H. exact Hy.
        -- apply (less_negtrans y r d).
           ++ exact (proj1 (Forall_forall _ _) Hok' y Hy).
           ++ exact Hr.
           ++ exact (proj1 (Forall_forall _ _) HokD d Hd).
           ++ apply Htop. exact Hy1.
           ++ apply Hord; assumption.
      * cbn [length]. lia.
    + rewrite <- Permutation_middle, !app_comm_cons. apply Permutation_app_tail.
      rewrite <- Hperm', Hperm. reflexivity.
  - exists h1, D. split; [reflexivity|]. split.
    + split; [exact Hheap|]. split; [exact Hok1|]. split; [exact HokD|]. split.
      * intros y d Hy Hd. assert (length D = 0%nat) by lia.
        destruct D; [inversion Hd|discriminate].
      * lia.
    + rewrite app_comm_cons. apply Permutation_app_tail. exact Hperm.
Qed.

End Bounded.

Section TopK.

Lemma MaxHeap_less_asym (x y : ProteinSimilarity) :
  MaxHeap_less x y = true -> MaxHeap_less y x = false.
Proof. apply gt_asym. Qed.

Lemma MaxHeap_less_negtrans (x y z : ProteinSimilarity) :
  score_ok x -> score_ok y -> score_ok z ->
  MaxHeap_less x y = false -> MaxHeap_less y z = false -> MaxHeap_less x z = false.
Proof. apply gt_negtrans. Qed.

Lemma negated_stored (q : ProteinProfile) (profiles : list ProteinProfile) (names : list string) :
  map negated (stored q profiles names) = scored q profiles names.
Proof.
  unfold stored, scored. revert names.
  induction profiles as [|p ps IH]; intros [|nm names]; try reflexivity.
  cbn [zip_with map]. rewrite IH. unfold negated. cbn [similarity name].
  rewrite neg_involutive. reflexivity.
Qed.

Lemma stored_length (q : ProteinProfile) (profiles : list ProteinProfile) (names : list string) :
  (length profiles <= length names)%nat ->
  length (stored q profiles names) = length profiles.
Proof. intros H. unfold stored. rewrite length_zip_with. lia. Qed.

Lemma top_loop_spec (q : ProteinProfile) (names : list string) (K : Z) :
  0 <= K ->
  forall (profiles : list ProteinProfile) (i : nat) (h D : MaxHeap),
    keep_inv MaxHeap_less score_ok K h D ->
    (length profiles + i <= length names)%nat ->
    no_nan q profiles ->
    exists h' D',
      top_loop q profiles names i K h = Some h' /\
      keep_inv MaxHeap_less score_ok K h' D' /\
      h' ++ D' ≡ₚ stored q profiles (drop i names) ++ h ++ D.
Proof.
  intros HK. induction profiles as [|p ps IH]; intros i h D Hinv Hlen Hnan.
  - exists h, D. split; [reflexivity|]. split; [exact Hinv|reflexivity].
  - cbn [length] in Hlen. apply Forall_cons in Hnan as [Hp Hps].
    destruct (lookup_lt_is_Some_2 names i ltac:(lia)) as [nm Hnm].
    cbn [top_loop]. rewrite Hnm. cbn [mbind option_bind].
    set (item := mkSimilarity (neg (calculateSimilarity q p)) nm).
    assert (Hitem : score_ok item).
    { unfold score_ok, item. cbn [similarity]. rewrite is_nan_neg. exact Hp. }
    destruct (keep_inv_step MaxHeap_less score_ok MaxHeap_less_asym MaxHeap_less_negtrans
                K h D item HK Hinv Hitem) as (h1 & D1 & Hstep & Hinv1 & Hperm1).
    destruct (IH (S i) h1 D1 Hinv1 ltac:(lia) Hps) as (h' & D' & Hrun & Hinv' & Hperm').
    exists h', D'. split; [rewrite Hstep; exact Hrun|]. split; [exact Hinv'|].
    rewrite Hperm', Hperm1, (drop_S names nm i Hnm). unfold stored. cbn [zip_with].
    fold item. symmetry. apply Permutation_middle.
Qed.

Lemma drain_spec (h : MaxHeap) (acc : list ProteinSimilarity) :
  is_heap MaxHeap_less h -> Forall score_ok h ->
  exists L, L ≡ₚ h /\
    StronglySorted (fun a b => MaxHeap_less b a = false) L /\
    drain (length h) h acc = Some (acc ++ map negated L).
Proof.
  remember (length h) as n eqn:Hn. revert h acc Hn.
  induction n as [|n IH]; intros h acc Hn Hh Hok.
  - destruct h; [|discriminate]. exists []. repeat split; try constructor.
    cbn. rewrite app_nil_r. reflexivity.
  - destruct (heap_Pop_spec MaxHeap_less score_ok MaxHeap_less_asym MaxHeap_less_negtrans h Hh Hok)
      as (r & h' & Hpop & Hheap' & Hperm' & Htop).
    { intros ->. discriminate. }
    assert (Hok' : Forall score_ok (r :: h')) by (rewrite <- Hperm'; exact Hok).
    apply Forall_cons in Hok' as [Hr Hok'].
    destruct (IH h' (acc ++ [negated r])) as (L & HL & Hsorted & Hrun); [|assumption..|].
    { apply Permutation_length in Hperm'. cbn in Hperm'. lia. }
    exists (r :: L). split; [rewrite Hperm', HL; reflexivity|]. split.
    + constructor; [exact Hsorted|]. apply Forall_forall. intros y Hy.
      apply Htop. rewrite Hperm'. right. rewrite <- HL. exact Hy.
    + cbn [drain]. rewrite <- Hn. cbn [Nat.ltb Nat.leb]. rewrite Hpop, Hrun.
      rewrite <- app_assoc. reflexivity.
Qed.

Lemma le_of_not_less (a b : ProteinSimilarity) :
  score_ok a -> score_ok b -> MaxHeap_less b a = false ->
  le (similarity (negated a)) (similarity (negated b)) = true.
Proof.
  unfold score_ok, MaxHeap_less, negated. cbn [similarity]. intros Ha Hb H.
  apply not_gt_le; rewrite ?is_nan_neg; try assumption.
  rewrite gt_neg. exact H.
Qed.

(** [findTop100Similar] on a table without NaN scores. *)
Lemma findTop100Similar_spec (sequence : string) (q : ProteinProfile)
  (profiles : list ProteinProfile) (names : list string) (K : Z) :
  buildProfile sequence = Some q -> 0 <= K ->
  (length profiles <= length names)%nat -> no_nan q profiles ->
  exists R D,
    findTop100Similar sequence profiles names K = Some R /\
    Z.of_nat (length R) = Z.min K (Z.of_nat (length profiles)) /\
    sorted_asc R /\
    R ++ D ≡ₚ scored q profiles names /\
    (forall r d, r ∈ R -> d ∈ D -> le (similarity d) (similarity r) = true).
Proof.
  intros Hq HK Hlen Hnan. unfold findTop100Similar. rewrite Hq. cbn [mbind option_bind].
  change (heap_Init MaxHeap_less []) with (@nil ProteinSimilarity).
  destruct (top_loop_spec q names K HK profiles 0 [] [] (keep_inv_nil _ _ K HK)
              ltac:(lia) Hnan) as (h & D & -> & Hinv & Hperm).
  cbn [mbind option_bind]. rewrite drop_0, app_nil_r in Hperm.
  destruct Hinv as (Hh & Hokh & HokD & Hord & Hlenh).
  destruct (drain_spec h [] Hh Hokh) as (L & HL & Hsorted & ->).
  exists (map negated L), (map negated D). cbn [app].
  assert (Htot : (length h + length D)%nat = length profiles).
  { rewrite <- length_app, Hperm. apply stored_length. exact Hlen. }
  assert (HokL : Forall score_ok L) by (rewrite HL; exact Hokh).
  split; [reflexivity|]. split; [|split; [|split]].
  - rewrite length_map, HL, Hlenh, Htot. reflexivity.
  - unfold sorted_asc. clear HL. induction Hsorted as [|a L HS IH Hall]; [constructor|].
    apply Forall_cons in HokL as [Ha HokL].
    cbn [map]. constructor; [apply IH; exact HokL|].
    apply Forall_forall. intros b' Hb'. apply list_elem_of_In, in_map_iff in Hb' as (b & <- & Hb).
    apply list_elem_of_In in Hb.
    apply le_of_not_less; [exact Ha|exact (proj1 (Forall_forall _ _) HokL b Hb)|].
    exact (proj1 (Forall_forall _ _) Hall b Hb).
  - rewrite <- map_app, HL, Hperm. rewrite negated_stored. reflexivity.
  - intros r d Hr Hd.
    apply list_elem_of_In, in_map_iff in Hr as (x & <- & Hx).
    apply list_elem_of_In, in_map_iff in Hd as (y & <- & Hy).
    apply list_elem_of_In in Hx, Hy. rewrite HL in Hx.
    apply le_of_not_less.
    + exact (proj1 (Forall_forall _ _) HokD y Hy).
    + exact (proj1 (Forall_forall _ _) Hokh x Hx).
    + apply Hord; assumption.
Qed.

End TopK.

(** ** buildProfilesParallel *)

Local Open Scope nat_scope.

Module ParFacts.
Import Par ParSpec.

Section Facts.
Variable sequences : list string.
Variable maxGoroutines : Z.

Lemma sum_map_cons (f : gphase -> nat) (z : gphase) (l : list gphase) :
  sum_list_with f (z :: l) = f z + sum_list_with f l.
Proof. reflexivity. Qed.

Lemma sum_map_insert (f : gphase -> nat) (l : list gphase) (i : nat) (x y : gphase) :
  l !! i = Some x ->
  sum_list_with f (<[i:=y]> l) + f x = sum_list_with f l + f y.
Proof.
  revert i. induction l as [|z l IH]; intros [|i] H; try discriminate.
  - injection H as ->. change (<[0:=y]> (x :: l)) with (y :: l).
    rewrite !sum_map_cons. lia.
  - change (l !! i = Some x) in H.
    change (<[S i:=y]> (z :: l)) with (z :: <[i:=y]> l).
    rewrite !sum_map_cons. specialize (IH i H). lia.
Qed.

Lemma sum_map_snoc (f : gphase -> nat) (l : list gphase) (x : gphase) :
  sum_list_with f (l ++ [x]) = sum_list_with f l + f x.
Proof. rewrite sum_list_with_app. cbn. lia. Qed.

Lemma sum_map_lookup_le (f : gphase -> nat) (l : list gphase) (i : nat) (x : gphase) :
  l !! i = Some x -> f x <= sum_list_with f l.
Proof. intros H. apply sum_list_with_in. apply (list_elem_of_lookup_2 _ _ _ H). Qed.

(** With the counter at 0 every goroutine has run its [wg.Done()]. *)
Lemma sum_live_0 (l : list gphase) (i : nat) (ph : gphase) :
  sum_list_with live l = 0 -> l !! i = Some ph -> ph = GExit \/ ph = GCrash.
Proof.
  intros Hs H. pose proof (sum_map_lookup_le live l i ph H) as Hle.
  destruct ph; cbn [live] in Hle; try lia; auto.
Qed.

Lemma loop_head_lt (n : nat) :
  n < length sequences -> loop_head sequences n = MAdd.
Proof. intros H. unfold loop_head. destruct (Nat.ltb_spec n (length sequences)); [reflexivity|lia]. Qed.

Lemma loop_head_ge (n : nat) :
  length sequences <= n -> loop_head sequences n = MWait.
Proof. intros H. unfold loop_head. destruct (Nat.ltb_spec n (length sequences)); [lia|reflexivity]. Qed.

Lemma loop_head_not_returned (n : nat) : loop_head sequences n <> MReturned.
Proof. unfold loop_head. destruct (_ <? _); discriminate. Qed.

Lemma inv_init : inv sequences (init sequences).
Proof.
  assert (Hw : forall m, written sequences
                 (mkP m [] 0 0 (replicate (length sequences) zero_profile)))
    by (intros m i ph Hi; discriminate).
  assert (Hf : forall m, fresh sequences
                 (mkP m [] 0 0 (replicate (length sequences) zero_profile))).
  { intros m i Hi. cbn [out]. apply lookup_replicate_2. lia. }
  unfold init. destruct (Nat.ltb_spec 0 (length sequences)) as [H|H].
  - rewrite (loop_head_lt 0 H).
    split; cbn [main gs sem wg out length]; try exact H; try reflexivity; try discriminate;
      try apply Hw; try apply Hf; apply length_replicate.
  - rewrite (loop_head_ge 0 H).
    split; cbn [main gs sem wg out length]; try lia; try reflexivity; try discriminate;
      try apply Hw; try apply Hf; apply length_replicate.
Qed.

(** The slot of a goroutine depends on its own entry of [profiles]
    only. *)
Lemma slot_frame (st st' : pstate) (i : nat) (ph : gphase) :
  out st' !! i = out st !! i -> slot sequences st i ph -> slot sequences st' i ph.
Proof. intros E. destruct ph; unfold slot; rewrite E; exact (fun H => H). Qed.

Lemma written_insert (st : pstate) (i : nat) (ph' : gphase) (m : mphase) (a b : nat) :
  written sequences st -> slot sequences st i ph' ->
  written sequences (mkP m (<[i:=ph']> (gs st)) a b (out st)).
Proof.
  intros Hw Hi j q Hj. cbn [gs] in Hj.
  apply list_lookup_insert_Some in Hj as [(<- & <- & _)|[_ Hj]].
  - apply (slot_frame st); [reflexivity|exact Hi].
  - apply (slot_frame st); [reflexivity|]. apply (Hw j q Hj).
Qed.

Lemma fresh_insert (st : pstate) (i : nat) (ph' : gphase) (m : mphase) (a b : nat) :
  fresh sequences st -> fresh sequences (mkP m (<[i:=ph']> (gs st)) a b (out st)).
Proof. intros Hf j Hj. cbn [gs out] in *. rewrite length_insert in Hj. apply (Hf j Hj). Qed.

Lemma inv_step (st st' : pstate) :
  inv sequences st -> step sequences maxGoroutines st (Run st') -> inv sequences st'.
Proof.
  intros [Hout Hnext Hwg Hsem Hwr Hfr Hret] Hstep.
  inversion Hstep as [st0 Hm|st0 Hm Hlt|st0 Hm|st0 Hm Hw0|st0 i s p Hi Hs Hp|
                      st0 i s Hi Hs Hp|st0 i n Hi Hn|st0 i n Hi Hn| |st0 i n Hi Hn| | ];
    subst; clear Hstep.
  - rewrite Hm in *. split; cbn [main gs sem wg out pending sending] in *;
      try assumption; try lia; try discriminate.
  - rewrite Hm in *. split; cbn [main gs sem wg out pending sending] in *;
      try assumption; try lia; try discriminate.
  - rewrite Hm in *. cbn [pending sending] in *.
    assert (Hw' : forall m, written sequences
              (mkP m (gs st ++ [GRun]) (sem st) (wg st) (out st))).
    { intros m j q Hj. cbn [gs] in Hj.
      apply lookup_app_Some in Hj as [Hj|[Hge Hj]].
      - apply (slot_frame st); [reflexivity|]. apply (Hwr j q Hj).
      - apply list_lookup_singleton_Some in Hj as [Hj <-].
        replace j with (length (gs st)) by lia. cbn [slot out].
        apply Hfr. lia. }
    assert (Hf' : forall m, fresh sequences
              (mkP m (gs st ++ [GRun]) (sem st) (wg st) (out st))).
    { intros m j Hj. cbn [gs out] in *. rewrite length_app in Hj. cbn [length] in Hj.
      apply Hfr. lia. }
    destruct (Nat.ltb_spec (S (length (gs st))) (length sequences)) as [H|H].
    + rewrite (loop_head_lt _ H) in *.
      split; cbn [main gs sem wg out pending sending]; try apply Hw'; try apply Hf';
        try assumption;
        rewrite ?length_app, ?sum_map_snoc; cbn [length live holding]; try lia; try discriminate.
    + rewrite (loop_head_ge _ H) in *.
      split; cbn [main gs sem wg out pending sending]; try apply Hw'; try apply Hf';
        try assumption;
        rewrite ?length_app, ?sum_map_snoc; cbn [length live holding]; try lia; try discriminate.
  - rewrite Hm in *. split; cbn [main gs sem wg out pending sending] in *;
      try assumption; try lia; try discriminate.
  - pose proof (sum_map_insert live (gs st) i GRun GRelease Hi) as E1.
    pose proof (sum_map_insert holding (gs st) i GRun GRelease Hi) as E2.
    cbn [live holding] in E1, E2.
    pose proof (lookup_lt_Some _ _ _ Hi) as Hlt.
    split; cbn [main gs sem wg out]; rewrite ?length_insert; try assumption; try lia.
    + intros j q Hj. cbn [gs] in Hj.
      apply list_lookup_insert_Some in Hj as [(<- & <- & _)|[Hji Hj]].
      * exists s, p. repeat split; try assumption. cbn [out].
        apply list_lookup_insert_eq. rewrite Hout. apply (lookup_lt_Some _ _ _ Hs).
      * apply (slot_frame st); [|apply (Hwr j q Hj)].
        cbn [out]. apply list_lookup_insert_ne. exact Hji.
    + intros j Hj. cbn [gs out] in *. rewrite length_insert in Hj.
      rewrite list_lookup_insert_ne by lia. apply (Hfr j Hj).
  - pose proof (sum_map_insert live (gs st) i GRun GUnwind Hi) as E1.
    pose proof (sum_map_insert holding (gs st) i GRun GUnwind Hi) as E2.
    cbn [live holding] in E1, E2.
    split; cbn [main gs sem wg out]; rewrite ?length_insert; try assumption; try lia.
    + apply written_insert; [exact Hwr|].
      exists s. repeat split; try assumption. apply (Hwr i GRun Hi).
    + apply fresh_insert. exact Hfr.
  - pose proof (sum_map_insert live (gs st) i GRelease GDone Hi) as E1.
    pose proof (sum_map_insert holding (gs st) i GRelease GDone Hi) as E2.
    cbn [live holding] in E1, E2.
    split; cbn [main gs sem wg out]; rewrite ?length_insert; try assumption; try lia.
    + apply written_insert; [exact Hwr|apply (Hwr i GRelease Hi)].
    + apply fresh_insert. exact Hfr.
  - pose proof (sum_map_insert live (gs st) i GDone GExit Hi) as E1.
    pose proof (sum_map_insert holding (gs st) i GDone GExit Hi) as E2.
    cbn [live holding] in E1, E2.
    split; cbn [main gs sem wg out]; rewrite ?length_insert; try assumption; try lia.
    + apply written_insert; [exact Hwr|apply (Hwr i GDone Hi)].
    + apply fresh_insert. exact Hfr.
  - pose proof (sum_map_insert live (gs st) i GUnwind GCrash Hi) as E1.
    pose proof (sum_map_insert holding (gs st) i GUnwind GCrash Hi) as E2.
    cbn [live holding] in E1, E2.
    split; cbn [main gs sem wg out]; rewrite ?length_insert; try assumption; try lia.
    + apply written_insert; [exact Hwr|apply (Hwr i GUnwind Hi)].
    + apply fresh_insert. exact Hfr.
Qed.

Lemma reach_inv (st : pstate) : reach sequences maxGoroutines st -> inv sequences st.
Proof.
  induction 1 as [|st st' _ IH Hstep]; [apply inv_init|].
  apply (inv_step st st' IH Hstep).
Qed.

Lemma mapM_buildProfile_None (i : nat) (s : string) :
  sequences !! i = Some s -> buildProfile s = None ->
  mapM buildProfile sequences = None.
Proof.
  intros Hs Hp. destruct (mapM buildProfile sequences) as [ps|] eqn:E; [|reflexivity].
  apply mapM_Some in E.
  destruct (Forall2_lookup_l _ _ _ _ _ E Hs) as (p & _ & Hp'). congruence.
Qed.

(** A returned slice holds, for every sequence, the profile that
    [buildProfile] returns, and the zero profile where it panics. *)
Lemma inv_returned_slots (st : pstate) :
  inv sequences st -> main st = MReturned ->
  forall i s, sequences !! i = Some s -> out st !! i = Some (slot_of s).
Proof.
  intros [Hout Hnext Hwg Hsem Hwr Hfr Hret] Hm i s Hs. specialize (Hret Hm).
  rewrite Hm in *. cbn [pending] in *.
  destruct (lookup_lt_is_Some_2 (gs st) i) as [ph Hph].
  { rewrite Hnext. apply (lookup_lt_Some _ _ _ Hs). }
  pose proof (Hwr i ph Hph) as Hslot. unfold slot_of.
  destruct (sum_live_0 (gs st) i ph ltac:(lia) Hph) as [-> | ->]; cbn [slot] in Hslot.
  - destruct Hslot as (s' & p' & Hs' & Hb & Ho).
    assert (s' = s) by congruence. subst s'. rewrite Hb. exact Ho.
  - destruct Hslot as (s' & Hs' & Hb & Ho).
    assert (s' = s) by congruence. subst s'. rewrite Hb. exact Ho.
Qed.

(** When [buildProfile] returns on every sequence, a returned slice is
    the sequential map. *)
Lemma inv_returned_out (st : pstate) (ps : list ProteinProfile) :
  inv sequences st -> main st = MReturned ->
  mapM buildProfile sequences = Some ps -> out st = ps.
Proof.
  intros Hinv Hm Hps. pose proof (inv_returned_slots st Hinv Hm) as Hsl.
  apply mapM_Some in Hps. apply list_eq. intros i.
  destruct (sequences !! i) as [s|] eqn:Hs.
  - rewrite (Hsl i s Hs).
    destruct (Forall2_lookup_l _ _ _ _ _ Hps Hs) as (p & -> & Hp).
    unfold slot_of. rewrite Hp. reflexivity.
  - apply lookup_ge_None in Hs.
    rewrite (lookup_ge_None_2 (out st)) by (rewrite (inv_out _ _ Hinv); exact Hs).
    rewrite (lookup_ge_None_2 ps); [reflexivity|].
    rewrite <- (Forall2_length _ _ _ Hps). exact Hs.
Qed.

(** The process dies only by the panic of a [buildProfile]. *)
Lemma inv_panic (st : pstate) :
  inv sequences st -> step sequences maxGoroutines st Panic ->
  exists i s, gs st !! i = Some GCrash /\ sequences !! i = Some s /\ buildProfile s = None.
Proof.
  intros [Hout Hnext Hwg Hsem Hwr Hfr Hret] Hstep.
  inversion Hstep as [| | | | | | | |st0 i Hi Hw0| |st0 i Hi Hw0|st0 i Hi]; subst.
  - pose proof (sum_map_lookup_le live (gs st) i GDone Hi) as E1. cbn [live] in E1. lia.
  - pose proof (sum_map_lookup_le live (gs st) i GUnwind Hi) as E1. cbn [live] in E1. lia.
  - destruct (Hwr i GCrash Hi) as (s & Hs & Hb & _). exists i, s. repeat split; assumption.
Qed.

Lemma inv_panic_mapM (st : pstate) :
  inv sequences st -> step sequences maxGoroutines st Panic ->
  mapM buildProfile sequences = None.
Proof.
  intros Hinv Hstep. destruct (inv_panic st Hinv Hstep) as (i & s & _ & Hs & Hb).
  apply (mapM_buildProfile_None i s Hs Hb).
Qed.

(** *** The schedule *)

Lemma first_live_Some (l : list gphase) (k i : nat) (ph : gphase) :
  first_live k l = Some (i, ph) ->
  exists j, i = k + j /\ l !! j = Some ph /\ ph <> GExit.
Proof.
  revert k. induction l as [|x l IH]; intros k H; [discriminate|].
  destruct x; cbn [first_live] in H;
    try (injection H as <- <-; exists 0; split; [lia|split; [reflexivity|discriminate]]).
  destruct (IH (S k) H) as (j & -> & Hj & Hph).
  exists (S j). split; [lia|]. split; assumption.
Qed.

Lemma first_live_None (l : list gphase) (k : nat) :
  first_live k l = None -> forall i ph, l !! i = Some ph -> ph = GExit.
Proof.
  revert k. induction l as [|x l IH]; intros k H i ph Hi; [discriminate|].
  destruct x; cbn [first_live] in H; try discriminate.
  destruct i as [|i]; [injection Hi as <-; reflexivity|].
  apply (IH (S k) H i ph Hi).
Qed.

Lemma all_exit_sums (l : list gphase) :
  (forall i ph, l !! i = Some ph -> ph = GExit) ->
  sum_list_with live l = 0 /\ sum_list_with holding l = 0.
Proof.
  induction l as [|x l IH]; intros H; [split; reflexivity|].
  rewrite !sum_map_cons. rewrite (H 0 x eq_refl). cbn [live holding].
  apply IH. intros i ph Hi. apply (H (S i) ph Hi).
Qed.

Lemma sched_sound (st : pstate) (c : config) :
  sched sequences maxGoroutines st = Some c -> step sequences maxGoroutines st c.
Proof.
  unfold sched. destruct (first_live 0 (gs st)) as [[i ph]|] eqn:E.
  - destruct (first_live_Some _ _ _ _ E) as (j & -> & Hj & Hph). cbn [Nat.add].
    destruct ph; [| | |congruence| |].
    + destruct (sequences !! j) as [s|] eqn:Hs; [|discriminate].
      destruct (buildProfile s) as [p|] eqn:Hp; intros [= <-].
      * apply (step_run _ _ st j s p); assumption.
      * apply (step_run_panic _ _ st j s); assumption.
    + destruct (sem st) as [|n] eqn:Hn; [discriminate|]. intros [= <-].
      apply (step_release _ _ st j n); assumption.
    + destruct (wg st) as [|n] eqn:Hn; intros [= <-].
      * apply (step_done_panic _ _ st j); assumption.
      * apply (step_done _ _ st j n); assumption.
    + destruct (wg st) as [|n] eqn:Hn; intros [= <-].
      * apply (step_unwind_panic _ _ st j); assumption.
      * apply (step_unwind _ _ st j n); assumption.
    + intros [= <-]. apply (step_crash _ _ st j). exact Hj.
  - destruct (main st) eqn:Hm; try discriminate.
    + intros [= <-]. apply step_add. exact Hm.
    + destruct (Z.ltb_spec (Z.of_nat (sem st)) maxGoroutines); [|discriminate].
      intros [= <-]. apply step_send; assumption.
    + intros [= <-]. apply step_go. exact Hm.
    + destruct (wg st) eqn:Hw; [|discriminate]. intros [= <-].
      rewrite <- Hw. apply step_wait; assumption.
Qed.

(** With a limit of at least one, the schedule never blocks. *)
Lemma sched_complete (st : pstate) :
  (1 <= maxGoroutines)%Z -> inv sequences st -> main st <> MReturned ->
  exists c, sched sequences maxGoroutines st = Some c.
Proof.
  intros HN [Hout Hnext Hwg Hsem Hwr Hfr Hret] Hm. unfold sched.
  destruct (first_live 0 (gs st)) as [[i ph]|] eqn:E.
  - destruct (first_live_Some _ _ _ _ E) as (j & -> & Hj & Hph). cbn [Nat.add].
    destruct ph; [| | |congruence| |].
    + destruct (lookup_lt_is_Some_2 sequences j) as [s ->].
      { apply lookup_lt_Some in Hj. destruct (main st); lia. }
      destruct (buildProfile s); eauto.
    + pose proof (sum_map_lookup_le holding _ _ _ Hj) as Hle. cbn [holding] in Hle.
      destruct (sem st); [lia|eauto].
    + destruct (wg st); eauto.
    + destruct (wg st); eauto.
    + eauto.
  - destruct (all_exit_sums _ (first_live_None _ _ E)) as [Hl Hh].
    destruct (main st) eqn:Hmain; cbn [pending sending] in *; try congruence; eauto.
    + destruct (Z.ltb_spec (Z.of_nat (sem st)) maxGoroutines); [eauto|lia].
    + destruct (wg st); [eauto|lia].
Qed.

(** With a limit of at least one, a call that has not returned is not
    blocked, whatever the interleaving. *)
Lemma progress (st : pstate) :
  (1 <= maxGoroutines)%Z -> reach sequences maxGoroutines st -> main st <> MReturned ->
  exists c, step sequences maxGoroutines st c.
Proof.
  intros HN Hr Hm.
  destruct (sched_complete st HN (reach_inv st Hr) Hm) as [c Hc].
  exists c. apply sched_sound. exact Hc.
Qed.

(** Every step uses up the measure: all executions are finite. *)
Lemma measure_step (st st' : pstate) :
  inv sequences st -> step sequences maxGoroutines st (Run st') ->
  measure sequences st' < measure sequences st.
Proof.
  intros [Hout Hnext Hwg Hsem Hwr Hfr Hret] Hstep. unfold measure.
  inversion Hstep as [st0 Hm|st0 Hm Hlt|st0 Hm|st0 Hm Hw0|st0 i s p Hi Hs Hp|
                      st0 i s Hi Hs Hp|st0 i n Hi Hn|st0 i n Hi Hn| |st0 i n Hi Hn| | ];
    subst; clear Hstep;
    cbn [main gs sem wg out]; rewrite ?Hm in *; cbn [mweight]; try lia.
  - rewrite length_app, sum_map_snoc. cbn [length gweight].
    assert (mweight (loop_head sequences (S (length (gs st)))) <= 3)
      by (unfold loop_head; destruct (_ <? _); cbn; lia).
    lia.
  - pose proof (sum_map_insert gweight (gs st) i GRun GRelease Hi) as E.
    cbn [gweight] in E. rewrite length_insert. lia.
  - pose proof (sum_map_insert gweight (gs st) i GRun GUnwind Hi) as E.
    cbn [gweight] in E. rewrite length_insert. lia.
  - pose proof (sum_map_insert gweight (gs st) i GRelease GDone Hi) as E.
    cbn [gweight] in E. rewrite length_insert. lia.
  - pose proof (sum_map_insert gweight (gs st) i GDone GExit Hi) as E.
    cbn [gweight] in E. rewrite length_insert. lia.
  - pose proof (sum_map_insert gweight (gs st) i GUnwind GCrash Hi) as E.
    cbn [gweight] in E. rewrite length_insert. lia.
Qed.

(** Under the schedule the main goroutine returns only when every
    goroutine has ended. *)
Lemma sched_returned (st st' : pstate) :
  inv sequences st -> main st <> MReturned ->
  sched sequences maxGoroutines st = Some (Run st') -> main st' = MReturned ->
  mapM buildProfile sequences = Some (out st').
Proof.
  intros [Hout Hnext Hwg Hsem Hwr Hfr Hret] Hm. unfold sched.
  destruct (first_live 0 (gs st)) as [[i ph]|] eqn:E.
  - destruct ph.
    + destruct (sequences !! i) as [s|]; [|discriminate].
      destruct (buildProfile s); intros [= <-]; cbn [main]; congruence.
    + destruct (sem st); [discriminate|]. intros [= <-]. cbn [main]. congruence.
    + destruct (wg st); [discriminate|]. intros [= <-]. cbn [main]. congruence.
    + discriminate.
    + destruct (wg st); [discriminate|]. intros [= <-]. cbn [main]. congruence.
    + discriminate.
  - pose proof (first_live_None _ _ E) as Hall.
    destruct (main st) eqn:Hmain; try congruence.
    + intros [= <-]. discriminate.
    + destruct (_ <? _)%Z; [|discriminate]. intros [= <-]. discriminate.
    + intros [= <-]. cbn [main]. intros H. destruct (loop_head_not_returned _ H).
    + destruct (wg st); [|discriminate]. intros [= <-] _. cbn [out].
      apply mapM_Some. apply Forall2_same_length_lookup_2; [congruence|].
      intros j s p Hs Hp.
      destruct (lookup_lt_is_Some_2 (gs st) j) as [ph Hph].
      { rewrite Hnext. apply (lookup_lt_Some _ _ _ Hs). }
      pose proof (Hwr j ph Hph) as Hslot. rewrite (Hall j ph Hph) in Hslot.
      destruct Hslot as (s' & p' & Hs' & Hb & Ho). congruence.
Qed.

Lemma run_correct (fuel : nat) (st : pstate) :
  (1 <= maxGoroutines)%Z -> inv sequences st ->
  (main st = MReturned -> mapM buildProfile sequences = Some (out st)) ->
  measure sequences st <= fuel ->
  run sequences maxGoroutines fuel st = of_option (mapM buildProfile sequences).
Proof.
  intros HN. revert st. induction fuel as [|fuel IH]; intros st Hinv Hset Hfuel.
  - destruct (main st) eqn:Hm; try (unfold measure in Hfuel; rewrite Hm in Hfuel; cbn in Hfuel; lia).
    cbn [run]. rewrite Hm, (Hset eq_refl). reflexivity.
  - cbn [run].
    assert (main st = MReturned \/ main st <> MReturned) as [Hm|Hm]
      by (destruct (main st); auto; right; discriminate).
    + rewrite Hm, (Hset Hm). reflexivity.
    + destruct (sched_complete st HN Hinv Hm) as [c Hc]. rewrite Hc.
      pose proof (sched_sound st c Hc) as Hstep.
      destruct c as [st'|].
      * rewrite (IH st'); [|apply (inv_step st st' Hinv Hstep)| |].
        -- destruct (main st); first [reflexivity|congruence].
        -- apply (sched_returned st st' Hinv Hm Hc).
        -- pose proof (measure_step st st' Hinv Hstep). lia.
      * rewrite (inv_panic_mapM st Hinv Hstep). destruct (main st); first [reflexivity|congruence].
Qed.

End Facts.
End ParFacts.

Import ParSpec ParFacts.

Lemma buildProfilesParallel_spec (sequences : list string) (maxGoroutines startIndex : Z) :
  (1 <= maxGoroutines)%Z ->
  buildProfilesParallel sequences maxGoroutines startIndex =
  of_option (mapM buildProfile sequences).
Proof.
  intros HN. unfold buildProfilesParallel.
  destruct (Z.ltb_spec maxGoroutines 0); [lia|].
  apply run_correct; [exact HN|apply inv_init| |lia].
  intros Hm. destruct (loop_head_not_returned sequences 0 Hm).
Qed.

Lemma buildProfilesParallel_nil (maxGoroutines startIndex : Z) :
  (0 <= maxGoroutines)%Z ->
  buildProfilesParallel [] maxGoroutines startIndex = Returned [].
Proof.
  intros HN. unfold buildProfilesParallel.
  destruct (Z.ltb_spec maxGoroutines 0); [lia|]. reflexivity.
Qed.

Lemma buildProfilesParallel_zero (sequences : list string) (startIndex : Z) :
  sequences <> [] -> buildProfilesParallel sequences 0 startIndex = Deadlocked.
Proof.
  intros Hne. unfold buildProfilesParallel. cbn [Z.ltb Z.compare].
  destruct sequences as [|s l]; [congruence|].
  unfold Par.measure, Par.init, Par.loop_head. cbn [length Nat.ltb Nat.leb Par.gs Par.main].
  replace (6 * (S (length l) - 0) + sum_list_with Par.gweight [] + Par.mweight Par.MAdd)
    with (S (S (6 * length l + 7))) by (cbn; lia).
  reflexivity.
Qed.

(** The fuel of the model is enough for every call. *)
Lemma buildProfilesParallel_fuel (sequences : list string) (maxGoroutines startIndex : Z) :
  buildProfilesParallel sequences maxGoroutines startIndex <> Diverged.
Proof.
  destruct (Z.lt_trichotomy maxGoroutines 0) as [H|[->|H]].
  - unfold buildProfilesParallel. destruct (Z.ltb_spec maxGoroutines 0); [discriminate|lia].
  - destruct sequences as [|s l].
    + rewrite buildProfilesParallel_nil by lia. discriminate.
    + rewrite buildProfilesParallel_zero by discriminate. discriminate.
  - rewrite buildProfilesParallel_spec by lia.
    destruct (mapM buildProfile sequences); discriminate.
Qed.

Lemma buildProfilesParallel_neg (sequences : list string) (maxGoroutines startIndex : Z) :
  (maxGoroutines < 0)%Z -> buildProfilesParallel sequences maxGoroutines startIndex = Panicked.
Proof.
  intros HN. unfold buildProfilesParallel.
  destruct (Z.ltb_spec maxGoroutines 0); [reflexivity|lia].
Qed.

Local Open Scope Z_scope.

(** ** processFileInChunks *)

Section Driver.

Lemma obind_assoc {A B C : Type} (m : outcome A) (f : A -> outcome B) (g : B -> outcome C) :
  obind (obind m f) g = obind m (fun a => obind (f a) g).
Proof. destruct m; reflexivity. Qed.

Lemma obind_Returned {A : Type} (m : outcome A) : obind m Returned = m.
Proof. destruct m; reflexivity. Qed.

Lemma obind_ext {A B : Type} (m : outcome A) (f g : A -> outcome B) :
  (forall a, f a = g a) -> obind m f = obind m g.
Proof. intros H. destruct m; cbn; auto. Qed.

Lemma startIndex_unused (l : list string) (n s : Z) :
  buildProfilesParallel l n s = buildProfilesParallel l n 0.
Proof. reflexivity. Qed.

Lemma mapM_buildProfile_app (l1 l2 : list string) :
  of_option (mapM buildProfile (l1 ++ l2)) =
  obind (of_option (mapM buildProfile l1))
    (fun p1 => obind (of_option (mapM buildProfile l2)) (fun p2 => Returned (p1 ++ p2))).
Proof.
  induction l1 as [|s l1 IH].
  - cbn. symmetry. apply obind_Returned.
  - cbn [app mapM]. destruct (buildProfile s) as [p|]; [|reflexivity].
    cbn [mbind option_bind]. cbn [mbind option_bind] in IH.
    destruct (mapM buildProfile (l1 ++ l2)) as [ps|];
      destruct (mapM buildProfile l1) as [ps1|]; cbn in *;
      destruct (mapM buildProfile l2) as [ps2|]; cbn in *; congruence.
Qed.

Lemma batch_closed (n : Z) (l : list string) :
  batch n l =
  match l with
  | [] => Returned []
  | _ => if n <? 0 then Panicked
         else if n =? 0 then Deadlocked
         else of_option (mapM buildProfile l)
  end.
Proof.
  destruct l as [|s l]; [reflexivity|]. unfold batch.
  destruct (Z.ltb_spec n 0); [apply buildProfilesParallel_neg; assumption|].
  destruct (Z.eqb_spec n 0) as [->|].
  - apply buildProfilesParallel_zero. discriminate.
  - apply buildProfilesParallel_spec. lia.
Qed.

Lemma batch_app (n : Z) (l1 l2 : list string) :
  batch n (l1 ++ l2) =
  obind (batch n l1) (fun p1 => obind (batch n l2) (fun p2 => Returned (p1 ++ p2))).
Proof.
  destruct l1 as [|s1 l1]; [cbn; symmetry; apply obind_Returned|].
  destruct l2 as [|s2 l2].
  - rewrite app_nil_r. cbn [batch obind].
    destruct (buildProfilesParallel _ _ _); cbn; rewrite ?app_nil_r; reflexivity.
  - rewrite !batch_closed. cbn [app].
    destruct (n <? 0); [reflexivity|]. destruct (n =? 0); [reflexivity|].
    apply (mapM_buildProfile_app (s1 :: l1) (s2 :: l2)).
Qed.

Lemma batch_nonempty (n s : Z) (l : list string) :
  (0 < length l)%nat -> buildProfilesParallel l n s = batch n l.
Proof. destruct l; [cbn; lia|reflexivity]. Qed.

Lemma scan_line_fields (st : scan_state) (line : string) :
  allNames (scan_line st line) = allNames st /\
  allProfiles (scan_line st line) = allProfiles st /\
  totalProcessed (scan_line st line) = totalProcessed st.
Proof. unfold scan_line. destruct (is_marker line), (has_name st); auto. Qed.

Lemma scan_line_records (st : scan_state) (line : string) (rest : list string) :
  let st1 := scan_line st line in
  currentChunkNames st1 ++ map fst (scan_records rest (currentName st1) (currentSequence st1)) =
  currentChunkNames st ++ map fst (scan_records (line :: rest) (currentName st) (currentSequence st)) /\
  currentChunkSequences st1 ++ map snd (scan_records rest (currentName st1) (currentSequence st1)) =
  currentChunkSequences st ++ map snd (scan_records (line :: rest) (currentName st) (currentSequence st)).
Proof.
  unfold scan_line, has_name. cbn [scan_records].
  destruct (is_marker line); [destruct (negb _)|]; cbn; rewrite <- ?app_assoc; auto.
Qed.

Lemma scan_line_parallel (st : scan_state) (line : string) :
  length (currentChunkNames st) = length (currentChunkSequences st) ->
  length (currentChunkNames (scan_line st line)) =
  length (currentChunkSequences (scan_line st line)).
Proof.
  intros H. unfold scan_line. destruct (is_marker line), (has_name st); cbn;
    rewrite ?length_app; cbn; lia.
Qed.

Lemma scan_finish_spec (n : Z) (st : scan_state) (done : list string) :
  batch n done = Returned (allProfiles st) ->
  length (currentChunkNames st) = length (currentChunkSequences st) ->
  scan_finish n st =
  obind (batch n (done ++ currentChunkSequences st
                    ++ map snd (scan_records [] (currentName st) (currentSequence st))))
    (fun ps => Returned (allNames st ++ currentChunkNames st
                           ++ map fst (scan_records [] (currentName st) (currentSequence st)), ps)).
Proof.
  intros Hdone Hpar. unfold scan_finish, has_name. cbn [scan_records].
  rewrite batch_app, Hdone. cbn [obind]. rewrite obind_assoc. cbn [obind].
  destruct (negb _); cbn [map fst snd push_record allNames allProfiles currentChunkNames
                              currentChunkSequences totalProcessed].
  - rewrite length_app. cbn [length].
    destruct (Nat.ltb_spec 0 (length (currentChunkSequences st) + 1)); [|lia].
    rewrite batch_nonempty by (rewrite length_app; cbn; lia). reflexivity.
  - rewrite !app_nil_r.
    destruct (Nat.ltb_spec 0 (length (currentChunkSequences st))) as [H|H].
    + rewrite batch_nonempty by exact H. reflexivity.
    + destruct (currentChunkSequences st); [|cbn in H; lia].
      destruct (currentChunkNames st); [|discriminate].
      cbn. rewrite !app_nil_r. reflexivity.
Qed.

Lemma scan_loop_spec (c n : Z) :
  1 <= c ->
  forall (lines : list string) (st : scan_state) (done : list string),
    batch n done = Returned (allProfiles st) ->
    length (currentChunkNames st) = length (currentChunkSequences st) ->
    obind (scan_loop c n lines st) (scan_finish n) =
    obind (batch n (done ++ currentChunkSequences st
                      ++ map snd (scan_records lines (currentName st) (currentSequence st))))
      (fun ps => Returned (allNames st ++ currentChunkNames st
                             ++ map fst (scan_records lines (currentName st) (currentSequence st)), ps)).
Proof.
  intros Hc. induction lines as [|line rest IH]; intros st done Hdone Hpar.
  - cbn [scan_loop obind]. apply scan_finish_spec; assumption.
  - cbn [scan_loop]. apply (scan_line_parallel st line) in Hpar.
    destruct (scan_line_fields st line) as (EN & EP & ET).
    destruct (scan_line_records st line rest) as [ERn ERs]. cbv zeta in ERn, ERs.
    rewrite <- ERn, <- ERs. rewrite <- EN. rewrite <- EP in Hdone.
    set (st1 := scan_line st line) in *. clearbody st1. clear EN EP ET ERn ERs.
    destruct (Z.leb_spec c (Z.of_nat (length (currentChunkSequences st1)))) as [Hfull|Hroom].
    + unfold flush_chunk. rewrite batch_nonempty by lia.
      rewrite (batch_app n done), Hdone. cbn [obind].
      rewrite (batch_app n (currentChunkSequences st1)).
      rewrite !obind_assoc.
      destruct (batch n (currentChunkSequences st1)) as [ps| | |] eqn:Hb; try reflexivity.
      cbn [obind].
      rewrite (IH _ (done ++ currentChunkSequences st1)).
      * cbn [allNames allProfiles currentChunkNames currentChunkSequences currentName
               currentSequence app].
        rewrite (batch_app n (done ++ currentChunkSequences st1)).
        rewrite (batch_app n done), Hdone, Hb. cbn [obind].
        rewrite !obind_assoc. apply obind_ext. intros p3. cbn [obind].
        rewrite <- !app_assoc. reflexivity.
      * cbn [allProfiles]. rewrite batch_app, Hdone, Hb. reflexivity.
      * reflexivity.
    + cbn [obind]. apply IH; assumption.
Qed.

(** The table is that of the records of the input, whatever the chunk
    size. *)
Lemma processFileInChunks_spec (lines : list string) (c n : Z) :
  1 <= c -> processFileInChunks lines c n = table_of n (records_code lines).
Proof.
  intros Hc. unfold processFileInChunks, table_of, records_code.
  rewrite (scan_loop_spec c n Hc lines scan_init []) by reflexivity. reflexivity.
Qed.

End Driver.

Section Records.

Lemma string_app_nil_r (s : string) : (s ++ EmptyString)%string = s.
Proof. induction s as [|c s IH]; cbn; [reflexivity|]. rewrite IH. reflexivity. Qed.

Lemma string_app_assoc (s t u : string) : ((s ++ t) ++ u)%string = (s ++ (t ++ u))%string.
Proof. induction s as [|c s IH]; cbn; [reflexivity|]. rewrite IH. reflexivity. Qed.

Lemma marker_nonempty (line : string) : is_marker line = true -> (line =? EmptyString)%string = false.
Proof. destruct line; [discriminate|reflexivity]. Qed.

(** The names of the records are the marker lines, in order. *)
Lemma scan_records_names (lines : list string) (cn cs : string) :
  map fst (scan_records lines cn cs) =
  (if negb (cn =? EmptyString)%string then [cn] else []) ++ List.filter is_marker lines.
Proof.
  revert cn cs. induction lines as [|line rest IH]; intros cn cs; cbn [scan_records List.filter].
  - destruct (negb _); reflexivity.
  - destruct (is_marker line) eqn:Hm.
    + destruct (negb (cn =? EmptyString)%string); cbn [map fst]; rewrite IH;
        rewrite (marker_nonempty line Hm); reflexivity.
    + apply IH.
Qed.

Lemma records_code_names (lines : list string) :
  map fst (records_code lines) = List.filter is_marker lines.
Proof. unfold records_code. rewrite scan_records_names. reflexivity. Qed.

(** Once a name is in progress the loop forms the records of the
    specification. *)
Lemma scan_records_spec (lines : list string) (cn cs : string) :
  (cn =? EmptyString)%string = false ->
  scan_records lines cn cs = (cn, (cs ++ text_until_marker lines)%string) :: records_spec lines.
Proof.
  revert cn cs. induction lines as [|line rest IH]; intros cn cs Hcn;
    cbn [scan_records text_until_marker records_spec]; rewrite Hcn; cbn [negb].
  - rewrite string_app_nil_r. reflexivity.
  - destruct (is_marker line) eqn:Hm.
    + rewrite string_app_nil_r, (IH line EmptyString (marker_nonempty line Hm)). reflexivity.
    + rewrite (IH cn _ Hcn), string_app_assoc. reflexivity.
Qed.

(** On an input that starts with a marker line the code forms the
    records of the specification. *)
Lemma records_code_marker_first (line : string) (rest : list string) :
  is_marker line = true -> records_code (line :: rest) = records_spec (line :: rest).
Proof.
  intros Hm. unfold records_code. cbn [scan_records records_spec]. rewrite Hm. cbn.
  apply (scan_records_spec rest line EmptyString (marker_nonempty line Hm)).
Qed.

End Records.

Section LongSequence.

Lemma bytes_of_string_rep (c : ascii) (n : nat) :
  bytes_of (string_rep c n) = replicate n (Z.of_N (N_of_ascii c)).
Proof.
  unfold bytes_of. induction n as [|n IH]; [reflexivity|].
  cbn [string_rep list_ascii_of_string map replicate]. rewrite IH. reflexivity.
Qed.

(** The loop of [buildProfile] on a run of the letter A counts modulo
    [2^32] in the first cell. *)
Lemma for_range_run_A (len : nat) :
  forall (n lo : nat) (cnt sum : Z),
    (lo + n < len)%nat -> 0 <= cnt < 2 ^ 32 -> 0 <= sum < 2 ^ 64 ->
    for_range (buildProfile_body (replicate len 65)) lo n (<[0%nat:=cnt]> zero_counts, sum) =
    Some (<[0%nat:=wrap32 (cnt + Z.of_nat n)]> zero_counts, wrap64 (sum + Z.of_nat n)).
Proof.
  induction n as [|n IH]; intros lo cnt sum Hlo Hcnt Hsum.
  - cbn [for_range]. rewrite !Z.add_0_r, wrap32_small, wrap64_small by assumption. reflexivity.
  - cbn [for_range]. unfold buildProfile_body.
    rewrite !lookup_replicate_2 by lia. cbn [mbind option_bind].
    change (Z.to_nat (bigram_index 65 65)) with 0%nat.
    rewrite list_lookup_insert_eq by (rewrite length_zero_counts; lia).
    cbn [mbind option_bind]. rewrite list_insert_insert_eq.
    rewrite IH; [|lia|apply wrap32_range|apply wrap64_range].
    f_equal. f_equal.
    + f_equal. unfold wrap32. rewrite Zplus_mod_idemp_l. f_equal. lia.
    + unfold wrap64. rewrite Zplus_mod_idemp_l. f_equal. lia.
Qed.
Lemma buildProfile_run_A (n : nat) :
  buildProfile (string_rep "A" (S n)) =
  Some (mkProfile (<[0%nat:=wrap32 (Z.of_nat n)]> zero_counts) (wrap64 (Z.of_nat n))).
Proof.
  unfold buildProfile. rewrite bytes_of_string_rep, length_replicate.
  change (Z.of_N (N_of_ascii "A")) with 65.
  rewrite Nat.sub_succ, Nat.sub_0_r.
  rewrite <- (list_insert_id zero_counts 0 0 eq_refl) at 1.
  rewrite for_range_run_A by lia. reflexivity.
Qed.

Lemma buildProfile_long_A : buildProfile long_A = Some (mkProfile zero_counts (2 ^ 32)).
Proof.
  unfold long_A. rewrite (buildProfile_run_A (Z.to_nat (2 ^ 32))).
  rewrite Z2Nat.id by lia. reflexivity.
Qed.

Lemma uppercase_long_A : uppercase long_A.
Proof.
  unfold uppercase, long_A. rewrite bytes_of_string_rep.
  apply Forall_replicate. unfold is_upper. cbn. lia.
Qed.

End LongSequence.

(** * The claims *)

Local Open Scope Z_scope.
Local Open Scope string_scope.

Lemma uppercaseb_sound (s : string) : uppercaseb s = true -> uppercase s.
Proof.
  unfold uppercaseb, uppercase. intros H. apply Forall_forall. intros c Hc.
  apply list_elem_of_In in Hc.
  pose proof (proj1 (forallb_forall is_upperb (bytes_of s)) H c Hc) as Hb.
  unfold is_upperb in Hb. apply andb_true_iff in Hb as [H1 H2].
  apply Z.leb_le in H1, H2. split; assumption.
Qed.

Lemma buildProfile_AA : buildProfile "AA" = Some profile_AA.
Proof. vm_compute. reflexivity. Qed.

Lemma buildProfile_AB : buildProfile "AB" = Some profile_AB.
Proof. vm_compute. reflexivity. Qed.

Lemma profile_inv_AA : profile_inv profile_AA.
Proof. apply (buildProfile_inv "AA"); [exact buildProfile_AA|vm_compute; discriminate]. Qed.

Lemma profile_inv_AB : profile_inv profile_AB.
Proof. apply (buildProfile_inv "AB"); [exact buildProfile_AB|vm_compute; discriminate]. Qed.

Lemma buildProfile_aA : buildProfile "aA" = None.
Proof. vm_compute. reflexivity. Qed.

(** An interleaving of the call on "AA", "aA", "AB" with the limit 2 in
    which [wg.Wait()] returns: the goroutine of "aA" has run its
    deferred [wg.Done()] and has not yet ended the process. *)
Lemma reach_returned_after_panic :
  Par.reach ["AA"; "aA"; "AB"] 2
    (Par.mkP Par.MReturned [Par.GExit; Par.GCrash; Par.GExit] 1 0
       [profile_AA; zero_profile; profile_AB]).
Proof.
  pose proof (Par.reach_init ["AA"; "aA"; "AB"] 2) as H. cbn in H.
  par_step H ltac:(apply Par.step_add; reflexivity).
  par_step H ltac:(apply Par.step_send; reflexivity).
  par_step H ltac:(apply Par.step_go; reflexivity).
  par_step H ltac:(apply (Par.step_run _ _ _ 0%nat "AA" profile_AA);
                   [reflexivity|reflexivity|exact buildProfile_AA]).
  par_step H ltac:(apply (Par.step_release _ _ _ 0%nat 0%nat); reflexivity).
  par_step H ltac:(apply (Par.step_done _ _ _ 0%nat 0%nat); reflexivity).
  par_step H ltac:(apply Par.step_add; reflexivity).
  par_step H ltac:(apply Par.step_send; reflexivity).
  par_step H ltac:(apply Par.step_go; reflexivity).
  par_step H ltac:(apply (Par.step_run_panic _ _ _ 1%nat "aA");
                   [reflexivity|reflexivity|exact buildProfile_aA]).
  par_step H ltac:(apply (Par.step_unwind _ _ _ 1%nat 0%nat); reflexivity).
  par_step H ltac:(apply Par.step_add; reflexivity).
  par_step H ltac:(apply Par.step_send; reflexivity).
  par_step H ltac:(apply Par.step_go; reflexivity).
  par_step H ltac:(apply (Par.step_run _ _ _ 2%nat "AB" profile_AB);
                   [reflexivity|reflexivity|exact buildProfile_AB]).
  par_step H ltac:(apply (Par.step_release _ _ _ 2%nat 1%nat); reflexivity).
  par_step H ltac:(apply (Par.step_done _ _ _ 2%nat 0%nat); reflexivity).
  par_step H ltac:(apply Par.step_wait; reflexivity).
  exact H.
Qed.

(** The interleaving of the call on "AA" with the limit 1. *)
Lemma reach_returned_AA :
  Par.reach ["AA"] 1 (Par.mkP Par.MReturned [Par.GExit] 0 0 [profile_AA]).
Proof.
  pose proof (Par.reach_init ["AA"] 1) as H. cbn in H.
  par_step H ltac:(apply Par.step_add; reflexivity).
  par_step H ltac:(apply Par.step_send; reflexivity).
  par_step H ltac:(apply Par.step_go; reflexivity).
  par_step H ltac:(apply (Par.step_run _ _ _ 0%nat "AA" profile_AA);
                   [reflexivity|reflexivity|exact buildProfile_AA]).
  par_step H ltac:(apply (Par.step_release _ _ _ 0%nat 0%nat); reflexivity).
  par_step H ltac:(apply (Par.step_done _ _ _ 0%nat 0%nat); reflexivity).
  par_step H ltac:(apply Par.step_wait; reflexivity).
  exact H.
Qed.

Lemma final_returned_AA (c : Par.config) :
  ~ Par.step ["AA"] 1 (Par.mkP Par.MReturned [Par.GExit] 0 0 [profile_AA]) c.
Proof.
  intros Hc. inversion Hc; subst; cbn in *; try discriminate;
    match goal with
    | H : [Par.GExit] !! ?i = Some _ |- _ => destruct i as [|i]; discriminate
    end.
Qed.

(** An interleaving on "AA", "AB" with the limit 1 in which the first
    goroutine runs and the main goroutine waits to send for the
    second. *)
Lemma reach_send_blocked :
  Par.reach ["AA"; "AB"] 1
    (Par.mkP Par.MSend [Par.GRun] 1 2 [zero_profile; zero_profile]).
Proof.
  pose proof (Par.reach_init ["AA"; "AB"] 1) as H. cbn in H.
  par_step H ltac:(apply Par.step_add; reflexivity).
  par_step H ltac:(apply Par.step_send; reflexivity).
  par_step H ltac:(apply Par.step_go; reflexivity).
  par_step H ltac:(apply Par.step_add; reflexivity).
  exact H.
Qed.


Lemma is_heap_two : is_heap MaxHeap_less heap_two.
Proof.
  intros [|[|k]] x y Hx Hy; [| |discriminate]; cbn in Hx, Hy;
    injection Hx as <-; injection Hy as <-; reflexivity.
Qed.

Lemma is_heap_four : is_heap MaxHeap_less heap_four.
Proof.
  intros [|[|[|[|k]]]] x y Hx Hy; [| | | |discriminate]; cbn in Hx, Hy;
    injection Hx as <-; injection Hy as <-; reflexivity.
Qed.

(** [heap.Push] on [heap_two] moves the new entry up to the root, and
    [heap.Pop] on [heap_four] moves the last entry down from the
    root. *)
Remark heap_examples :
  heap_Push MaxHeap_less heap_two (mkSimilarity one ">c")
    = [mkSimilarity one ">c"; mkSimilarity (neg one) ">b"; mkSimilarity zero ">a"] /\
  heap_Pop MaxHeap_less heap_four
    = Some (mkSimilarity one ">a",
            [mkSimilarity zero ">b"; mkSimilarity (neg one) ">d"; mkSimilarity (neg one) ">c"]).
Proof. split; vm_compute; reflexivity. Qed.

(** ** C1 *)

(** C1, as stated, fails: for the query "AA", the table of "AA" and
    "AB" and K = 2, [findTop100Similar] returns the score 0 before the
    score 1; the list is not in non-increasing order. *)
Lemma C1_result_is_ascending :
  findTop100Similar "AA" [profile_AA; profile_AB] [">1"; ">2"] 2
    = Some [mkSimilarity zero ">2"; mkSimilarity one ">1"] /\
  ~ sorted_desc [mkSimilarity zero ">2"; mkSimilarity one ">1"].
Proof.
  split; [vm_compute; reflexivity|].
  unfold sorted_desc. intros H. inversion H as [|a l _ Hall]; subst.
  inversion Hall as [|b l' Hb _]; subst. cbn in Hb. discriminate.
Qed.

(** A NaN score, from a query without a bigram against a sequence
    without one, leaves the result in no order. *)
Remark findTop100Similar_nan :
  findTop100Similar "A" [zero_profile; profile_AA] [">1"; ">2"] 2
    = Some [mkSimilarity nan ">1"; mkSimilarity zero ">2"] /\
  ~ sorted_asc [mkSimilarity nan ">1"; mkSimilarity zero ">2"] /\
  ~ sorted_desc [mkSimilarity nan ">1"; mkSimilarity zero ">2"].
Proof.
  split; [vm_compute; reflexivity|].
  split; unfold sorted_asc, sorted_desc; intros H; inversion H as [|a l _ Hall]; subst;
    inversion Hall as [|b l' Hb _]; subst; cbn in Hb; discriminate.
Qed.

(** C1, amended: for a query with profile [q], a table with a name for
    each profile, K >= 1, and no NaN score, [findTop100Similar] returns
    exactly min(K, tableSize) results, sorted in non-decreasing order
    of score (the caller prints the list backwards), and every
    returned score is greater than or equal to every score of a table
    entry not returned: the result [R] and the entries [D] not
    returned make up the scored table. *)
Theorem C1_findTop100Similar_top_k
  (sequence : string) (q : ProteinProfile) (profiles : list ProteinProfile)
  (names : list string) (K : Z) :
  buildProfile sequence = Some q ->
  1 <= K ->
  (length profiles <= length names)%nat ->
  no_nan q profiles ->
  exists R D,
    findTop100Similar sequence profiles names K = Some R /\
    Z.of_nat (length R) = Z.min K (Z.of_nat (length profiles)) /\
    sorted_asc R /\
    R ++ D ≡ₚ scored q profiles names /\
    (forall r d, r ∈ R -> d ∈ D -> le (similarity d) (similarity r) = true).
Proof.
  intros Hq HK Hlen Hnan.
  apply (findTop100Similar_spec sequence q profiles names K Hq ltac:(lia) Hlen Hnan).
Qed.

Lemma C1_findTop100Similar_top_k_witness :
  buildProfile "AA" = Some profile_AA /\
  1 <= 1 /\
  (length [profile_AA; profile_AB] <= length [">1"; ">2"])%nat /\
  no_nan profile_AA [profile_AA; profile_AB] /\
  exists R D,
    findTop100Similar "AA" [profile_AA; profile_AB] [">1"; ">2"] 1 = Some R /\
    Z.of_nat (length R) = Z.min 1 (Z.of_nat (length [profile_AA; profile_AB])) /\
    sorted_asc R /\
    R ++ D ≡ₚ scored profile_AA [profile_AA; profile_AB] [">1"; ">2"] /\
    (forall r d, r ∈ R -> d ∈ D -> le (similarity d) (similarity r) = true).
Proof.
  assert (H1 : buildProfile "AA" = Some profile_AA) by exact buildProfile_AA.
  assert (H2 : 1 <= 1) by lia.
  assert (H3 : (length [profile_AA; profile_AB] <= length [">1"; ">2"])%nat) by (cbn; lia).
  assert (H4 : no_nan profile_AA [profile_AA; profile_AB]).
  { unfold no_nan. repeat constructor; vm_compute; reflexivity. }
  exact (conj H1 (conj H2 (conj H3 (conj H4
    (C1_findTop100Similar_top_k "AA" profile_AA [profile_AA; profile_AB] [">1"; ">2"] 1
       H1 H2 H3 H4))))).
Defined.

(** ** C2 *)

(** C2 at the input ["AB"; ">x"; "CD"]: the table has one record, named
    ">x", and its profile is that of "ABCD", the text before the first
    marker included, where the claim gives it the sequence "CD". *)
Theorem C2_text_before_first_marker :
  exists p,
    processFileInChunks ["AB"; ">x"; "CD"] 10000 6 = Returned ([">x"], [p]) /\
    buildProfile "ABCD" = Some p /\
    records_spec ["AB"; ">x"; "CD"] = [(">x", "CD")] /\
    buildProfile "CD" <> Some p.
Proof.
  destruct (buildProfile "ABCD") as [p|] eqn:E; [|vm_compute in E; discriminate].
  exists p. split; [|split; [reflexivity|split; [reflexivity|]]].
  - rewrite processFileInChunks_spec by lia.
    unfold table_of. rewrite batch_closed.
    change (records_code ["AB"; ">x"; "CD"]) with [(">x", "ABCD")].
    cbn [map snd fst Z.ltb Z.eqb Z.compare mapM]. rewrite E. reflexivity.
  - intros H. apply buildProfile_Sum in H, E.
    rewrite E in H. vm_compute in H. discriminate.
Qed.

(** ** C3 *)

(** C3 as it is stated, at the sequences "AA", "aA", "AB" with the
    limit 2: [buildProfile] panics on "aA", so the sequential map has no
    result; the deferred [wg.Done()] of that goroutine still runs, and in
    the interleaving where the process is not yet dead when the third
    goroutine ends, [wg.Wait()] returns and the call returns three
    profiles, the second one the zero profile that [make] left. *)
Lemma C3_returns_after_panic :
  buildProfile "aA" = None /\
  mapM buildProfile ["AA"; "aA"; "AB"] = None /\
  exists st,
    Par.reach ["AA"; "aA"; "AB"] 2 st /\ Par.main st = Par.MReturned /\
    Par.out st = [profile_AA; zero_profile; profile_AB].
Proof.
  split; [exact buildProfile_aA|]. split; [vm_compute; reflexivity|].
  exists (Par.mkP Par.MReturned [Par.GExit; Par.GCrash; Par.GExit] 1 0
            [profile_AA; zero_profile; profile_AB]).
  split; [exact reach_returned_after_panic|split; reflexivity].
Qed.

(** C3, amended: for every list of sequences on each of which
    [buildProfile] returns, every limit N >= 1 and every start index,
    [buildProfilesParallel] returns the sequential map of [buildProfile]
    over the sequences: as many profiles as sequences, the i-th that of
    the i-th sequence, whatever N and the start index.  Every
    interleaving of the goroutines that returns, returns this list; no
    interleaving panics or blocks; each step uses up a measure, so
    every interleaving ends. *)
Theorem C3_buildProfilesParallel_sequential
  (sequences : list string) (N startIndex : Z) :
  1 <= N -> Forall (fun s => is_Some (buildProfile s)) sequences ->
  exists ps,
    mapM buildProfile sequences = Some ps /\
    length ps = length sequences /\
    (forall i s, sequences !! i = Some s -> buildProfile s = ps !! i) /\
    buildProfilesParallel sequences N startIndex = Returned ps /\
    (forall st, Par.reach sequences N st -> Par.main st = Par.MReturned ->
       Par.out st = ps) /\
    (forall st, Par.reach sequences N st -> ~ Par.step sequences N st Par.Panic) /\
    (forall st, Par.reach sequences N st -> Par.main st <> Par.MReturned ->
       exists st', Par.step sequences N st (Par.Run st')) /\
    (forall st st', Par.reach sequences N st -> Par.step sequences N st (Par.Run st') ->
       (Par.measure sequences st' < Par.measure sequences st)%nat).
Proof.
  intros HN Hall.
  destruct (mapM_is_Some_2 buildProfile sequences Hall) as [ps E].
  pose proof (mapM_Some_1 _ _ _ E) as HF.
  assert (Hnopanic : forall st, Par.reach sequences N st ->
                       ~ Par.step sequences N st Par.Panic).
  { intros st Hr Hp.
    pose proof (inv_panic_mapM sequences N st (reach_inv _ N st Hr) Hp). congruence. }
  exists ps. split; [exact E|]. split; [|split; [|split; [|split; [|split; [|split]]]]].
  - symmetry. apply (Forall2_length _ _ _ HF).
  - intros i s Hs. destruct (Forall2_lookup_l _ _ _ _ _ HF Hs) as (p & Hp & Hb).
    congruence.
  - rewrite (buildProfilesParallel_spec sequences N startIndex HN), E. reflexivity.
  - intros st Hr Hm.
    apply (inv_returned_out sequences st ps (reach_inv _ N st Hr) Hm E).
  - exact Hnopanic.
  - intros st Hr Hm. destruct (progress sequences N st HN Hr Hm) as [[st'|] Hc].
    + exists st'. exact Hc.
    + destruct (Hnopanic st Hr Hc).
  - intros st st' Hr Hs.
    apply (measure_step sequences N); [apply (reach_inv _ N); exact Hr|exact Hs].
Qed.

Lemma C3_buildProfilesParallel_sequential_witness :
  1 <= 2 /\ Forall (fun s => is_Some (buildProfile s)) ["AA"; "AB"] /\
  exists ps,
    mapM buildProfile ["AA"; "AB"] = Some ps /\
    length ps = length ["AA"; "AB"] /\
    (forall i s, ["AA"; "AB"] !! i = Some s -> buildProfile s = ps !! i) /\
    buildProfilesParallel ["AA"; "AB"] 2 0 = Returned ps /\
    (forall st, Par.reach ["AA"; "AB"] 2 st -> Par.main st = Par.MReturned ->
       Par.out st = ps) /\
    (forall st, Par.reach ["AA"; "AB"] 2 st -> ~ Par.step ["AA"; "AB"] 2 st Par.Panic) /\
    (forall st, Par.reach ["AA"; "AB"] 2 st -> Par.main st <> Par.MReturned ->
       exists st', Par.step ["AA"; "AB"] 2 st (Par.Run st')) /\
    (forall st st', Par.reach ["AA"; "AB"] 2 st -> Par.step ["AA"; "AB"] 2 st (Par.Run st') ->
       (Par.measure ["AA"; "AB"] st' < Par.measure ["AA"; "AB"] st)%nat).
Proof.
  assert (H1 : 1 <= 2) by lia.
  assert (H2 : Forall (fun s => is_Some (buildProfile s)) ["AA"; "AB"]).
  { constructor; [exists profile_AA; exact buildProfile_AA|].
    constructor; [exists profile_AB; exact buildProfile_AB|constructor]. }
  exact (conj H1 (conj H2 (C3_buildProfilesParallel_sequential ["AA"; "AB"] 2 0 H1 H2))).
Defined.

(** ** C4 *)

(** C4: for every input and every pair of chunk sizes c1, c2 >= 1,
    [processFileInChunks] with chunk size c1 and with chunk size c2
    gives the same outcome: the same names in the same order and the
    same profiles at every index. *)
Theorem C4_chunk_size_invariance (lines : list string) (c1 c2 maxGoroutines : Z) :
  1 <= c1 -> 1 <= c2 ->
  processFileInChunks lines c1 maxGoroutines = processFileInChunks lines c2 maxGoroutines.
Proof.
  intros H1 H2. rewrite !processFileInChunks_spec by assumption. reflexivity.
Qed.

Lemma C4_chunk_size_invariance_witness :
  1 <= 1 /\ 1 <= 7 /\
  processFileInChunks [">a"; "AAB"; "CC"; ">b"; ">c"; "ABC"] 1 6
    = processFileInChunks [">a"; "AAB"; "CC"; ">b"; ">c"; "ABC"] 7 6.
Proof.
  assert (H1 : 1 <= 1) by lia. assert (H2 : 1 <= 7) by lia.
  exact (conj H1 (conj H2
    (C4_chunk_size_invariance [">a"; "AAB"; "CC"; ">b"; ">c"; "ABC"] 1 7 6 H1 H2))).
Defined.

(** ** C5 *)

(** C5: for every sequence S of uppercase letters (a Go string, of
    length below 2^63), [buildProfile] returns a profile whose [Sum] is
    max(0, length(S) - 1); when length(S) < 2 it is the all-zero
    profile with total 0. *)
Theorem C5_buildProfile_Sum (s : string) :
  uppercase s ->
  Z.of_nat (String.length s) < 2 ^ 63 ->
  exists p,
    buildProfile s = Some p /\
    Sum p = Z.max 0 (Z.of_nat (String.length s) - 1) /\
    ((String.length s < 2)%nat -> p = zero_profile).
Proof.
  intros Hup Hlen. destruct (buildProfile_uppercase s Hup) as [p Hp].
  exists p. split; [exact Hp|]. split.
  - rewrite (buildProfile_Sum s p Hp), length_bytes_of. rewrite wrap64_small by lia. lia.
  - intros Hshort. rewrite buildProfile_short in Hp by (rewrite length_bytes_of; exact Hshort).
    congruence.
Qed.

Lemma C5_buildProfile_Sum_witness :
  uppercase "ABZ" /\
  Z.of_nat (String.length "ABZ") < 2 ^ 63 /\
  exists p,
    buildProfile "ABZ" = Some p /\
    Sum p = Z.max 0 (Z.of_nat (String.length "ABZ") - 1) /\
    ((String.length "ABZ" < 2)%nat -> p = zero_profile).
Proof.
  assert (H1 : uppercase "ABZ") by (apply uppercaseb_sound; vm_compute; reflexivity).
  assert (H2 : Z.of_nat (String.length "ABZ") < 2 ^ 63) by (vm_compute; reflexivity).
  exact (conj H1 (conj H2 (C5_buildProfile_Sum "ABZ" H1 H2))).
Defined.

(** ** C6 *)

(** C6, as stated, fails: on the sequence of 2^32 + 1 letters A the
    count of the bigram AA, a [uint32], wraps around to 0 while [Sum],
    a [uint64], is 2^32. *)
Lemma C6_count_wraps_around :
  uppercase long_A /\
  buildProfile long_A = Some (mkProfile zero_counts (2 ^ 32)) /\
  ~ profile_inv (mkProfile zero_counts (2 ^ 32)).
Proof.
  split; [exact uppercase_long_A|]. split; [exact buildProfile_long_A|].
  unfold profile_inv. cbn [Sum Profile]. rewrite sumZ_zero_counts. discriminate.
Qed.

(** C6, amended: every profile that [buildProfile] produces from a
    sequence of uppercase letters of length at most 2^32 satisfies
    Sum == the sum of all 676 counts of its array; and every profile of
    a table that [processFileInChunks] returns satisfies it, when every
    record has a sequence of at most 2^32 bytes (profiles are values,
    no operation changes one after its construction). *)
Theorem C6_profile_invariant :
  (forall s, uppercase s -> Z.of_nat (String.length s) <= 2 ^ 32 ->
     exists p, buildProfile s = Some p /\ wf_profile p /\ profile_inv p) /\
  (forall lines chunkSize maxGoroutines names profiles,
     1 <= chunkSize ->
     Forall (fun r => Z.of_nat (String.length (snd r)) <= 2 ^ 32) (records_code lines) ->
     processFileInChunks lines chunkSize maxGoroutines = Returned (names, profiles) ->
     Forall (fun p => wf_profile p /\ profile_inv p) profiles).
Proof.
  split.
  - intros s Hup Hlen. destruct (buildProfile_uppercase s Hup) as [p Hp].
    exists p. split; [exact Hp|]. split; [apply (buildProfile_wf s p Hp)|].
    apply (buildProfile_inv s p Hp). rewrite length_bytes_of. exact Hlen.
  - intros lines c n names profiles Hc Hlen Hrun.
    rewrite processFileInChunks_spec in Hrun by exact Hc.
    unfold table_of in Hrun. rewrite batch_closed in Hrun.
    destruct (map snd (records_code lines)) as [|s l] eqn:Hseqs.
    + cbn in Hrun. injection Hrun as _ <-. constructor.
    + destruct (n <? 0)%Z; [discriminate|]. destruct (n =? 0)%Z; [discriminate|].
      rewrite <- Hseqs in Hrun.
      destruct (mapM buildProfile (map snd (records_code lines))) as [ps|] eqn:E; [|discriminate].
      cbn in Hrun. injection Hrun as _ <-. apply mapM_Some in E.
      apply Forall_lookup_2. intros i p Hp.
      destruct (Forall2_lookup_r _ _ _ _ _ E Hp) as (sq & Hsq & Hb).
      apply list_lookup_fmap_Some in Hsq as (r & -> & Hr).
      pose proof (Forall_lookup_1 _ _ _ _ Hlen Hr) as Hl. cbn beta in Hl.
      split; [apply (buildProfile_wf _ _ Hb)|].
      apply (buildProfile_inv _ _ Hb). rewrite length_bytes_of. exact Hl.
Qed.

Lemma C6_profile_invariant_witness :
  (uppercase "AAB" /\
   Z.of_nat (String.length "AAB") <= 2 ^ 32 /\
   exists p, buildProfile "AAB" = Some p /\ wf_profile p /\ profile_inv p) /\
  (1 <= 1 /\
   Forall (fun r => Z.of_nat (String.length (snd r)) <= 2 ^ 32)
     (records_code [">a"; "AA"; ">b"; "AB"]) /\
   processFileInChunks [">a"; "AA"; ">b"; "AB"] 1 6
     = Returned ([">a"; ">b"], [profile_AA; profile_AB]) /\
   Forall (fun p => wf_profile p /\ profile_inv p) [profile_AA; profile_AB]).
Proof.
  assert (H1 : uppercase "AAB") by (apply uppercaseb_sound; vm_compute; reflexivity).
  assert (H2 : Z.of_nat (String.length "AAB") <= 2 ^ 32) by (vm_compute; discriminate).
  assert (H3 : 1 <= 1) by lia.
  assert (H4 : Forall (fun r => Z.of_nat (String.length (snd r)) <= 2 ^ 32)
                 (records_code [">a"; "AA"; ">b"; "AB"])).
  { repeat constructor; vm_compute; discriminate. }
  assert (H5 : processFileInChunks [">a"; "AA"; ">b"; "AB"] 1 6
                 = Returned ([">a"; ">b"], [profile_AA; profile_AB]))
    by (vm_compute; reflexivity).
  exact (conj (conj H1 (conj H2 (proj1 C6_profile_invariant "AAB" H1 H2)))
              (conj H3 (conj H4 (conj H5
                 (proj2 C6_profile_invariant [">a"; "AA"; ">b"; "AB"] 1 6
                    [">a"; ">b"] [profile_AA; profile_AB] H3 H4 H5))))).
Defined.

(** ** C7 *)

(** C7: for every profile X (an array of 676 [uint32] and a [uint64])
    that satisfies the invariant, with X.Sum > 0,
    [calculateSimilarity(X, X)] is exactly 1.0. *)
Theorem C7_similarity_self (X : ProteinProfile) :
  wf_profile X -> profile_inv X -> 0 < Sum X ->
  calculateSimilarity X X = one.
Proof. apply similarity_self. Qed.

Lemma C7_similarity_self_witness :
  wf_profile profile_AA /\ profile_inv profile_AA /\ 0 < Sum profile_AA /\
  calculateSimilarity profile_AA profile_AA = one.
Proof.
  assert (H1 : wf_profile profile_AA) by exact (buildProfile_wf "AA" profile_AA buildProfile_AA).
  assert (H2 : profile_inv profile_AA) by exact profile_inv_AA.
  assert (H3 : 0 < Sum profile_AA) by (vm_compute; reflexivity).
  exact (conj H1 (conj H2 (conj H3 (C7_similarity_self profile_AA H1 H2 H3)))).
Defined.

(** ** C8 *)

(** C8: for every pair of profiles X and Y that satisfy the invariant,
    with X.Sum > 0 and Y.Sum > 0, [calculateSimilarity(X, Y)] is at
    least 0 and at most 1. *)
Theorem C8_similarity_bounded (X Y : ProteinProfile) :
  wf_profile X -> wf_profile Y -> profile_inv X -> profile_inv Y ->
  0 < Sum X -> 0 < Sum Y ->
  le zero (calculateSimilarity X Y) = true /\
  le (calculateSimilarity X Y) one = true.
Proof. intros WX WY IX IY PX _. apply similarity_bounds; assumption. Qed.

Lemma C8_similarity_bounded_witness :
  wf_profile profile_AA /\ wf_profile profile_AB /\
  profile_inv profile_AA /\ profile_inv profile_AB /\
  0 < Sum profile_AA /\ 0 < Sum profile_AB /\
  le zero (calculateSimilarity profile_AA profile_AB) = true /\
  le (calculateSimilarity profile_AA profile_AB) one = true.
Proof.
  assert (H1 : wf_profile profile_AA) by exact (buildProfile_wf "AA" profile_AA buildProfile_AA).
  assert (H2 : wf_profile profile_AB) by exact (buildProfile_wf "AB" profile_AB buildProfile_AB).
  assert (H3 : profile_inv profile_AA) by exact profile_inv_AA.
  assert (H4 : profile_inv profile_AB) by exact profile_inv_AB.
  assert (H5 : 0 < Sum profile_AA) by (vm_compute; reflexivity).
  assert (H6 : 0 < Sum profile_AB) by (vm_compute; reflexivity).
  exact (conj H1 (conj H2 (conj H3 (conj H4 (conj H5 (conj H6
    (C8_similarity_bounded profile_AA profile_AB H1 H2 H3 H4 H5 H6))))))).
Defined.

(** ** C9 *)

(** C9: for every pair of profiles X and Y with X.Sum == 0, Y.Sum == 0
    and all counts zero, [calculateSimilarity(X, Y)] divides 0 by 0; no
    branch of the code fixes a value for this case.  The call returns
    without a fault, and what it returns is NaN: a value that is not
    equal to itself under [==] and that is neither above nor below any
    score, itself included. *)
Theorem C9_similarity_degenerate (X Y : ProteinProfile) :
  Sum X = 0 -> Sum Y = 0 ->
  Forall (fun c => c = 0) (Profile X) -> Forall (fun c => c = 0) (Profile Y) ->
  calculateSimilarity X Y = nan /\
  F64.eq (calculateSimilarity X Y) (calculateSimilarity X Y) = false /\
  forall v,
    gt (calculateSimilarity X Y) v = false /\ gt v (calculateSimilarity X Y) = false /\
    le (calculateSimilarity X Y) v = false /\ le v (calculateSimilarity X Y) = false.
Proof.
  intros H1 H2 H3 H4. rewrite (similarity_degenerate X Y H1 H2 H3 H4).
  split; [reflexivity|]. split; [reflexivity|].
  intros v. destruct v as [sg| sg| |sg m e]; repeat split; reflexivity.
Qed.

Lemma C9_similarity_degenerate_witness :
  Sum zero_profile = 0 /\ Sum zero_profile = 0 /\
  Forall (fun c => c = 0) (Profile zero_profile) /\
  Forall (fun c => c = 0) (Profile zero_profile) /\
  calculateSimilarity zero_profile zero_profile = nan /\
  F64.eq (calculateSimilarity zero_profile zero_profile)
         (calculateSimilarity zero_profile zero_profile) = false /\
  forall v,
    gt (calculateSimilarity zero_profile zero_profile) v = false /\
    gt v (calculateSimilarity zero_profile zero_profile) = false /\
    le (calculateSimilarity zero_profile zero_profile) v = false /\
    le v (calculateSimilarity zero_profile zero_profile) = false.
Proof.
  assert (H1 : Sum zero_profile = 0) by reflexivity.
  assert (H2 : Forall (fun c => c = 0) (Profile zero_profile))
    by (apply Forall_zero_counts; reflexivity).
  exact (conj H1 (conj H1 (conj H2 (conj H2
    (C9_similarity_degenerate zero_profile zero_profile H1 H1 H2 H2))))).
Defined.

(** ** C10 *)

(** C10: for every sequence of bytes in 'A'..'Z', every index that
    [buildProfile] computes from two adjacent characters lies in
    [0, 675], so the write into the array of 676 counts is in bounds,
    and [buildProfile] does not panic. *)
Theorem C10_buildProfile_in_bounds (s : string) :
  uppercase s ->
  (forall i c1 c2, bytes_of s !! i = Some c1 -> bytes_of s !! S i = Some c2 ->
     0 <= bigram_index c1 c2 <= 675) /\
  exists p, buildProfile s = Some p.
Proof.
  intros Hup. split; [|apply buildProfile_uppercase; exact Hup].
  intros i c1 c2 H1 H2. apply bigram_index_upper.
  - exact (Forall_lookup_1 _ _ _ _ Hup H1).
  - exact (Forall_lookup_1 _ _ _ _ Hup H2).
Qed.

Lemma C10_buildProfile_in_bounds_witness :
  uppercase "AZZA" /\
  (forall i c1 c2, bytes_of "AZZA" !! i = Some c1 -> bytes_of "AZZA" !! S i = Some c2 ->
     0 <= bigram_index c1 c2 <= 675) /\
  exists p, buildProfile "AZZA" = Some p.
Proof.
  assert (H1 : uppercase "AZZA") by (apply uppercaseb_sound; vm_compute; reflexivity).
  exact (conj H1 (C10_buildProfile_in_bounds "AZZA" H1)).
Defined.

(** * Further properties *)

Local Open Scope Z_scope.
Local Open Scope list_scope.

(** ** calculateSimilarity *)

Lemma sumMin_of_comm (X Y : ProteinProfile) : sumMin_of X Y = sumMin_of Y X.
Proof.
  unfold sumMin_of. generalize (seq 0 676). intros l. generalize 0.
  induction l as [|i l IH]; intros acc; [reflexivity|].
  cbn [fold_left]. rewrite (minsum_body_min X Y), (minsum_body_min Y X), Z.min_comm.
  apply IH.
Qed.

Lemma calculateSimilarity_comm (X Y : ProteinProfile) :
  calculateSimilarity X Y = calculateSimilarity Y X.
Proof.
  unfold calculateSimilarity, sumMax_of.
  rewrite (sumMin_of_comm X Y), (Z.add_comm (Sum X) (Sum Y)). reflexivity.
Qed.

(** X1: [calculateSimilarity] is symmetric, on all profiles. *)
Theorem X1_similarity_symmetric (X Y : ProteinProfile) :
  calculateSimilarity X Y = calculateSimilarity Y X.
Proof.
  unfold calculateSimilarity, sumMax_of.
  rewrite (sumMin_of_comm X Y), (Z.add_comm (Sum X) (Sum Y)). reflexivity.
Qed.

Lemma sumZ_zero_all (l : list Z) :
  Forall (fun c => 0 <= c) l -> sumZ l = 0 -> Forall (fun c => c = 0) l.
Proof.
  induction 1 as [|x l Hx Hl IH]; intros Hs; [constructor|].
  rewrite sumZ_cons in Hs. pose proof (sumZ_nonneg l Hl).
  constructor; [lia|apply IH; lia].
Qed.

(** X2: on profiles that satisfy the invariant the score is NaN exactly
    when both totals are 0. *)
Theorem X2_similarity_nan_iff (X Y : ProteinProfile) :
  wf_profile X -> wf_profile Y -> profile_inv X -> profile_inv Y ->
  (is_nan (calculateSimilarity X Y) = true <-> Sum X = 0 /\ Sum Y = 0).
Proof.
  intros WX WY IX IY. split.
  - intros Hnan.
    destruct WX as (LX & HX & SX), WY as (LY & HY & SY).
    assert (WX : wf_profile X) by (repeat split; assumption || lia).
    assert (WY : wf_profile Y) by (repeat split; assumption || lia).
    destruct (Z.eq_dec (Sum X) 0) as [EX|NX]; [destruct (Z.eq_dec (Sum Y) 0) as [EY|NY]|].
    + auto.
    + pose proof (similarity_bounds Y X WY WX IY IX ltac:(lia)) as [H _].
      apply le_not_nan in H. rewrite calculateSimilarity_comm in Hnan. congruence.
    + pose proof (similarity_bounds X Y WX WY IX IY ltac:(lia)) as [H _].
      apply le_not_nan in H. congruence.
  - intros [EX EY]. rewrite similarity_degenerate; [reflexivity|assumption..| |].
    + apply sumZ_zero_all; [apply wf_nonneg; exact WX|]. rewrite <- IX. exact EX.
    + apply sumZ_zero_all; [apply wf_nonneg; exact WY|]. rewrite <- IY. exact EY.
Qed.

Lemma X2_similarity_nan_iff_witness :
  wf_profile profile_AA /\ wf_profile profile_AB /\
  profile_inv profile_AA /\ profile_inv profile_AB /\
  (is_nan (calculateSimilarity profile_AA profile_AB) = true <->
   Sum profile_AA = 0 /\ Sum profile_AB = 0).
Proof.
  assert (H1 : wf_profile profile_AA)
    by exact (buildProfile_wf "AA" profile_AA buildProfile_AA).
  assert (H2 : wf_profile profile_AB)
    by exact (buildProfile_wf "AB" profile_AB buildProfile_AB).
  assert (H3 : profile_inv profile_AA) by exact profile_inv_AA.
  assert (H4 : profile_inv profile_AB) by exact profile_inv_AB.
  exact (conj H1 (conj H2 (conj H3 (conj H4
    (X2_similarity_nan_iff profile_AA profile_AB H1 H2 H3 H4))))).
Defined.

Lemma nth_nonneg (l : list Z) (i : nat) :
  Forall (fun c => 0 <= c) l -> 0 <= nth i l 0.
Proof.
  intros H. revert i. induction H as [|x l Hx Hl IH]; intros [|i]; cbn; try lia. apply IH.
Qed.

Lemma sumMin_disjoint (X Y : ProteinProfile) :
  wf_profile X -> wf_profile Y -> disjoint_counts X Y -> sumMin_of X Y = 0.
Proof.
  intros WX WY Hd. unfold sumMin_of. generalize (seq 0 676). intros l.
  induction l as [|i l IH]; [reflexivity|].
  cbn [fold_left]. rewrite minsum_body_min.
  pose proof (nth_nonneg (Profile X) i (wf_nonneg X WX)).
  pose proof (nth_nonneg (Profile Y) i (wf_nonneg Y WY)).
  replace (Z.min (nth i (Profile X) 0) (nth i (Profile Y) 0)) with 0
    by (destruct (Hd i); lia).
  exact IH.
Qed.

(** X3: two profiles that satisfy the invariant and share no bigram,
    one of them not empty, have the score +0. *)
Theorem X3_similarity_disjoint (X Y : ProteinProfile) :
  wf_profile X -> wf_profile Y -> profile_inv X -> profile_inv Y ->
  disjoint_counts X Y -> 0 < Sum X + Sum Y ->
  calculateSimilarity X Y = zero.
Proof.
  intros WX WY IX IY Hd Hpos. unfold calculateSimilarity.
  rewrite sumMax_spec by assumption. rewrite (sumMin_disjoint X Y WX WY Hd).
  pose proof (wf_inv_Sum_bound X WX IX). pose proof (wf_inv_Sum_bound Y WY IY).
  rewrite Z.sub_0_r. destruct (Sum X + Sum Y) as [|p|p] eqn:E; try lia.
  destruct (of_uint64_pos p ltac:(lia)) as (m & e & -> & _). reflexivity.
Qed.

Lemma X3_similarity_disjoint_witness :
  wf_profile profile_AA /\ wf_profile profile_AB /\
  profile_inv profile_AA /\ profile_inv profile_AB /\
  disjoint_counts profile_AA profile_AB /\ 0 < Sum profile_AA + Sum profile_AB /\
  calculateSimilarity profile_AA profile_AB = zero.
Proof.
  assert (H1 : wf_profile profile_AA)
    by exact (buildProfile_wf "AA" profile_AA buildProfile_AA).
  assert (H2 : wf_profile profile_AB)
    by exact (buildProfile_wf "AB" profile_AB buildProfile_AB).
  assert (H3 : profile_inv profile_AA) by exact profile_inv_AA.
  assert (H4 : profile_inv profile_AB) by exact profile_inv_AB.
  assert (H5 : disjoint_counts profile_AA profile_AB).
  { intros [|i]; [right; reflexivity|left].
    change (nth i (replicate 675 0) 0 = 0).
    apply nth_all_zero, Forall_replicate. reflexivity. }
  assert (H6 : 0 < Sum profile_AA + Sum profile_AB) by (vm_compute; reflexivity).
  exact (conj H1 (conj H2 (conj H3 (conj H4 (conj H5 (conj H6
    (X3_similarity_disjoint profile_AA profile_AB H1 H2 H3 H4 H5 H6))))))).
Defined.

(** ** buildProfile *)

(** X4: [buildProfile] returns exactly when every bigram of the
    sequence falls in one of the 676 cells; otherwise it panics. *)
Theorem X4_buildProfile_panics_iff (s : string) :
  (exists p, buildProfile s = Some p) <-> in_range (bytes_of s).
Proof.
  unfold buildProfile. set (bs := bytes_of s). split.
  - intros [p Hp].
    destruct (for_range _ _ _ _) as [[profile sum]|] eqn:Hrun; [|discriminate].
    pose proof (for_range_inv (buildProfile_body bs)
      (fun k st => length (fst st) = 676%nat /\
                   forall i c1 c2, (i < k)%nat -> bs !! i = Some c1 -> bs !! S i = Some c2 ->
                                   bigram_index c1 c2 < 676)
      (length bs - 1) 0 (zero_counts, 0) (profile, sum)) as Hinv.
    destruct Hinv as [_ Hall]; [| |exact Hrun|].
    + intros i [pr sm] st' Hi [Hlen Hprev] Hb. cbn [fst] in *.
      destruct (buildProfile_body_Some _ _ _ _ _ Hb) as (c1 & c2 & cnt & H1 & H2 & Hcnt & ->).
      cbn [fst]. rewrite length_insert. split; [exact Hlen|].
      intros j d1 d2 Hj Hd1 Hd2.
      destruct (decide (j = i)) as [->|Hne]; [|apply (Hprev j); [lia|assumption..]].
      rewrite H1 in Hd1. rewrite H2 in Hd2. injection Hd1 as <-. injection Hd2 as <-.
      apply lookup_lt_Some in Hcnt. pose proof (bigram_index_nonneg c1 c2). lia.
    + split; [reflexivity|]. intros; lia.
    + intros i c1 c2 H1 H2. apply (Hall i c1 c2); [|assumption..].
      apply lookup_lt_Some in H2. lia.
  - intros Hr.
    destruct (for_range_total (buildProfile_body bs)
                (fun _ st => length (fst st) = 676%nat) (length bs - 1) 0 (zero_counts, 0))
      as ([profile sum] & -> & _); [|reflexivity|eauto].
    intros i [profile sum] Hi Hlen. cbn [fst] in Hlen.
    destruct (lookup_lt_is_Some_2 bs i ltac:(lia)) as [c1 H1].
    destruct (lookup_lt_is_Some_2 bs (S i) ltac:(lia)) as [c2 H2].
    pose proof (Hr i c1 c2 H1 H2). pose proof (bigram_index_nonneg c1 c2).
    destruct (lookup_lt_is_Some_2 profile (Z.to_nat (bigram_index c1 c2)) ltac:(lia)) as [cnt H3].
    unfold buildProfile_body. rewrite H1, H2. cbn. rewrite H3. cbn.
    eexists. split; [reflexivity|]. cbn [fst]. rewrite length_insert. exact Hlen.
Qed.

Lemma occurrences_le (bs : list Z) (k n : nat) : (occurrences bs k n <= n)%nat.
Proof. induction n as [|n IH]; cbn [occurrences]; [lia|]. destruct (decide _); lia. Qed.

Lemma wrap32_succ (z : Z) : wrap32 (wrap32 z + 1) = wrap32 (z + 1).
Proof. unfold wrap32. apply Zplus_mod_idemp_l. Qed.

Lemma buildProfile_counts (s : string) (p : ProteinProfile) :
  buildProfile s = Some p ->
  forall k, (k < 676)%nat ->
    Profile p !! k
      = Some (wrap32 (Z.of_nat (occurrences (bytes_of s) k (length (bytes_of s) - 1)))).
Proof.
  unfold buildProfile. set (bs := bytes_of s). intros Hp.
  destruct (for_range _ _ _ _) as [[profile sum]|] eqn:Hrun; [|discriminate].
  injection Hp as <-. cbn [Profile].
  pose proof (for_range_inv (buildProfile_body bs)
    (fun n st => length (fst st) = 676%nat /\
                 forall k, (k < 676)%nat ->
                   fst st !! k = Some (wrap32 (Z.of_nat (occurrences bs k n))))
    (length bs - 1) 0 (zero_counts, 0) (profile, sum)) as Hinv.
  destruct Hinv as [_ Hall]; [| |exact Hrun|exact Hall].
  - intros i [pr sm] st' Hi [Hlen Hprev] Hb. cbn [fst] in *.
    destruct (buildProfile_body_Some _ _ _ _ _ Hb) as (c1 & c2 & cnt & H1 & H2 & Hcnt & ->).
    cbn [fst]. rewrite length_insert. split; [exact Hlen|].
    assert (Hidx : index_at bs i = Some (Z.to_nat (bigram_index c1 c2)))
      by (unfold index_at; rewrite H1, H2; reflexivity).
    pose proof (lookup_lt_Some _ _ _ Hcnt) as Hlt.
    intros k Hk. cbn [occurrences]. rewrite Hidx.
    destruct (decide (k = Z.to_nat (bigram_index c1 c2))) as [->|Hne].
    + rewrite list_lookup_insert_eq by exact Hlt.
      rewrite (Hprev _ Hk) in Hcnt. injection Hcnt as <-.
      destruct (decide _) as [_|N]; [|congruence].
      rewrite wrap32_succ. do 2 f_equal. lia.
    + rewrite list_lookup_insert_ne by congruence. rewrite (Hprev k Hk).
      destruct (decide _) as [E|_]; [congruence|]. do 2 f_equal. lia.
  - split; [reflexivity|]. intros k Hk. cbn [fst occurrences].
    unfold zero_counts. rewrite lookup_replicate_2 by exact Hk. reflexivity.
Qed.

(** X5: in the profile of a sequence cell [k] holds the number of
    positions whose bigram falls in cell [k], modulo 2^32, and exactly
    that number for a sequence of at most 2^32 bytes; [Sum] is the
    number of bigrams, modulo 2^64. *)
Theorem X5_buildProfile_counts (s : string) (p : ProteinProfile) (k : nat) :
  buildProfile s = Some p -> (k < 676)%nat ->
  Profile p !! k
    = Some (wrap32 (Z.of_nat (occurrences (bytes_of s) k (String.length s - 1)))) /\
  (Z.of_nat (String.length s) <= 2 ^ 32 ->
   Profile p !! k = Some (Z.of_nat (occurrences (bytes_of s) k (String.length s - 1)))) /\
  Sum p = wrap64 (Z.of_nat (String.length s - 1)).
Proof.
  intros Hp Hk. pose proof (buildProfile_counts s p Hp k Hk) as Hc.
  rewrite length_bytes_of in Hc. split; [exact Hc|]. split.
  - intros Hlen. rewrite Hc. f_equal. apply wrap32_small.
    pose proof (occurrences_le (bytes_of s) k (String.length s - 1)). lia.
  - rewrite (buildProfile_Sum s p Hp), length_bytes_of. reflexivity.
Qed.

Lemma X5_buildProfile_counts_witness :
  buildProfile "AA" = Some profile_AA /\ (0 < 676)%nat /\
  Profile profile_AA !! 0%nat
    = Some (wrap32 (Z.of_nat (occurrences (bytes_of "AA") 0 (String.length "AA" - 1)))) /\
  (Z.of_nat (String.length "AA") <= 2 ^ 32 ->
   Profile profile_AA !! 0%nat
     = Some (Z.of_nat (occurrences (bytes_of "AA") 0 (String.length "AA" - 1)))) /\
  Sum profile_AA = wrap64 (Z.of_nat (String.length "AA" - 1)).
Proof.
  assert (H1 : buildProfile "AA" = Some profile_AA) by exact buildProfile_AA.
  assert (H2 : (0 < 676)%nat) by lia.
  exact (conj H1 (conj H2 (X5_buildProfile_counts "AA" profile_AA 0 H1 H2))).
Defined.

(** X6: [bigram_index] is a bijection from the pairs of uppercase
    letters onto the 676 cells. *)
Theorem X6_bigram_index_bijective :
  (forall c1 c2 d1 d2, is_upper c1 -> is_upper c2 -> is_upper d1 -> is_upper d2 ->
     bigram_index c1 c2 = bigram_index d1 d2 -> c1 = d1 /\ c2 = d2) /\
  (forall k, 0 <= k < 676 ->
     exists c1 c2, is_upper c1 /\ is_upper c2 /\ bigram_index c1 c2 = k).
Proof.
  split.
  - unfold is_upper, bigram_index, wrap8. intros c1 c2 d1 d2 H1 H2 H3 H4.
    rewrite !Z.mod_small by lia. lia.
  - intros k Hk. exists (65 + k / 26), (65 + k mod 26).
    assert (0 <= k / 26 < 26) by (split; [apply Z.div_pos; lia|apply Z.div_lt_upper_bound; lia]).
    pose proof (Z.mod_pos_bound k 26 ltac:(lia)).
    unfold is_upper, bigram_index, wrap8.
    replace (65 + k / 26 - 65) with (k / 26) by lia.
    replace (65 + k mod 26 - 65) with (k mod 26) by lia.
    rewrite (Z.mod_small (k / 26) (2 ^ 8)), (Z.mod_small (k mod 26) (2 ^ 8)) by lia.
    pose proof (Z.div_mod k 26 ltac:(lia)). repeat split; lia.
Qed.

(** X7: a sequence of 2 to 2^32 uppercase letters has the score 1.0
    with itself. *)
Theorem X7_similarity_same_sequence (s : string) :
  uppercase s -> (2 <= String.length s)%nat -> Z.of_nat (String.length s) <= 2 ^ 32 ->
  exists p, buildProfile s = Some p /\ calculateSimilarity p p = one.
Proof.
  intros Hup H2 Hlen. destruct (buildProfile_uppercase s Hup) as [p Hp].
  exists p. split; [exact Hp|]. apply similarity_self.
  - apply (buildProfile_wf s p Hp).
  - apply (buildProfile_inv s p Hp). rewrite length_bytes_of. exact Hlen.
  - rewrite (buildProfile_Sum s p Hp), length_bytes_of. rewrite wrap64_small by lia. lia.
Qed.

Lemma X7_similarity_same_sequence_witness :
  uppercase "AA" /\ (2 <= String.length "AA")%nat /\
  Z.of_nat (String.length "AA") <= 2 ^ 32 /\
  exists p, buildProfile "AA" = Some p /\ calculateSimilarity p p = one.
Proof.
  assert (H1 : uppercase "AA") by (apply uppercaseb_sound; vm_compute; reflexivity).
  assert (H2 : (2 <= String.length "AA")%nat) by (cbn; lia).
  assert (H3 : Z.of_nat (String.length "AA") <= 2 ^ 32) by (cbn; lia).
  exact (conj H1 (conj H2 (conj H3 (X7_similarity_same_sequence "AA" H1 H2 H3)))).
Defined.

(** ** container/heap and MaxHeap *)

Lemma heap_Push_length {A : Type} (less : A -> A -> bool) (h : list A) (x : A) :
  length (heap_Push less h x) = S (length h).
Proof. unfold heap_Push. rewrite up_length, length_app. cbn. lia. Qed.

Lemma heap_Pop_Some {A : Type} (less : A -> A -> bool) (h : list A) :
  h <> [] -> exists x h', heap_Pop less h = Some (x, h') /\ h ≡ₚ x :: h'.
Proof.
  intros Hne. unfold heap_Pop.
  destruct (length h) as [|n] eqn:Hlen; [destruct h; [congruence|discriminate]|].
  set (h1 := down less n (Swap h 0 n) 0 n).
  assert (Hl1 : length h1 = S n) by (unfold h1; rewrite down_length, Swap_length; exact Hlen).
  destruct (lookup_lt_is_Some_2 h1 n ltac:(lia)) as [x Hx].
  exists x, (take n h1). rewrite Hx. split; [reflexivity|].
  transitivity h1; [unfold h1; rewrite down_perm, Swap_perm; reflexivity|].
  rewrite <- (take_drop n h1) at 1.
  rewrite (drop_S h1 x n Hx), drop_ge by lia.
  symmetry. apply Permutation_cons_append.
Qed.

(** X8: [heap.Pop] panics on the empty heap only; on any other heap,
    whatever the order, it takes out one element and keeps the
    others. *)
Theorem X8_heap_Pop_removes_one {A : Type} (less : A -> A -> bool) (h : list A) :
  (heap_Pop less h = None <-> h = []) /\
  (forall x h', heap_Pop less h = Some (x, h') -> h ≡ₚ x :: h').
Proof.
  split; [split|].
  - intros Hn. destruct h as [|a h]; [reflexivity|].
    destruct (heap_Pop_Some less (a :: h)) as (x & h' & Hp & _); [discriminate|congruence].
  - intros ->. reflexivity.
  - intros x h' Hp. destruct h as [|a h]; [discriminate|].
    destruct (heap_Pop_Some less (a :: h)) as (x0 & h0 & Hp0 & Hperm); [discriminate|].
    congruence.
Qed.

(** X9: on a [MaxHeap] whose scores are numbers [heap.Push] keeps the
    heap order and adds the entry. *)
Theorem X9_MaxHeap_Push (h : MaxHeap) (x : ProteinSimilarity) :
  is_heap MaxHeap_less h -> Forall score_ok h -> score_ok x ->
  is_heap MaxHeap_less (heap_Push MaxHeap_less h x) /\
  heap_Push MaxHeap_less h x ≡ₚ x :: h.
Proof.
  intros Hh Hok Hx. split; [|apply heap_Push_perm].
  apply (heap_Push_heap MaxHeap_less score_ok MaxHeap_less_asym MaxHeap_less_negtrans);
    assumption.
Qed.

Lemma X9_MaxHeap_Push_witness :
  is_heap MaxHeap_less heap_two /\ Forall score_ok heap_two /\
  score_ok (mkSimilarity one ">c") /\
  is_heap MaxHeap_less (heap_Push MaxHeap_less heap_two (mkSimilarity one ">c")) /\
  heap_Push MaxHeap_less heap_two (mkSimilarity one ">c")
    ≡ₚ mkSimilarity one ">c" :: heap_two.
Proof.
  assert (H1 : is_heap MaxHeap_less heap_two) by exact is_heap_two.
  assert (H2 : Forall score_ok heap_two) by (repeat constructor).
  assert (H3 : score_ok (mkSimilarity one ">c")) by reflexivity.
  exact (conj H1 (conj H2 (conj H3
    (X9_MaxHeap_Push heap_two (mkSimilarity one ">c") H1 H2 H3)))).
Defined.

(** X10: on a non-empty [MaxHeap] whose scores are numbers [heap.Pop]
    returns an entry that no entry of the heap exceeds, and leaves a
    heap of the others. *)
Theorem X10_MaxHeap_Pop (h : MaxHeap) :
  is_heap MaxHeap_less h -> Forall score_ok h -> h <> [] ->
  exists r h',
    heap_Pop MaxHeap_less h = Some (r, h') /\
    is_heap MaxHeap_less h' /\
    h ≡ₚ r :: h' /\
    (forall y, y ∈ h -> gt (similarity y) (similarity r) = false).
Proof.
  intros Hh Hok Hne.
  exact (heap_Pop_spec MaxHeap_less score_ok MaxHeap_less_asym MaxHeap_less_negtrans
           h Hh Hok Hne).
Qed.

Lemma X10_MaxHeap_Pop_witness :
  is_heap MaxHeap_less heap_four /\ Forall score_ok heap_four /\ heap_four <> [] /\
  exists r h',
    heap_Pop MaxHeap_less heap_four = Some (r, h') /\
    is_heap MaxHeap_less h' /\
    heap_four ≡ₚ r :: h' /\
    (forall y, y ∈ heap_four -> gt (similarity y) (similarity r) = false).
Proof.
  assert (H1 : is_heap MaxHeap_less heap_four) by exact is_heap_four.
  assert (H2 : Forall score_ok heap_four) by (repeat constructor).
  assert (H3 : heap_four <> []) by discriminate.
  exact (conj H1 (conj H2 (conj H3 (X10_MaxHeap_Pop heap_four H1 H2 H3)))).
Defined.

(** ** findTop100Similar *)

Lemma keep_step_total (K : Z) (h : MaxHeap) (x : ProteinSimilarity) :
  exists h2 D2,
    (if K <? Z.of_nat (length (heap_Push MaxHeap_less h x))
     then snd <$> heap_Pop MaxHeap_less (heap_Push MaxHeap_less h x)
     else Some (heap_Push MaxHeap_less h x)) = Some h2 /\
    h2 ++ D2 ≡ₚ x :: h /\
    length h2 = (if K <? Z.of_nat (S (length h)) then length h else S (length h)).
Proof.
  rewrite heap_Push_length. destruct (K <? Z.of_nat (S (length h))).
  - destruct (heap_Pop_Some MaxHeap_less (heap_Push MaxHeap_less h x)) as (r & h' & Hp & Hperm).
    { intros E. apply (f_equal length) in E. rewrite heap_Push_length in E. discriminate. }
    exists h', [r]. rewrite Hp. split; [reflexivity|].
    pose proof (Permutation_length Hperm) as HL. rewrite heap_Push_length in HL. cbn in HL.
    split; [|lia].
    rewrite <- Permutation_cons_append, <- Hperm. apply heap_Push_perm.
  - exists (heap_Push MaxHeap_less h x), []. split; [reflexivity|].
    rewrite app_nil_r. split; [apply heap_Push_perm|apply heap_Push_length].
Qed.

Lemma top_loop_total (q : ProteinProfile) (names : list string) (K : Z)
  (profiles : list ProteinProfile) :
  forall (i : nat) (h : MaxHeap),
    (length profiles + i <= length names)%nat ->
    Z.of_nat (length h) <= Z.max 0 K ->
    exists h' D',
      top_loop q profiles names i K h = Some h' /\
      h' ++ D' ≡ₚ stored q profiles (drop i names) ++ h /\
      Z.of_nat (length h') = Z.min (Z.max 0 K) (Z.of_nat (length h + length profiles)).
Proof.
  induction profiles as [|p ps IH]; intros i h Hlen Hh.
  - exists h, []. split; [reflexivity|]. rewrite app_nil_r. split; [reflexivity|].
    cbn [length]. lia.
  - cbn [length] in Hlen.
    destruct (lookup_lt_is_Some_2 names i ltac:(lia)) as [nm Hnm].
    cbn [top_loop]. rewrite Hnm. cbn [mbind option_bind].
    set (item := mkSimilarity (neg (calculateSimilarity q p)) nm).
    destruct (keep_step_total K h item) as (h2 & D2 & Hstep & Hperm2 & Hlen2).
    rewrite Hstep. cbn [mbind option_bind].
    destruct (IH (S i) h2) as (h' & D' & Hrun & Hperm' & Hlen'); [lia| |].
    { rewrite Hlen2. destruct (Z.ltb_spec K (Z.of_nat (S (length h)))); lia. }
    exists h', (D' ++ D2). split; [exact Hrun|]. split.
    + rewrite app_assoc, Hperm', <- app_assoc, Hperm2, (drop_S names nm i Hnm).
      unfold stored. cbn [zip_with]. fold item. symmetry. apply Permutation_middle.
    + rewrite Hlen', Hlen2. cbn [length].
      destruct (Z.ltb_spec K (Z.of_nat (S (length h)))); lia.
Qed.

Lemma top_loop_short (q : ProteinProfile) (names : list string) (K : Z)
  (profiles : list ProteinProfile) :
  forall (i : nat) (h : MaxHeap),
    (length names < length profiles + i)%nat -> (i <= length names)%nat ->
    top_loop q profiles names i K h = None.
Proof.
  induction profiles as [|p ps IH]; intros i h Hlen Hi.
  - cbn [length] in Hlen. lia.
  - cbn [length] in Hlen. cbn [top_loop].
    destruct (names !! i) as [nm|] eqn:Hnm; [|reflexivity].
    cbn [mbind option_bind]. apply lookup_lt_Some in Hnm.
    set (item := mkSimilarity (neg (calculateSimilarity q p)) nm).
    destruct (keep_step_total K h item) as (h2 & D2 & Hstep & _).
    rewrite Hstep. cbn [mbind option_bind]. apply IH; lia.
Qed.

Lemma drain_total (h : MaxHeap) :
  forall acc, exists L, L ≡ₚ h /\ drain (length h) h acc = Some (acc ++ map negated L).
Proof.
  remember (length h) as n eqn:Hn. revert h Hn.
  induction n as [|n IH]; intros h Hn acc.
  - destruct h; [|discriminate]. exists []. split; [reflexivity|].
    cbn. rewrite app_nil_r. reflexivity.
  - destruct (heap_Pop_Some MaxHeap_less h) as (r & h' & Hpop & Hperm).
    { intros ->. discriminate. }
    destruct (IH h') with (acc := acc ++ [negated r]) as (L & HL & Hrun).
    { apply Permutation_length in Hperm. cbn in Hperm. lia. }
    exists (r :: L). split; [rewrite Hperm, HL; reflexivity|].
    cbn [drain]. rewrite <- Hn. cbn [Nat.ltb Nat.leb]. rewrite Hpop, Hrun.
    rewrite <- app_assoc. reflexivity.
Qed.

(** X11: [findTop100Similar] panics exactly when the query is not
    accepted by [buildProfile] or there are fewer names than
    profiles. *)
Theorem X11_findTop100Similar_panics_iff (sequence : string)
  (profiles : list ProteinProfile) (names : list string) (topN : Z) :
  findTop100Similar sequence profiles names topN = None <->
  buildProfile sequence = None \/ (length names < length profiles)%nat.
Proof.
  unfold findTop100Similar.
  change (heap_Init MaxHeap_less []) with (@nil ProteinSimilarity).
  destruct (buildProfile sequence) as [q|]; cbn [mbind option_bind]; [|tauto].
  destruct (Nat.lt_ge_cases (length names) (length profiles)) as [Hs|Hl].
  - rewrite (top_loop_short q names topN profiles 0 []) by lia. tauto.
  - destruct (top_loop_total q names topN profiles 0 []) as (h & D & -> & _);
      [lia|cbn; lia|].
    cbn [mbind option_bind].
    destruct (drain_total h []) as (L & _ & ->).
    split; [discriminate|]. intros [H|H]; [discriminate|lia].
Qed.

(** X12: whatever the scores, NaN included, and whatever [topN], the
    result has [min(max(topN, 0), len(profiles))] entries, each an entry
    of the scored table counted once. *)
Theorem X12_findTop100Similar_size (sequence : string) (q : ProteinProfile)
  (profiles : list ProteinProfile) (names : list string) (topN : Z) :
  buildProfile sequence = Some q -> (length profiles <= length names)%nat ->
  exists R D,
    findTop100Similar sequence profiles names topN = Some R /\
    Z.of_nat (length R) = Z.min (Z.max 0 topN) (Z.of_nat (length profiles)) /\
    R ++ D ≡ₚ scored q profiles names.
Proof.
  intros Hq Hlen. unfold findTop100Similar. rewrite Hq. cbn [mbind option_bind].
  change (heap_Init MaxHeap_less []) with (@nil ProteinSimilarity).
  destruct (top_loop_total q names topN profiles 0 []) as (h & D & -> & Hperm & Hsize);
    [lia|cbn; lia|].
  cbn [mbind option_bind]. rewrite drop_0, app_nil_r in Hperm.
  destruct (drain_total h []) as (L & HL & ->).
  exists (map negated L), (map negated D). cbn [app]. split; [reflexivity|]. split.
  - rewrite length_map, HL, Hsize. cbn [length]. reflexivity.
  - rewrite <- map_app, HL, Hperm, negated_stored. reflexivity.
Qed.

Lemma X12_findTop100Similar_size_witness :
  buildProfile "AA" = Some profile_AA /\
  (length [zero_profile; profile_AB] <= length [">1"; ">2"])%nat /\
  exists R D,
    findTop100Similar "AA" [zero_profile; profile_AB] [">1"; ">2"] (-1) = Some R /\
    Z.of_nat (length R) = Z.min (Z.max 0 (-1)) (Z.of_nat (length [zero_profile; profile_AB])) /\
    R ++ D ≡ₚ scored profile_AA [zero_profile; profile_AB] [">1"; ">2"].
Proof.
  assert (H1 : buildProfile "AA" = Some profile_AA) by exact buildProfile_AA.
  assert (H2 : (length [zero_profile; profile_AB] <= length [">1"; ">2"])%nat) by (cbn; lia).
  exact (conj H1 (conj H2
    (X12_findTop100Similar_size "AA" profile_AA [zero_profile; profile_AB] [">1"; ">2"] (-1)
       H1 H2))).
Defined.

(** ** The report of main *)

Lemma report_loop_take (top : list ProteinSimilarity) (n : nat) :
  (n <= length top)%nat ->
  report_loop top n
    = Some (imap (fun j item => (Z.of_nat (length top) - Z.of_nat n + Z.of_nat j + 1,
                                  name item, similarity item))
                 (reverse (take n top))).
Proof.
  induction n as [|n IH]; intros Hn.
  - rewrite take_0. reflexivity.
  - destruct (lookup_lt_is_Some_2 top n ltac:(lia)) as [item Hitem].
    cbn [report_loop]. rewrite Hitem. cbn [mbind option_bind].
    rewrite IH by lia. cbn [mbind option_bind].
    rewrite (take_S_r top n item Hitem), reverse_snoc. cbn [imap].
    f_equal. f_equal; [f_equal; f_equal; lia|].
    apply imap_ext. intros j x _. cbn. f_equal. f_equal. lia.
Qed.

Lemma report_loop_rev (top : list ProteinSimilarity) :
  report_loop top (length top) = Some (ranked (reverse top)).
Proof.
  rewrite report_loop_take by lia. rewrite firstn_all. unfold ranked.
  f_equal. apply imap_ext. intros j x _. cbn. f_equal. f_equal. lia.
Qed.

(** X13: the report loop never panics and prints the entries of
    [topSimilarities] from the last to the first, with the ranks 1, 2,
    ...: line [j] of the report is entry [len - 1 - j]. *)
Theorem X13_report_reversed (topSimilarities : list ProteinSimilarity) :
  exists report,
    report_loop topSimilarities (length topSimilarities) = Some report /\
    length report = length topSimilarities /\
    forall j item, (j < length topSimilarities)%nat ->
      topSimilarities !! (length topSimilarities - 1 - j)%nat = Some item ->
      report !! j = Some (Z.of_nat j + 1, name item, similarity item).
Proof.
  exists (ranked (reverse topSimilarities)). split; [apply report_loop_rev|].
  unfold ranked. split; [rewrite length_imap, length_reverse; reflexivity|].
  intros j item Hj Hitem. rewrite list_lookup_imap.
  rewrite reverse_lookup by exact Hj.
  replace (length topSimilarities - S j)%nat with (length topSimilarities - 1 - j)%nat by lia.
  rewrite Hitem. reflexivity.
Qed.

(** ** The goroutines of buildProfilesParallel *)

Lemma reach_sem (sequences : list string) (N : Z) (st : Par.pstate) :
  Par.reach sequences N st -> Z.of_nat (Par.sem st) <= Z.max 0 N.
Proof.
  induction 1 as [|st st' _ IH Hstep]; [cbn; lia|].
  inversion Hstep; subst; cbn [Par.sem]; lia.
Qed.

(** X14: in every interleaving, at most [max(maxGoroutines, 0)]
    goroutines are started and have not yet received from the
    channel. *)
Theorem X14_goroutines_bounded (sequences : list string) (maxGoroutines : Z)
  (st : Par.pstate) :
  Par.reach sequences maxGoroutines st ->
  Z.of_nat (sum_list_with holding (Par.gs st)) <= Z.max 0 maxGoroutines.
Proof.
  intros Hr. pose proof (reach_sem _ _ _ Hr) as Hs.
  pose proof (inv_sem _ _ (reach_inv _ _ _ Hr)) as E. lia.
Qed.

Lemma X14_goroutines_bounded_witness :
  Par.reach ["AA"; "AB"] 1
    (Par.mkP Par.MSend [Par.GRun] 1 2 [zero_profile; zero_profile]) /\
  Z.of_nat (sum_list_with holding
              (Par.gs (Par.mkP Par.MSend [Par.GRun] 1 2 [zero_profile; zero_profile])))
    <= Z.max 0 1.
Proof.
  assert (H1 : Par.reach ["AA"; "AB"] 1
                 (Par.mkP Par.MSend [Par.GRun] 1 2 [zero_profile; zero_profile]))
    by exact reach_send_blocked.
  exact (conj H1 (X14_goroutines_bounded ["AA"; "AB"] 1
                    (Par.mkP Par.MSend [Par.GRun] 1 2 [zero_profile; zero_profile]) H1)).
Defined.

(** X15: in every interleaving, when [wg.Wait()] has returned, a
    goroutine has been started for each sequence and the counter of the
    WaitGroup is 0.  A goroutine whose [buildProfile] returned has ended
    and its slot holds the profile.  A goroutine whose [buildProfile]
    panicked has run its deferred [wg.Done()] and is about to end the
    process; its slot is as [make] left it, and its element is still in
    the channel.  When [buildProfile] returns on every sequence the
    channel is empty. *)
Theorem X15_state_at_return (sequences : list string) (maxGoroutines : Z)
  (st : Par.pstate) :
  Par.reach sequences maxGoroutines st -> Par.main st = Par.MReturned ->
  length (Par.gs st) = length sequences /\
  Par.wg st = 0%nat /\
  Par.sem st = sum_list_with holding (Par.gs st) /\
  (forall i s, sequences !! i = Some s ->
     match buildProfile s with
     | Some p => Par.gs st !! i = Some Par.GExit /\ Par.out st !! i = Some p
     | None => Par.gs st !! i = Some Par.GCrash /\ Par.out st !! i = Some zero_profile
     end) /\
  (Forall (fun s => is_Some (buildProfile s)) sequences -> Par.sem st = 0%nat).
Proof.
  intros Hr Hm. destruct (reach_inv _ _ _ Hr) as [Hout Hnext Hwg Hsem Hwr Hfr Hret].
  specialize (Hret Hm). rewrite Hm in *. cbn [pending sending] in *.
  assert (Hslots : forall i s, sequences !! i = Some s ->
            match buildProfile s with
            | Some p => Par.gs st !! i = Some Par.GExit /\ Par.out st !! i = Some p
            | None => Par.gs st !! i = Some Par.GCrash /\
                      Par.out st !! i = Some zero_profile
            end).
  { intros i s Hs.
    destruct (lookup_lt_is_Some_2 (Par.gs st) i) as [ph Hph].
    { rewrite Hnext. apply (lookup_lt_Some _ _ _ Hs). }
    pose proof (Hwr i ph Hph) as Hslot.
    destruct (sum_live_0 (Par.gs st) i ph ltac:(lia) Hph) as [-> | ->];
      cbn [slot] in Hslot.
    - destruct Hslot as (s' & p' & Hs' & Hb & Ho).
      assert (s' = s) by congruence. subst s'. rewrite Hb. split; assumption.
    - destruct Hslot as (s' & Hs' & Hb & Ho).
      assert (s' = s) by congruence. subst s'. rewrite Hb. split; assumption. }
  split; [exact Hnext|]. split; [exact Hret|]. split; [lia|]. split; [exact Hslots|].
  intros Hall. rewrite Hsem, Nat.add_0_r. apply all_exit_sums.
  intros i ph Hi.
  destruct (lookup_lt_is_Some_2 sequences i) as [s Hs].
  { rewrite <- Hnext. apply (lookup_lt_Some _ _ _ Hi). }
  pose proof (Hslots i s Hs) as Hsl.
  destruct (proj1 (Forall_lookup _ _) Hall i s Hs) as [p Hp]. rewrite Hp in Hsl.
  destruct Hsl as [Hg _]. congruence.
Qed.

Lemma X15_state_at_return_witness :
  Par.reach ["AA"; "aA"; "AB"] 2
    (Par.mkP Par.MReturned [Par.GExit; Par.GCrash; Par.GExit] 1 0
       [profile_AA; zero_profile; profile_AB]) /\
  Par.main (Par.mkP Par.MReturned [Par.GExit; Par.GCrash; Par.GExit] 1 0
              [profile_AA; zero_profile; profile_AB]) = Par.MReturned /\
  length (Par.gs (Par.mkP Par.MReturned [Par.GExit; Par.GCrash; Par.GExit] 1 0
                    [profile_AA; zero_profile; profile_AB]))
    = length ["AA"; "aA"; "AB"] /\
  Par.wg (Par.mkP Par.MReturned [Par.GExit; Par.GCrash; Par.GExit] 1 0
            [profile_AA; zero_profile; profile_AB]) = 0%nat /\
  Par.sem (Par.mkP Par.MReturned [Par.GExit; Par.GCrash; Par.GExit] 1 0
             [profile_AA; zero_profile; profile_AB])
    = sum_list_with holding
        (Par.gs (Par.mkP Par.MReturned [Par.GExit; Par.GCrash; Par.GExit] 1 0
                   [profile_AA; zero_profile; profile_AB])) /\
  (forall i s, ["AA"; "aA"; "AB"] !! i = Some s ->
     match buildProfile s with
     | Some p =>
       Par.gs (Par.mkP Par.MReturned [Par.GExit; Par.GCrash; Par.GExit] 1 0
                 [profile_AA; zero_profile; profile_AB]) !! i = Some Par.GExit /\
       Par.out (Par.mkP Par.MReturned [Par.GExit; Par.GCrash; Par.GExit] 1 0
                  [profile_AA; zero_profile; profile_AB]) !! i = Some p
     | None =>
       Par.gs (Par.mkP Par.MReturned [Par.GExit; Par.GCrash; Par.GExit] 1 0
                 [profile_AA; zero_profile; profile_AB]) !! i = Some Par.GCrash /\
       Par.out (Par.mkP Par.MReturned [Par.GExit; Par.GCrash; Par.GExit] 1 0
                  [profile_AA; zero_profile; profile_AB]) !! i = Some zero_profile
     end) /\
  (Forall (fun s => is_Some (buildProfile s)) ["AA"; "aA"; "AB"] ->
   Par.sem (Par.mkP Par.MReturned [Par.GExit; Par.GCrash; Par.GExit] 1 0
              [profile_AA; zero_profile; profile_AB]) = 0%nat).
Proof.
  assert (H1 : Par.reach ["AA"; "aA"; "AB"] 2
                 (Par.mkP Par.MReturned [Par.GExit; Par.GCrash; Par.GExit] 1 0
                    [profile_AA; zero_profile; profile_AB]))
    by exact reach_returned_after_panic.
  assert (H2 : Par.main (Par.mkP Par.MReturned [Par.GExit; Par.GCrash; Par.GExit] 1 0
                           [profile_AA; zero_profile; profile_AB]) = Par.MReturned)
    by reflexivity.
  exact (conj H1 (conj H2
    (X15_state_at_return ["AA"; "aA"; "AB"] 2
       (Par.mkP Par.MReturned [Par.GExit; Par.GCrash; Par.GExit] 1 0
          [profile_AA; zero_profile; profile_AB]) H1 H2))).
Defined.



(** X25: with [maxGoroutines >= 1], an interleaving can stop only
    where the call has returned the sequential map of [buildProfile]
    with every goroutine ended: when [buildProfile] panics on a
    sequence, every interleaving goes on until the process dies,
    whether the call has returned before or not. *)
Theorem X25_final_states (sequences : list string) (maxGoroutines : Z)
  (st : Par.pstate) :
  1 <= maxGoroutines -> Par.reach sequences maxGoroutines st ->
  (forall c, ~ Par.step sequences maxGoroutines st c) ->
  Par.main st = Par.MReturned /\
  Forall (fun ph => ph = Par.GExit) (Par.gs st) /\
  mapM buildProfile sequences = Some (Par.out st).
Proof.
  intros HN Hr Hfinal.
  assert (Hm : Par.main st = Par.MReturned).
  { destruct (Par.main st) eqn:E; try reflexivity;
      destruct (progress sequences maxGoroutines st HN Hr) as [c Hc];
      try (rewrite E; discriminate); destruct (Hfinal c Hc). }
  pose proof (reach_inv _ maxGoroutines _ Hr) as Hinv.
  assert (Hexit : forall i ph, Par.gs st !! i = Some ph -> ph = Par.GExit).
  { intros i ph Hi.
    destruct (sum_live_0 (Par.gs st) i ph) as [->| ->]; [|exact Hi|reflexivity|].
    - pose proof (inv_wg _ _ Hinv) as Hwg. pose proof (inv_returned _ _ Hinv Hm). lia.
    - destruct (Hfinal _ (Par.step_crash _ _ st i Hi)). }
  split; [exact Hm|]. split; [apply Forall_lookup; exact Hexit|].
  destruct (mapM buildProfile sequences) as [ps|] eqn:E.
  - f_equal. symmetry. apply (inv_returned_out sequences st ps Hinv Hm E).
  - exfalso. apply mapM_None in E. apply Exists_exists in E as (s & Hin & Hs).
    apply list_elem_of_lookup_1 in Hin as [i Hi].
    pose proof (inv_next _ _ Hinv) as Hnext. rewrite Hm in Hnext.
    destruct (lookup_lt_is_Some_2 (Par.gs st) i) as [ph Hph].
    { rewrite Hnext. apply (lookup_lt_Some _ _ _ Hi). }
    pose proof (inv_written _ _ Hinv i ph Hph) as Hslot.
    rewrite (Hexit i ph Hph) in Hslot. destruct Hslot as (s' & p & Hs' & Hb & _).
    congruence.
Qed.

Lemma X25_final_states_witness :
  1 <= 1 /\
  Par.reach ["AA"] 1 (Par.mkP Par.MReturned [Par.GExit] 0 0 [profile_AA]) /\
  (forall c, ~ Par.step ["AA"] 1 (Par.mkP Par.MReturned [Par.GExit] 0 0 [profile_AA]) c) /\
  Par.main (Par.mkP Par.MReturned [Par.GExit] 0 0 [profile_AA]) = Par.MReturned /\
  Forall (fun ph => ph = Par.GExit)
    (Par.gs (Par.mkP Par.MReturned [Par.GExit] 0 0 [profile_AA])) /\
  mapM buildProfile ["AA"]
    = Some (Par.out (Par.mkP Par.MReturned [Par.GExit] 0 0 [profile_AA])).
Proof.
  assert (H1 : 1 <= 1) by lia.
  assert (H2 : Par.reach ["AA"] 1 (Par.mkP Par.MReturned [Par.GExit] 0 0 [profile_AA]))
    by exact reach_returned_AA.
  assert (H3 : forall c,
             ~ Par.step ["AA"] 1 (Par.mkP Par.MReturned [Par.GExit] 0 0 [profile_AA]) c)
    by exact final_returned_AA.
  exact (conj H1 (conj H2 (conj H3
    (X25_final_states ["AA"] 1 (Par.mkP Par.MReturned [Par.GExit] 0 0 [profile_AA])
       H1 H2 H3)))).
Defined.

Lemma reach_zero (sequences : list string) (st : Par.pstate) :
  sequences <> [] -> Par.reach sequences 0 st ->
  Par.gs st = [] /\ (Par.main st = Par.MAdd \/ Par.main st = Par.MSend).
Proof.
  intros Hne. induction 1 as [|st st' _ [Hg Hm] Hstep].
  - split; [reflexivity|]. left. cbn [Par.init Par.main].
    apply loop_head_lt. destruct sequences; [congruence|cbn; lia].
  - inversion Hstep; subst; cbn [Par.gs Par.main];
      try (rewrite Hg in *; discriminate);
      try (destruct Hm; congruence); try lia.
    split; [exact Hg|]. right. reflexivity.
Qed.

(** X17: with [maxGoroutines = 0] and at least one sequence no
    interleaving returns or starts a goroutine: the main goroutine
    blocks for ever in its first send on the channel, and the call
    deadlocks. *)
Theorem X17_unbuffered_channel_deadlocks (sequences : list string) (startIndex : Z) :
  sequences <> [] ->
  (forall st, Par.reach sequences 0 st ->
     Par.gs st = [] /\ Par.main st <> Par.MReturned /\
     (Par.main st = Par.MSend -> forall c, ~ Par.step sequences 0 st c)) /\
  (exists st, Par.reach sequences 0 st /\ Par.main st = Par.MSend) /\
  buildProfilesParallel sequences 0 startIndex = Deadlocked.
Proof.
  intros Hne. split; [|split].
  - intros st Hr. destruct (reach_zero sequences st Hne Hr) as [Hg Hm].
    split; [exact Hg|]. split; [destruct Hm; congruence|].
    intros Hs c Hstep.
    inversion Hstep; subst; try (rewrite Hg in *; discriminate); try congruence; lia.
  - exists (Par.mkP Par.MSend [] 0 1 (replicate (length sequences) zero_profile)).
    split; [|reflexivity].
    apply (Par.reach_step _ _ (Par.init sequences)); [apply Par.reach_init|].
    apply (Par.step_add sequences 0 (Par.init sequences)).
    cbn [Par.init Par.main]. apply loop_head_lt. destruct sequences; [congruence|cbn; lia].
  - apply buildProfilesParallel_zero. exact Hne.
Qed.

Lemma X17_unbuffered_channel_deadlocks_witness :
  ["AA"] <> [] /\
  (forall st, Par.reach ["AA"] 0 st ->
     Par.gs st = [] /\ Par.main st <> Par.MReturned /\
     (Par.main st = Par.MSend -> forall c, ~ Par.step ["AA"] 0 st c)) /\
  (exists st, Par.reach ["AA"] 0 st /\ Par.main st = Par.MSend) /\
  buildProfilesParallel ["AA"] 0 0 = Deadlocked.
Proof.
  assert (H1 : ["AA"] <> []) by discriminate.
  exact (conj H1 (X17_unbuffered_channel_deadlocks ["AA"] 0 H1)).
Defined.

(** ** processFileInChunks *)

Lemma batch_any (n s : Z) (l : list string) :
  0 <= n -> buildProfilesParallel l n s = batch n l.
Proof.
  intros Hn. destruct l; [|reflexivity]. apply buildProfilesParallel_nil. exact Hn.
Qed.

Lemma scan_loop_any (c n : Z) :
  1 <= c \/ 0 <= n ->
  forall (lines : list string) (st : scan_state) (done : list string),
    batch n done = Returned (allProfiles st) ->
    length (currentChunkNames st) = length (currentChunkSequences st) ->
    obind (scan_loop c n lines st) (scan_finish n) =
    obind (batch n (done ++ currentChunkSequences st
                      ++ map snd (scan_records lines (currentName st) (currentSequence st))))
      (fun ps => Returned (allNames st ++ currentChunkNames st
                             ++ map fst (scan_records lines (currentName st) (currentSequence st)), ps)).
Proof.
  intros Hcn. induction lines as [|line rest IH]; intros st done Hdone Hpar.
  - cbn [scan_loop obind]. apply scan_finish_spec; assumption.
  - cbn [scan_loop]. apply (scan_line_parallel st line) in Hpar.
    destruct (scan_line_fields st line) as (EN & EP & ET).
    destruct (scan_line_records st line rest) as [ERn ERs]. cbv zeta in ERn, ERs.
    rewrite <- ERn, <- ERs. rewrite <- EN. rewrite <- EP in Hdone.
    set (st1 := scan_line st line) in *. clearbody st1. clear EN EP ET ERn ERs.
    destruct (Z.leb_spec c (Z.of_nat (length (currentChunkSequences st1)))) as [Hfull|Hroom].
    + unfold flush_chunk.
      replace (buildProfilesParallel (currentChunkSequences st1) n (totalProcessed st1))
        with (batch n (currentChunkSequences st1))
        by (symmetry; destruct Hcn; [apply batch_nonempty; lia|apply batch_any; assumption]).
      rewrite (batch_app n done), Hdone. cbn [obind].
      rewrite (batch_app n (currentChunkSequences st1)).
      rewrite !obind_assoc.
      destruct (batch n (currentChunkSequences st1)) as [ps| | |] eqn:Hb; try reflexivity.
      cbn [obind].
      rewrite (IH _ (done ++ currentChunkSequences st1)).
      * cbn [allNames allProfiles currentChunkNames currentChunkSequences currentName
               currentSequence app].
        rewrite (batch_app n (done ++ currentChunkSequences st1)).
        rewrite (batch_app n done), Hdone, Hb. cbn [obind].
        rewrite !obind_assoc. apply obind_ext. intros p3. cbn [obind].
        rewrite <- !app_assoc. reflexivity.
      * cbn [allProfiles]. rewrite batch_app, Hdone, Hb. reflexivity.
      * reflexivity.
    + cbn [obind]. apply IH; assumption.
Qed.

Lemma processFileInChunks_any (lines : list string) (c n : Z) :
  1 <= c \/ 0 <= n -> processFileInChunks lines c n = table_of n (records_code lines).
Proof.
  intros Hcn. unfold processFileInChunks, table_of, records_code.
  rewrite (scan_loop_any c n Hcn lines scan_init []) by reflexivity. reflexivity.
Qed.

(** X18: with [maxGoroutines >= 0] the outcome is the same for every
    chunk size, zero and negative ones included, where a chunk is
    flushed at every line. *)
Theorem X18_any_chunk_size (lines : list string) (c1 c2 maxGoroutines : Z) :
  0 <= maxGoroutines ->
  processFileInChunks lines c1 maxGoroutines = processFileInChunks lines c2 maxGoroutines.
Proof.
  intros Hn. rewrite !processFileInChunks_any by (right; exact Hn). reflexivity.
Qed.

Lemma X18_any_chunk_size_witness :
  0 <= 6 /\
  processFileInChunks [">a"; "AA"] 0 6 = processFileInChunks [">a"; "AA"] 10000 6.
Proof.
  assert (H1 : 0 <= 6) by lia.
  exact (conj H1 (X18_any_chunk_size [">a"; "AA"] 0 10000 6 H1)).
Defined.

Lemma map_fst_nil {A B : Type} (l : list (A * B)) : map fst l = [] -> l = [].
Proof. destruct l; [reflexivity|discriminate]. Qed.

Lemma processFileInChunks_closed (lines : list string) (c maxGoroutines : Z) :
  1 <= maxGoroutines ->
  processFileInChunks lines c maxGoroutines
    = of_option (ps ← mapM buildProfile (map snd (records_code lines));
                 Some (List.filter is_marker lines, ps)).
Proof.
  intros Hn. rewrite processFileInChunks_any by (right; lia). unfold table_of.
  rewrite batch_closed, records_code_names.
  destruct (map snd (records_code lines)) as [|s l] eqn:Es; [reflexivity|].
  destruct (Z.ltb_spec maxGoroutines 0); [lia|].
  destruct (Z.eqb_spec maxGoroutines 0); [lia|].
  destruct (mapM buildProfile (s :: l)); reflexivity.
Qed.

(** X19: with [maxGoroutines >= 1] the call returns the marker lines,
    in order, as the names, and as many profiles, those of the
    sequences of the records; it panics when [buildProfile] rejects one
    of these sequences. *)
Theorem X19_table_closed_form (lines : list string) (c maxGoroutines : Z) :
  1 <= maxGoroutines ->
  processFileInChunks lines c maxGoroutines
    = of_option (ps ← mapM buildProfile (map snd (records_code lines));
                 Some (List.filter is_marker lines, ps)) /\
  (forall names profiles,
     processFileInChunks lines c maxGoroutines = Returned (names, profiles) ->
     length profiles = length names).
Proof.
  intros Hn. pose proof (processFileInChunks_closed lines c maxGoroutines Hn) as E.
  split; [exact E|]. intros names profiles Hret. rewrite E in Hret.
  destruct (mapM buildProfile (map snd (records_code lines))) as [ps|] eqn:Hps;
    [|discriminate].
  cbn in Hret. injection Hret as <- <-.
  apply mapM_Some in Hps. apply Forall2_length in Hps.
  rewrite <- Hps, <- records_code_names, !length_map. reflexivity.
Qed.

Lemma X19_table_closed_form_witness :
  1 <= 6 /\
  processFileInChunks [">a"; "AA"] 10000 6
    = of_option (ps ← mapM buildProfile (map snd (records_code [">a"; "AA"]));
                 Some (List.filter is_marker [">a"; "AA"], ps)) /\
  (forall names profiles,
     processFileInChunks [">a"; "AA"] 10000 6 = Returned (names, profiles) ->
     length profiles = length names).
Proof.
  assert (H1 : 1 <= 6) by lia.
  exact (conj H1 (X19_table_closed_form [">a"; "AA"] 10000 6 H1)).
Defined.

Lemma scan_records_preamble (lines : list string) (cs : string) :
  scan_records lines EmptyString cs =
  match records_spec lines with
  | [] => []
  | (nm, t) :: recs => (nm, (cs ++ text_until_marker lines ++ t)%string) :: recs
  end.
Proof.
  revert cs. induction lines as [|line rest IH]; intros cs; [reflexivity|].
  cbn [scan_records records_spec text_until_marker String.eqb negb].
  destruct (is_marker line) eqn:Hm.
  - rewrite (scan_records_spec rest line cs (marker_nonempty line Hm)). reflexivity.
  - rewrite IH. destruct (records_spec rest) as [|[nm t] recs]; [reflexivity|].
    rewrite !string_app_assoc. reflexivity.
Qed.

(** X20: the records that the loop forms are those between the marker
    lines, but for the first: its sequence starts with the text of the
    lines before the first marker. *)
Theorem X20_preamble_joins_first_record (lines : list string) (c maxGoroutines : Z) :
  1 <= c \/ 0 <= maxGoroutines ->
  processFileInChunks lines c maxGoroutines
    = table_of maxGoroutines
        match records_spec lines with
        | [] => []
        | (nm, t) :: recs => (nm, (text_until_marker lines ++ t)%string) :: recs
        end.
Proof.
  intros Hcn. rewrite processFileInChunks_any by exact Hcn.
  unfold records_code. rewrite scan_records_preamble. reflexivity.
Qed.

Lemma X20_preamble_joins_first_record_witness :
  (1 <= 10000 \/ 0 <= 6) /\
  processFileInChunks ["AB"; ">x"; "CD"] 10000 6
    = table_of 6
        match records_spec ["AB"; ">x"; "CD"] with
        | [] => []
        | (nm, t) :: recs => (nm, (text_until_marker ["AB"; ">x"; "CD"] ++ t)%string) :: recs
        end.
Proof.
  assert (H1 : 1 <= 10000 \/ 0 <= 6) by (left; lia).
  exact (conj H1 (X20_preamble_joins_first_record ["AB"; ">x"; "CD"] 10000 6 H1)).
Defined.

(** X21: an input without a marker line gives the empty table and
    starts no goroutine, so also for [maxGoroutines <= 0]. *)
Theorem X21_no_marker_line (lines : list string) (c maxGoroutines : Z) :
  1 <= c -> Forall (fun line => is_marker line = false) lines ->
  processFileInChunks lines c maxGoroutines = Returned ([], []).
Proof.
  intros Hc Hall. rewrite processFileInChunks_spec by exact Hc.
  assert (E : records_code lines = []).
  { apply map_fst_nil. rewrite records_code_names.
    induction Hall as [|line rest Hl _ IH]; [reflexivity|].
    cbn [List.filter]. rewrite Hl. exact IH. }
  rewrite E. reflexivity.
Qed.

Lemma X21_no_marker_line_witness :
  1 <= 10000 /\ Forall (fun line => is_marker line = false) ["AB"; "CD"] /\
  processFileInChunks ["AB"; "CD"] 10000 (-1) = Returned ([], []).
Proof.
  assert (H1 : 1 <= 10000) by lia.
  assert (H2 : Forall (fun line => is_marker line = false) ["AB"; "CD"])
    by (repeat constructor).
  exact (conj H1 (conj H2 (X21_no_marker_line ["AB"; "CD"] 10000 (-1) H1 H2))).
Defined.

(** X22: with a marker line in the input and [chunkSize >= 1], the call
    deadlocks for [maxGoroutines = 0] and panics for
    [maxGoroutines < 0]; with [chunkSize <= 0] and [maxGoroutines < 0]
    it panics at the first line, marker or not. *)
Theorem X22_bad_maxGoroutines (lines : list string) (c maxGoroutines : Z) :
  maxGoroutines <= 0 ->
  (1 <= c -> Exists (fun line => is_marker line = true) lines ->
   processFileInChunks lines c maxGoroutines
     = if maxGoroutines <? 0 then Panicked else Deadlocked) /\
  (c <= 0 -> maxGoroutines < 0 -> lines <> [] ->
   processFileInChunks lines c maxGoroutines = Panicked).
Proof.
  intros Hn. split.
  - intros Hc Hex. rewrite processFileInChunks_spec by exact Hc.
    unfold table_of. rewrite batch_closed.
    destruct (map snd (records_code lines)) as [|s l] eqn:Es.
    + exfalso. apply map_eq_nil in Es. apply (f_equal (map fst)) in Es.
      rewrite records_code_names in Es. cbn in Es.
      induction Hex as [line rest Hl|line rest _ IH]; cbn [List.filter] in Es.
      * rewrite Hl in Es. discriminate.
      * destruct (is_marker line); [discriminate|]. exact (IH Es).
    + destruct (Z.ltb_spec maxGoroutines 0); [reflexivity|].
      destruct (Z.eqb_spec maxGoroutines 0); [reflexivity|lia].
  - intros Hc Hneg Hne. destruct lines as [|line rest]; [congruence|].
    unfold processFileInChunks. cbn [scan_loop].
    destruct (Z.leb_spec c (Z.of_nat (length (currentChunkSequences (scan_line scan_init line)))));
      [|lia].
    unfold flush_chunk. rewrite buildProfilesParallel_neg by exact Hneg. reflexivity.
Qed.

Lemma X22_bad_maxGoroutines_witness :
  0 <= 0 /\
  (1 <= 10000 -> Exists (fun line => is_marker line = true) [">a"; "AA"] ->
   processFileInChunks [">a"; "AA"] 10000 0 = if 0 <? 0 then Panicked else Deadlocked) /\
  (10000 <= 0 -> 0 < 0 -> [">a"; "AA"] <> [] ->
   processFileInChunks [">a"; "AA"] 10000 0 = Panicked).
Proof.
  assert (H1 : 0 <= 0) by lia.
  exact (conj H1 (X22_bad_maxGoroutines [">a"; "AA"] 10000 0 H1)).
Defined.

(** ** main *)

Lemma StronglySorted_snoc {A : Type} (R : A -> A -> Prop) (l : list A) (a : A) :
  StronglySorted R l -> Forall (fun x => R x a) l -> StronglySorted R (l ++ [a]).
Proof.
  induction 1 as [|x l HS IH Hx]; intros Hall; cbn [app].
  - constructor; constructor.
  - apply Forall_cons in Hall as [Hxa Hall]. constructor; [apply IH; exact Hall|].
    apply Forall_app. split; [exact Hx|]. constructor; [exact Hxa|constructor].
Qed.

Lemma sorted_asc_rev (R : list ProteinSimilarity) : sorted_asc R -> sorted_desc (reverse R).
Proof.
  unfold sorted_asc, sorted_desc. induction 1 as [|a l HS IH Ha]; [constructor|].
  rewrite reverse_cons. apply StronglySorted_snoc; [exact IH|].
  apply Forall_forall. intros x Hx. apply (proj1 (elem_of_reverse x l)) in Hx.
  exact (proj1 (Forall_forall _ _) Ha x Hx).
Qed.

Lemma mapM_buildProfile_ok (l : list string) (ps : list ProteinProfile) :
  mapM buildProfile l = Some ps ->
  Forall (fun s => Z.of_nat (String.length s) <= 2 ^ 32) l ->
  Forall (fun p => wf_profile p /\ profile_inv p) ps.
Proof.
  intros Hps Hall. apply mapM_Some in Hps.
  induction Hps as [|s p l ps Hp _ IH]; [constructor|].
  apply Forall_cons in Hall as [Hs Hall]. constructor; [|apply IH; exact Hall].
  split; [apply (buildProfile_wf s p Hp)|].
  apply (buildProfile_inv s p Hp). rewrite length_bytes_of. exact Hs.
Qed.

(** X23: [main], on a data file whose record sequences [buildProfile]
    accepts and a query that it accepts, both of at most 2^32 bytes and
    the query of at least 2: the run returns, prints the number of
    marker lines and a report of [min(100, that number)] lines, ranked
    from 1 in non-increasing order of score, and no record left out
    scores higher than a reported one. *)
Theorem X23_main_report (lines : list string) (query : string) (q : ProteinProfile) :
  buildProfile query = Some q ->
  (2 <= String.length query)%nat -> Z.of_nat (String.length query) <= 2 ^ 32 ->
  Forall (fun r => is_Some (buildProfile (snd r)) /\
                   Z.of_nat (String.length (snd r)) <= 2 ^ 32) (records_code lines) ->
  exists profiles R D,
    processFileInChunks lines 10000 6 = Returned (List.filter is_marker lines, profiles) /\
    main lines query
      = Returned (Z.of_nat (length (List.filter is_marker lines)), ranked R) /\
    Z.of_nat (length R) = Z.min 100 (Z.of_nat (length (List.filter is_marker lines))) /\
    sorted_desc R /\
    R ++ D ≡ₚ scored q profiles (List.filter is_marker lines) /\
    (forall r d, r ∈ R -> d ∈ D -> le (similarity d) (similarity r) = true).
Proof.
  intros Hq H2 Hlen Hrecs.
  assert (Hsome : Forall (fun s => is_Some (buildProfile s)) (map snd (records_code lines))).
  { apply Forall_map. eapply Forall_impl; [exact Hrecs|]. intros r [H _]. exact H. }
  assert (Hsize : Forall (fun s => Z.of_nat (String.length s) <= 2 ^ 32)
                    (map snd (records_code lines))).
  { apply Forall_map. eapply Forall_impl; [exact Hrecs|]. intros r [_ H]. exact H. }
  destruct (mapM_is_Some_2 buildProfile _ Hsome) as [profiles Hps].
  pose proof (processFileInChunks_closed lines 10000 6 ltac:(lia)) as Htab.
  rewrite Hps in Htab. cbn [mbind option_bind of_option] in Htab.
  assert (Hnames : length profiles = length (List.filter is_marker lines)).
  { pose proof (mapM_Some_1 _ _ _ Hps) as HF. apply Forall2_length in HF.
    rewrite <- HF, <- records_code_names, !length_map. reflexivity. }
  assert (Hnan : no_nan q profiles).
  { apply no_nan_query.
    - apply (buildProfile_wf query q Hq).
    - apply (buildProfile_inv query q Hq). rewrite length_bytes_of. exact Hlen.
    - rewrite (buildProfile_Sum query q Hq), length_bytes_of, wrap64_small by lia. lia.
    - apply (mapM_buildProfile_ok _ _ Hps Hsize). }
  destruct (findTop100Similar_spec query q profiles (List.filter is_marker lines) 100
              Hq ltac:(lia) ltac:(lia) Hnan) as (R0 & D & Htop & HlenR & Hsorted & Hperm & Hbest).
  exists profiles, (reverse R0), D. split; [exact Htab|]. split; [|split; [|split; [|split]]].
  - unfold main. rewrite Htab. cbn [obind fst snd]. rewrite Htop. cbn [of_option obind].
    rewrite report_loop_rev. reflexivity.
  - rewrite length_reverse, HlenR, Hnames. reflexivity.
  - apply sorted_asc_rev. exact Hsorted.
  - rewrite <- Hperm. apply Permutation_app_tail. apply reverse_Permutation.
  - intros r d Hr Hd. apply Hbest; [|exact Hd]. apply (proj1 (elem_of_reverse r R0)) in Hr. exact Hr.
Qed.

Lemma X23_main_report_witness :
  buildProfile "AA" = Some profile_AA /\
  (2 <= String.length "AA")%nat /\ Z.of_nat (String.length "AA") <= 2 ^ 32 /\
  Forall (fun r => is_Some (buildProfile (snd r)) /\
                   Z.of_nat (String.length (snd r)) <= 2 ^ 32)
    (records_code [">a"; "AA"; ">b"; "AB"]) /\
  exists profiles R D,
    processFileInChunks [">a"; "AA"; ">b"; "AB"] 10000 6
      = Returned (List.filter is_marker [">a"; "AA"; ">b"; "AB"], profiles) /\
    main [">a"; "AA"; ">b"; "AB"] "AA"
      = Returned (Z.of_nat (length (List.filter is_marker [">a"; "AA"; ">b"; "AB"])),
                  ranked R) /\
    Z.of_nat (length R)
      = Z.min 100 (Z.of_nat (length (List.filter is_marker [">a"; "AA"; ">b"; "AB"]))) /\
    sorted_desc R /\
    R ++ D ≡ₚ scored profile_AA profiles (List.filter is_marker [">a"; "AA"; ">b"; "AB"]) /\
    (forall r d, r ∈ R -> d ∈ D -> le (similarity d) (similarity r) = true).
Proof.
  assert (H1 : buildProfile "AA" = Some profile_AA) by exact buildProfile_AA.
  assert (H2 : (2 <= String.length "AA")%nat) by (cbn; lia).
  assert (H3 : Z.of_nat (String.length "AA") <= 2 ^ 32) by (cbn; lia).
  assert (H4 : Forall (fun r => is_Some (buildProfile (snd r)) /\
                                Z.of_nat (String.length (snd r)) <= 2 ^ 32)
                 (records_code [">a"; "AA"; ">b"; "AB"])).
  { assert (E : records_code [">a"; "AA"; ">b"; "AB"] = [(">a", "AA"); (">b", "AB")])
      by (vm_compute; reflexivity).
    rewrite E. constructor; [|constructor; [|constructor]];
      (split; [eexists; first [exact buildProfile_AA|exact buildProfile_AB]|cbn; lia]). }
  exact (conj H1 (conj H2 (conj H3 (conj H4
    (X23_main_report [">a"; "AA"; ">b"; "AB"] "AA" profile_AA H1 H2 H3 H4))))).
Defined.

Lemma mapM_None_Exists {A B : Type} (f : A -> option B) (l : list A) :
  mapM f l = None <-> Exists (fun x => f x = None) l.
Proof.
  induction l as [|x l IH]; cbn [mapM].
  - split; [discriminate|]. intros H. inversion H.
  - destruct (f x) as [y|] eqn:Hx; cbn [mbind option_bind].
    + destruct (mapM f l) as [ys|]; cbn.
      * split; [discriminate|]. intros H. apply Exists_cons in H as [H|H]; [congruence|].
        apply IH in H. discriminate.
      * split; [|reflexivity]. intros _. right. apply IH. reflexivity.
    + split; [|reflexivity]. intros _. left. exact Hx.
Qed.

(** X24: [main] panics exactly when [buildProfile] rejects the query or
    the sequence of a record; otherwise it returns, whatever the scores,
    with the number of marker lines and a report of
    [min(100, that number)] lines.  It never deadlocks. *)
Theorem X24_main_outcome (lines : list string) (query : string) :
  (main lines query = Panicked <->
   buildProfile query = None \/
   Exists (fun r => buildProfile (snd r) = None) (records_code lines)) /\
  (main lines query <> Panicked ->
   exists report,
     main lines query
       = Returned (Z.of_nat (length (List.filter is_marker lines)), report) /\
     Z.of_nat (length report)
       = Z.min 100 (Z.of_nat (length (List.filter is_marker lines)))).
Proof.
  pose proof (processFileInChunks_closed lines 10000 6 ltac:(lia)) as Htab.
  unfold main. rewrite Htab. clear Htab.
  pose proof (mapM_None_Exists buildProfile (map snd (records_code lines))) as HN.
  rewrite Exists_fmap in HN.
  destruct (mapM buildProfile (map snd (records_code lines))) as [profiles|] eqn:Hps.
  - cbn [mbind option_bind of_option obind fst snd].
    assert (Hnames : length profiles = length (List.filter is_marker lines)).
    { pose proof (mapM_Some_1 _ _ _ Hps) as HF. apply Forall2_length in HF.
      rewrite <- HF, <- records_code_names, !length_map. reflexivity. }
    assert (HnoEx : ~ Exists (fun r => buildProfile (snd r) = None) (records_code lines)).
    { intros H. apply HN in H. discriminate. }
    unfold findTop100Similar.
    change (heap_Init MaxHeap_less []) with (@nil ProteinSimilarity).
    destruct (buildProfile query) as [q|]; cbn [mbind option_bind of_option obind].
    + destruct (top_loop_total q (List.filter is_marker lines) 100 profiles 0 [])
        as (h & D & -> & _ & Hsize); [lia|cbn; lia|].
      cbn [mbind option_bind].
      destruct (drain_total h []) as (L & HL & ->).
      cbn [app of_option obind]. rewrite report_loop_rev. cbn [of_option obind].
      split.
      * split; [discriminate|]. intros [H|H]; [discriminate|contradiction].
      * intros _. eexists. split; [reflexivity|].
        unfold ranked. rewrite length_imap, length_reverse, length_map, HL, Hsize, <- Hnames.
        cbn [length]. lia.
    + split; [tauto|]. intros H. congruence.
  - cbn [mbind option_bind of_option obind]. split.
    + split; [|reflexivity]. intros _. right. apply HN. reflexivity.
    + intros H. congruence.
Qed.
